(** * CryptoCortex: trading front end and trade-execution ledger

    Shallow embedding of the React components of the repository
    (moving-average helper of the candle chart, pagination of the crypto
    list page, the two [handleTrade] submitters) and of the worker-side
    ledger pipeline described by the design documents. *)

From stdpp Require Import gmap strings list.
From Stdlib Require Import ZArith QArith Qround Lia Lqa Ascii.
Import ListNotations.

Open Scope Z_scope.

(** ** JavaScript array helpers used by the components *)

Module JSArray.

(** [Array.prototype.slice] index normalisation: a negative index counts
    from the end, and the result is clamped to [0, len]. *)
Definition clamp_index (len i : Z) : Z :=
  if i <? 0 then Z.max (len + i) 0 else Z.min i len.

(** [arr.slice(start, end)]. *)
Definition slice {A : Type} (arr : list A) (start end_ : Z) : list A :=
  let len := Z.of_nat (length arr) in
  let k := clamp_index len start in
  let final := clamp_index len end_ in
  firstn (Z.to_nat (final - k)) (skipn (Z.to_nat k) arr).

(** [arr.map((x, i) => f x i)], the index counted from [i0]. *)
Fixpoint mapi_from {A B : Type} (f : A -> Z -> B) (i0 : Z) (arr : list A)
  : list B :=
  match arr with
  | [] => []
  | x :: rest => f x i0 :: mapi_from f (i0 + 1) rest
  end.

Definition mapi {A B : Type} (f : A -> Z -> B) (arr : list A) : list B :=
  mapi_from f 0 arr.

End JSArray.

(** ** [calculateMA] of [CryptoCandlesChart.jsx] *)

Module MovingAverage.
Import JSArray.

Section WithNumbers.
(** The numbers of the chart: any carrier with the addition and the
    division by the period that [reduce] and [/] perform. *)
Variable num : Type.
Variable zero : num.
Variable add : num -> num -> num.
Variable div_by : num -> Z -> num.

(** [slice.reduce((sum, val) => sum + val, 0)]. *)
Definition reduce_sum (window : list num) : num :=
  fold_left add window zero.

Definition calculateMA (data : list num) (period : Z)
  : list (option num) :=
  mapi (fun _ i =>
          if i <? period - 1 then None
          else
            let window := slice data (i - period + 1) (i + 1) in
            Some (div_by (reduce_sum window) period))
       data.

(** The reading of the claim: the sum of [count] consecutive entries
    of [data] from index [lo] on, added left to right onto [acc]. *)
Fixpoint sum_from (data : list num) (lo count : nat) (acc : num) : num :=
  match count with
  | O => acc
  | S c =>
      match nth_error data lo with
      | Some x => sum_from data (S lo) c (add acc x)
      | None => acc
      end
  end.

(** Arithmetic mean of [data[i-period+1 .. i]]. *)
Definition mean_ending_at (data : list num) (i : nat) (period : Z) : num :=
  div_by (sum_from data (Z.to_nat (Z.of_nat i - period + 1))
                   (Z.to_nat period) zero)
         period.

End WithNumbers.

Arguments calculateMA {num}.
Arguments mean_ending_at {num}.
Arguments reduce_sum {num}.
Arguments sum_from {num}.

End MovingAverage.

(** ** Pagination of the crypto list page *)

Module CryptoListPage.

Definition pageSize : Z := 10.

(** [Math.ceil(total / pageSize)] on an integer count. *)
Definition totalPages (total : Z) : Z := - ((- total) / pageSize).

(** [disabled={page === 1}] *)
Definition previous_disabled (page : Z) : bool := page =? 1.

(** [disabled={page === totalPages}] *)
Definition next_disabled (page total : Z) : bool := page =? totalPages total.

Inductive click := Previous | Next.

(** A click on a disabled button fires no handler; otherwise the handler
    is [setPage(page - 1)] or [setPage(page + 1)]. *)
Definition on_click (total : Z) (page : Z) (c : click) : Z :=
  match c with
  | Previous => if previous_disabled page then page else page - 1
  | Next => if next_disabled page total then page else page + 1
  end.

Definition run_clicks (total : Z) (page : Z) (cs : list click) : Z :=
  fold_left (on_click total) cs page.

Definition page_in_range (total page : Z) : Prop :=
  1 <= page <= totalPages total.

End CryptoListPage.

(** ** JavaScript values, [parseFloat] and [split] *)

Module JS.

(** A JavaScript number.  A finite number is kept as the exact decimal
    value of its literal; the double is its rounding, which keeps the
    sign and maps zero to zero. *)
Inductive JSNum :=
| NaN
| Infinity (negative : bool)
| Finite (q : Q).

#[local] Unset Elimination Schemes.
Inductive JSValue :=
| JUndefined
| JNull
| JBool (b : bool)
| JNumber (n : JSNum)
| JString (s : string)
| JArray (items : list JSValue)
| JObject (fields : list (string * JSValue))
| JFunction (name : string).
#[local] Set Elimination Schemes.

(** An object literal: its own properties in insertion order. *)
Definition object := list (string * JSValue).

Fixpoint get_field (o : object) (k : string) : option JSValue :=
  match o with
  | [] => None
  | (k', v) :: rest => if String.eqb k k' then Some v else get_field rest k
  end.

Definition keys (o : object) : list string := map fst o.

(** [ToBoolean]. *)
Definition truthy (v : JSValue) : bool :=
  match v with
  | JUndefined | JNull => false
  | JBool b => b
  | JNumber NaN => false
  | JNumber (Infinity _) => true
  | JNumber (Finite q) => negb (Qeq_bool q 0)
  | JString s => negb (String.eqb s "")
  | JArray _ | JObject _ | JFunction _ => true
  end.

(** [!s] on a string. *)
Definition empty_string (s : string) : bool := String.eqb s "".

(** [v?.sub] on a value that [JSON.parse] returned: undefined on null,
    the own property of an object (undefined without one, for
    [Object.prototype] has no [sub]), and on a string the method
    [String.prototype.sub] that every string inherits.  Numbers, booleans
    and arrays have no such property. *)
Definition optional_sub (v : JSValue) : JSValue :=
  match v with
  | JObject fields => default JUndefined (get_field fields "sub")
  | JString _ => JFunction "String.prototype.sub"
  | _ => JUndefined
  end.

(** [a || b]. *)
Definition or_else (a b : JSValue) : JSValue := if truthy a then a else b.

(** [s.split(sep)] for a one-character separator. *)
Fixpoint split (sep : ascii) (s : string) : list string :=
  match s with
  | EmptyString => [EmptyString]
  | String c rest =>
      let parts := split sep rest in
      if Ascii.eqb c sep then EmptyString :: parts
      else match parts with
           | p :: ps => String c p :: ps
           | [] => [String c EmptyString]
           end
  end.

(** ** [parseFloat] *)

Definition is_digit (c : ascii) : bool :=
  let n := nat_of_ascii c in (48 <=? n)%nat && (n <=? 57)%nat.

(** Tab, line feed, vertical tab, form feed, carriage return, space. *)
Definition is_space (c : ascii) : bool :=
  let n := nat_of_ascii c in
  ((9 <=? n)%nat && (n <=? 13)%nat) || (n =? 32)%nat.

Fixpoint skip_spaces (s : string) : string :=
  match s with
  | String c rest => if is_space c then skip_spaces rest else s
  | EmptyString => s
  end.

(** The longest prefix of digits, and what follows it. *)
Fixpoint span_digits (s : string) : list ascii * string :=
  match s with
  | String c rest =>
      if is_digit c then
        let (ds, r) := span_digits rest in (c :: ds, r)
      else ([], s)
  | EmptyString => ([], s)
  end.

Definition digits_value (ds : list ascii) : Z :=
  fold_left (fun acc c => 10 * acc + (Z.of_nat (nat_of_ascii c) - 48)) ds 0.

Definition pow10 (e : Z) : Q :=
  if 0 <=? e then inject_Z (10 ^ e) else (/ inject_Z (10 ^ (- e)))%Q.

(** The value of an exponent part [e], [e+] or [e-] followed by digits at
    the head of [s]; 0 when there is none. *)
Definition exponent_of (s : string) : Z :=
  match s with
  | String c rest =>
      if Ascii.eqb c "e" || Ascii.eqb c "E" then
        let (sign, rest') :=
          match rest with
          | String "+" r => (1, r)
          | String "-" r => (-1, r)
          | _ => (1, rest)
          end in
        match span_digits rest' with
        | ([], _) => 0
        | (ds, _) => sign * digits_value ds
        end
      else 0
  | EmptyString => 0
  end.

(** The longest prefix that is an unsigned decimal literal. *)
Definition parse_unsigned (s : string) : JSNum :=
  if String.prefix "Infinity" s then Infinity false
  else
    let (ip, r) := span_digits s in
    match r with
    | String "." r1 =>
        let (fp, r2) := span_digits r1 in
        match ip, fp with
        | [], [] => NaN
        | _, _ =>
            Finite (inject_Z (digits_value (ip ++ fp))
                    * pow10 (exponent_of r2 - Z.of_nat (length fp)))%Q
        end
    | _ =>
        match ip with
        | [] => NaN
        | _ => Finite (inject_Z (digits_value ip) * pow10 (exponent_of r))%Q
        end
    end.

Definition negate (n : JSNum) : JSNum :=
  match n with
  | NaN => NaN
  | Infinity b => Infinity (negb b)
  | Finite q => Finite (- q)%Q
  end.

Definition parseFloat (s : string) : JSNum :=
  match skip_spaces s with
  | String "-" rest => negate (parse_unsigned rest)
  | String "+" rest => parse_unsigned rest
  | trimmed => parse_unsigned trimmed
  end.

(** [n > 0] *)
Definition positive (n : JSNum) : bool :=
  match n with
  | NaN => false
  | Infinity negative => negb negative
  | Finite q => negb (Qle_bool q 0)
  end.

End JS.

(** ** The trade submitters *)

Module Trade.
Import JS.

Definition API_URL : string := "http://localhost:8000".

(** The argument of [handleTrade]: the two call sites pass the literals
    ["buy"] and ["sell"]. *)
Inductive side := buy | sell.

(** [side.toUpperCase()] *)
Definition toUpperCase (s : side) : string :=
  match s with buy => "BUY" | sell => "SELL" end.

(** What one call of [handleTrade] does before it awaits the response:
    it shows an error message, or it posts [payload] to [url] with the
    header [Authorization: Bearer token]. *)
Inductive outcome :=
| ShowError (message : string)
| Post (url : string) (payload : object) (token : string).

(** [getUserIdFromToken], identical in both components.  [decode_segment]
    is [JSON.parse(atob(segment))] of the browser, [None] when it throws;
    [stored] is [localStorage.getItem("access_token")].  A token without a
    second segment passes [undefined] to [atob], which reads it as the
    string ["undefined"]. *)
Definition getUserIdFromToken (decode_segment : string -> option JSValue)
           (stored : option string) : JSValue :=
  match stored with
  | None => JNull
  | Some token =>
      if empty_string token then JNull
      else
        let segment := nth 1 (split "." token) "undefined" in
        match decode_segment segment with
        | None => JNull
        | Some claims => or_else (optional_sub claims) JNull
        end
  end.

(** [!user_id || !token] *)
Definition not_authenticated (user_id : JSValue) (stored : option string)
  : bool :=
  negb (truthy user_id)
  || match stored with None => true | Some t => empty_string t end.

(** The payload literal, the same in both components. *)
Definition make_payload (user_id : JSValue) (symbol : string) (s : side)
           (orderType amount price : string) : object :=
  [ ("user_id", user_id);
    ("symbol", JString symbol);
    ("side", JString (toUpperCase s));
    ("order_type", JString orderType);
    ("quantity", JNumber (parseFloat amount)) ]
  ++ (if String.eqb orderType "LIMIT"
      then [("price", JNumber (parseFloat price))] else []).

(** A browser whose only decodable segment is the base64 of
    [{"sub":"u1"}]. *)
Definition sample_decode (segment : string) : option JSValue :=
  if String.eqb segment "eyJzdWIiOiJ1MSJ9"
  then Some (JObject [("sub", JString "u1")]) else None.

Definition sample_token : string := "h.eyJzdWIiOiJ1MSJ9.s".

End Trade.

(** *** The widget of the detail page *)

Module BuySellTransferWidget.
Import JS Trade.

(** The [symbol] prop and the [useState] cells that [handleTrade] reads. *)
Record state := {
  symbol : string;
  orderType : string;
  buyAmount : string;
  buyPrice : string;
  sellAmount : string;
  sellPrice : string
}.

Definition handleTrade (decode_segment : string -> option JSValue)
           (stored : option string) (w : state) (s : side) : outcome :=
  let user_id := getUserIdFromToken decode_segment stored in
  if not_authenticated user_id stored then
    ShowError "User not authenticated."
  else
    let amount := match s with buy => buyAmount w | sell => sellAmount w end in
    let price := match s with buy => buyPrice w | sell => sellPrice w end in
    if empty_string amount
       || (String.eqb (orderType w) "LIMIT" && empty_string price)
    then ShowError "Please fill all required fields."
    else
      Post (API_URL ++ "/trade")
           (make_payload user_id (symbol w) s (orderType w) amount price)
           (default "" stored).

End BuySellTransferWidget.

(** *** The buy, sell and transfer page *)

Module BuySellTransferPage.
Import JS Trade.

(** The [useState] cells that [handleTrade] reads. *)
Record state := {
  selectedCrypto : string;
  orderType : string;
  tradeAmount : string;
  price : string
}.

Definition handleTrade (decode_segment : string -> option JSValue)
           (stored : option string) (p : state) (s : side) : outcome :=
  let user_id := getUserIdFromToken decode_segment stored in
  if not_authenticated user_id stored then
    ShowError "User not authenticated."
  else
    if empty_string (selectedCrypto p)
       || empty_string (tradeAmount p)
       || (String.eqb (orderType p) "LIMIT" && empty_string (price p))
    then ShowError "Please fill all required fields."
    else
      Post (API_URL ++ "/trade")
           (make_payload user_id (selectedCrypto p) s (orderType p)
                         (tradeAmount p) (price p))
           (default "" stored).

End BuySellTransferPage.

(** ** The trade-execution ledger

    The worker, the ledger store, the idempotency guard and the audit trail
    live in the Python backend, whose sources are not part of this tree; the
    definitions of this module follow the design specification. *)

Module Ledger.
Local Open Scope Q_scope.

(** Modelled from the spec: the side of a TradeRequest (backend models
    missing). *)
Inductive Side := BUY | SELL.

(** Modelled from the spec: the order type of a TradeRequest. *)
Inductive OrderType := MARKET | LIMIT.

(** Modelled from the spec: the status of an Order (section 3). *)
Inductive Status := QUEUED | PRICING | FILLED | OPEN | REJECTED | CANCELLED.

(** Modelled from the spec: the type of a CreditsHistory record. *)
Inductive HistoryType := DEPOSIT | WITHDRAW | TRADE_DEBIT | TRADE_CREDIT.

(** Modelled from the spec: the error taxonomy of section 7 that ends an
    order in REJECTED. *)
Inductive Rejection := ValidationError | InsufficientFunds | InsufficientHoldings.

(** Modelled from the spec: PortfolioEntry (section 3), keyed by
    [(user_id, symbol)]; amounts are exact decimals. *)
Record PortfolioEntry := {
  quantity : Q;
  avg_buy_price : Q;
  cost_basis_numerator : Q
}.

(** Modelled from the spec: the two document collections of the Ledger
    Store, PortfolioEntry by [(user_id, symbol)] and CreditsAccount balance
    by [user_id]. *)
Record Store := {
  portfolio : gmap (string * string) PortfolioEntry;
  credits : gmap string Q
}.

(** Modelled from the spec: the balance of a user; a user without a
    CreditsAccount document holds nothing. *)
Definition balance_of (c : gmap string Q) (u : string) : Q :=
  default 0 (c !! u).

(** Modelled from the spec: the quantity a user holds of a symbol; an
    absent entry is a holding of 0 (section 3). *)
Definition held (p : gmap (string * string) PortfolioEntry)
           (k : string * string) : Q :=
  match p !! k with Some e => quantity e | None => 0 end.

(** Modelled from the spec: the atomic decrement of a balance by [amount],
    conditioned on [balance >= amount] (section 4.4). *)
Definition credits_debit (u : string) (amount : Q) (c : gmap string Q)
  : option (gmap string Q) :=
  if Qle_bool amount (balance_of c u)
  then Some (<[u := balance_of c u - amount]> c)
  else None.

(** Modelled from the spec: the atomic increment of a balance. *)
Definition credits_credit (u : string) (amount : Q) (c : gmap string Q)
  : gmap string Q :=
  <[u := balance_of c u + amount]> c.

Section WithRounding.
(** Modelled from the spec: the fields are fixed-point decimals
    (section 3).  Sums, differences and products of decimals are decimals
    and are kept as they are; a quotient need not be one, and the field
    that stores it holds its rounding [quantize], whose scale and mode the
    design leaves to the implementation. *)
Variable quantize : Q -> Q.

(** Modelled from the spec: the BUY mutation of a PortfolioEntry
    (section 4.4): increment [quantity] by [q] and the numerator by
    [q * price], recompute the average in the same operation, and create
    the entry on first write with [quantity = q, avg_buy_price = price]. *)
Definition portfolio_buy (k : string * string) (q price : Q)
           (p : gmap (string * string) PortfolioEntry)
  : gmap (string * string) PortfolioEntry :=
  match p !! k with
  | None =>
      <[k := {| quantity := q;
                avg_buy_price := price;
                cost_basis_numerator := q * price |}]> p
  | Some e =>
      let quantity' := quantity e + q in
      let numerator' := cost_basis_numerator e + q * price in
      <[k := {| quantity := quantity';
                avg_buy_price := quantize (numerator' / quantity');
                cost_basis_numerator := numerator' |}]> p
  end.

(** Modelled from the spec: the SELL mutation of a PortfolioEntry
    (section 4.4): decrement [quantity] by [q], conditioned on
    [quantity >= q], leaving the average and the numerator as they are;
    the entry is deleted when the quantity reaches exactly 0. *)
Definition portfolio_sell (k : string * string) (q : Q)
           (p : gmap (string * string) PortfolioEntry)
  : option (gmap (string * string) PortfolioEntry) :=
  match p !! k with
  | None => None
  | Some e =>
      if Qle_bool q (quantity e) then
        let quantity' := quantity e - q in
        if Qeq_bool quantity' 0 then Some (delete k p)
        else Some (<[k := {| quantity := quantity';
                             avg_buy_price := avg_buy_price e;
                             cost_basis_numerator := cost_basis_numerator e |}]> p)
      else None
  end.

(** Modelled from the spec: the CreditsAccount invariant [balance >= 0]
    (section 3). *)
Definition balances_nonneg (c : gmap string Q) : Prop :=
  forall u, 0 <= balance_of c u.

(** Modelled from the spec: the PortfolioEntry invariant: an entry that
    exists holds a positive quantity (section 3). *)
Definition holdings_positive (p : gmap (string * string) PortfolioEntry)
  : Prop :=
  forall k e, p !! k = Some e -> 0 < quantity e.

Definition store_ok (s : Store) : Prop :=
  balances_nonneg (credits s) /\ holdings_positive (portfolio s).

(** Modelled from the spec: a BUY fill, quantity and price. *)
Definition fill : Type := Q * Q.

(** Modelled from the spec: a sequence of BUY fills applied in order to
    one [(user_id, symbol)]. *)
Definition buy_all (k : string * string) (fills : list fill)
           (p : gmap (string * string) PortfolioEntry)
  : gmap (string * string) PortfolioEntry :=
  fold_left (fun p f => portfolio_buy k (fst f) (snd f) p) fills p.

(** The sum of the quantities of a list of fills. *)
Definition total_quantity (fills : list fill) : Q :=
  fold_right (fun f acc => fst f + acc) 0 fills.

(** The sum of quantity times price of a list of fills. *)
Definition total_cost (fills : list fill) : Q :=
  fold_right (fun f acc => fst f * snd f + acc) 0 fills.

(** Modelled from the spec: a fill of one [(user_id, symbol)], a BUY of a
    quantity at a price or a SELL of a quantity. *)
Inductive Movement :=
| Bought (q price : Q)
| Sold (q : Q).

(** Modelled from the spec: BUY and SELL fills applied in order to one
    [(user_id, symbol)]; a SELL beyond the holding is refused and changes
    nothing. *)
Definition apply_movement (k : string * string)
           (p : gmap (string * string) PortfolioEntry) (m : Movement)
  : gmap (string * string) PortfolioEntry :=
  match m with
  | Bought q price => portfolio_buy k q price p
  | Sold q => default p (portfolio_sell k q p)
  end.

(** Modelled from the spec: the fills of one [(user_id, symbol)], one
    after the other. *)
Definition apply_movements (k : string * string) (ms : list Movement)
           (p : gmap (string * string) PortfolioEntry)
  : gmap (string * string) PortfolioEntry :=
  fold_left (apply_movement k) ms p.

(** The quantity bought, the quantity sold and the cost of what was
    bought, over a list of fills. *)
Definition bought (ms : list Movement) : Q :=
  fold_right (fun m acc => match m with
                           | Bought q _ => q + acc
                           | Sold _ => acc
                           end) 0 ms.

Definition sold (ms : list Movement) : Q :=
  fold_right (fun m acc => match m with
                           | Bought _ _ => acc
                           | Sold q => q + acc
                           end) 0 ms.

Definition cost (ms : list Movement) : Q :=
  fold_right (fun m acc => match m with
                           | Bought q price => q * price + acc
                           | Sold _ => acc
                           end) 0 ms.

(** Fills with positive quantities in which every SELL takes less than
    what is held at that moment, [holding] being held at the start: the
    entry, once created, is never deleted. *)
Fixpoint partial_sells (holding : Q) (ms : list Movement) : Prop :=
  match ms with
  | [] => True
  | Bought q _ :: rest => 0 < q /\ partial_sells (holding + q) rest
  | Sold q :: rest => 0 < q /\ q < holding /\ partial_sells (holding - q) rest
  end.

(** Modelled from the spec: one ledger operation handed to a worker. *)
Inductive Op :=
| OpBuy (u sym : string) (q price : Q)
| OpSell (u sym : string) (q price : Q)
| OpDeposit (u : string) (amount : Q)
| OpWithdraw (u : string) (amount : Q).

(** Modelled from the spec: how far a worker is with its operation.  Each
    mutation is a single-document atomic write and no transaction spans
    the two documents (section 4.4), so a BUY or a SELL has a state
    [Between] its two writes. *)
Inductive Phase :=
| Start
| Between
| Succeeded
| Failed (reason : Rejection).

(** Modelled from the spec: a worker of the pool with its operation. *)
Record Worker := { op : Op; phase : Phase }.

Section WithFee.
(** Modelled from the spec: the fee, a deterministic function of
    quantity and price (section 4.3); the schedule is configuration. *)
Variable fee : Q -> Q -> Q.

(** Modelled from the spec: funds a BUY requires, [q * price + fee]. *)
Definition buy_total (q price : Q) : Q := q * price + fee q price.

(** Modelled from the spec: what a SELL pays out, [q * price - fee]. *)
Definition sell_proceeds (q price : Q) : Q := q * price - fee q price.

(** Modelled from the spec: the next atomic write of a worker
    (section 4.4).  A BUY debits the credits under its condition and
    rejects before any mutation when it fails, then writes the
    portfolio; a SELL decrements the holding under its condition, then
    credits the proceeds.  A deposit is one increment, a withdrawal one
    conditional decrement.  [None]: the worker has finished. *)
Definition worker_step (w : Worker) (s : Store) : option (Worker * Store) :=
  match phase w, op w with
  | Start, OpBuy u sym q price =>
      match credits_debit u (buy_total q price) (credits s) with
      | Some c' =>
          Some ({| op := op w; phase := Between |},
                {| portfolio := portfolio s; credits := c' |})
      | None => Some ({| op := op w; phase := Failed InsufficientFunds |}, s)
      end
  | Between, OpBuy u sym q price =>
      Some ({| op := op w; phase := Succeeded |},
            {| portfolio := portfolio_buy (u, sym) q price (portfolio s);
               credits := credits s |})
  | Start, OpSell u sym q price =>
      match portfolio_sell (u, sym) q (portfolio s) with
      | Some p' =>
          Some ({| op := op w; phase := Between |},
                {| portfolio := p'; credits := credits s |})
      | None =>
          Some ({| op := op w; phase := Failed InsufficientHoldings |}, s)
      end
  | Between, OpSell u sym q price =>
      Some ({| op := op w; phase := Succeeded |},
            {| portfolio := portfolio s;
               credits := credits_credit u (sell_proceeds q price) (credits s) |})
  | Start, OpDeposit u amount =>
      Some ({| op := op w; phase := Succeeded |},
            {| portfolio := portfolio s;
               credits := credits_credit u amount (credits s) |})
  | Start, OpWithdraw u amount =>
      match credits_debit u amount (credits s) with
      | Some c' =>
          Some ({| op := op w; phase := Succeeded |},
                {| portfolio := portfolio s; credits := c' |})
      | None => Some ({| op := op w; phase := Failed InsufficientFunds |}, s)
      end
  | _, _ => None
  end.



(** The operations that the validation layer lets through: a BUY or a
    SELL has a positive quantity (section 6). *)
Definition positive_op (o : Op) : Prop :=
  match o with
  | OpBuy _ _ q _ | OpSell _ _ q _ => 0 < q
  | OpDeposit _ _ | OpWithdraw _ _ => True
  end.

(** The operations whose unconditional increment of the balance is not
    negative: a SELL whose fee does not exceed the amount traded, a
    deposit of a non-negative amount.  Nothing in the design makes an
    operation one of these. *)
Definition solvent_op (o : Op) : Prop :=
  match o with
  | OpSell _ _ q price => fee q price <= q * price
  | OpDeposit _ amount => 0 <= amount
  | OpBuy _ _ _ _ | OpWithdraw _ _ => True
  end.

(** The operations of a trade. *)
Definition trade_op (o : Op) : Prop :=
  match o with
  | OpBuy _ _ _ _ | OpSell _ _ _ _ => True
  | OpDeposit _ _ | OpWithdraw _ _ => False
  end.

(** The account an operation writes. *)
Definition account (o : Op) : string :=
  match o with
  | OpBuy u _ _ _ | OpSell u _ _ _ | OpDeposit u _ | OpWithdraw u _ => u
  end.

(** Whether the next write of a worker is the one on the CreditsAccount. *)
Definition writes_credits (w : Worker) : bool :=
  match phase w, op w with
  | Start, OpBuy _ _ _ _ | Between, OpSell _ _ _ _
  | Start, OpDeposit _ _ | Start, OpWithdraw _ _ => true
  | _, _ => false
  end.

(** Modelled from the spec: the runs of a fixed set of concurrent
    workers (section 5): any unfinished worker writes next. *)
Inductive workers_step : Store * list Worker -> Store * list Worker -> Prop :=
| workers_write (s s' : Store) (ws : list Worker) (i : nat) (w w' : Worker) :
    ws !! i = Some w ->
    worker_step w s = Some (w', s') ->
    workers_step (s, ws) (s', <[i := w']> ws).

Definition finished (w : Worker) : bool :=
  match phase w with
  | Start | Between => false
  | Succeeded | Failed _ => true
  end.

(** Atomic writes a worker still has to perform, at most. *)
Definition writes_left (w : Worker) : nat :=
  match phase w with
  | Start => 2
  | Between => 1
  | Succeeded | Failed _ => 0
  end.

Definition pool_writes_left (ws : list Worker) : nat :=
  list_sum (map writes_left ws).

(** 1 for a worker whose debit has gone through. *)
Definition debited (w : Worker) : nat :=
  match phase w with
  | Between | Succeeded => 1%nat
  | Start | Failed _ => 0%nat
  end.

(** 1 for a worker whose operation is complete. *)
Definition completed (w : Worker) : nat :=
  match phase w with
  | Succeeded => 1%nat
  | _ => 0%nat
  end.

(** [n] workers, each about to process the same operation. *)
Definition workers_for (o : Op) (n : nat) : list Worker :=
  replicate n {| op := o; phase := Start |}.

(** The state of [n] concurrent BUYs of quantity [q] at [price] by [u]:
    nobody has failed, the balance is down by one total per debit that
    went through, and the holding is up by [q] per completed BUY. *)
Definition buys_in_flight (u sym : string) (q price : Q) (n : nat)
           (s0 : Store) (st : Store * list Worker) : Prop :=
  let (s, ws) := st in
  length ws = n
  /\ Forall (fun w => op w = OpBuy u sym q price
                      /\ forall reason, phase w <> Failed reason) ws
  /\ balance_of (credits s) u
     == balance_of (credits s0) u
        - inject_Z (Z.of_nat (list_sum (map debited ws)))
          * buy_total q price
  /\ held (portfolio s) (u, sym)
     == held (portfolio s0) (u, sym)
        + inject_Z (Z.of_nat (list_sum (map completed ws))) * q.

End WithFee.

End WithRounding.

(** Modelled from the spec: the ledger before any account or entry
    exists. *)
Definition empty_store : Store := {| portfolio := ∅; credits := ∅ |}.

(** A field of eight decimals that rounds half up. *)
Definition sample_quantize (x : Q) : Q :=
  Qfloor (x * 100000000 + (1 # 2)) # 100000000.

End Ledger.

(** ** The order pipeline: idempotency guard, order state machine, audit trail *)

Module Pipeline.
Import Ledger.
Local Open Scope Q_scope.

(** Modelled from the spec: TradeRequest (section 3). *)
Record TradeRequest := {
  idempotency_key : string;
  user_id : string;
  symbol : string;
  side : Side;
  order_type : OrderType;
  req_quantity : Q;
  limit_price : option Q
}.

(** Modelled from the spec: Order (section 3), stored under its id. *)
Record Order := {
  trade_request : TradeRequest;
  status : Status;
  fill_price : option Q;
  rejection_reason : option Rejection
}.

(** Modelled from the spec: Transaction (section 3), append-only. *)
Record Transaction := {
  order_id : nat;
  tx_user : string;
  tx_symbol : string;
  tx_side : Side;
  tx_quantity : Q;
  tx_price : Q;
  tx_fee : Q;
  tx_total : Q
}.

(** Modelled from the spec: CreditsHistory (section 3), append-only. *)
Record CreditsHistory := {
  h_user : string;
  h_type : HistoryType;
  amount : Q;
  balance_after : Q;
  ref_order_id : option nat
}.

(** Modelled from the spec: OrderResult (section 6). *)
Record OrderResult := {
  result_order_id : nat;
  result_status : Status;
  result_fill_price : option Q;
  result_rejection : option Rejection
}.

(** Modelled from the spec: everything the worker persists: the ledger
    store, the orders, the idempotency guard (key to order id) and the two
    append-only feeds, oldest record first. *)
Record System := {
  store : Store;
  orders : gmap nat Order;
  guard : gmap string nat;
  next_order_id : nat;
  transactions : list Transaction;
  history : list CreditsHistory
}.

(** Modelled from the spec: the system before any request. *)
Definition initial : System :=
  {| store := empty_store; orders := ∅; guard := ∅; next_order_id := 0;
     transactions := []; history := [] |}.

(** Modelled from the spec: terminal states (section 4.2). *)
Definition terminal (st : Status) : bool :=
  match st with
  | FILLED | REJECTED | CANCELLED => true
  | QUEUED | PRICING | OPEN => false
  end.

(** Modelled from the spec: the answer of the Idempotency Guard
    (section 4.1); [Registered] is its answer for a key it accepts for the
    first time. *)
Inductive Admission :=
| Registered (oid : nat)
| AlreadyProcessing (oid : nat)
| AlreadyCompleted (oid : nat) (o : Order).

(** Modelled from the spec: the admission operation of the Idempotency
    Guard (section 4.1): insert-if-absent of the key, pointing at a new
    QUEUED Order; an existing key answers with its Order. *)
Definition guard_check (r : TradeRequest) (sys : System) : Admission * System :=
  match guard sys !! idempotency_key r with
  | None =>
      let oid := next_order_id sys in
      (Registered oid,
       {| store := store sys;
          orders := <[oid := {| trade_request := r; status := QUEUED;
                                fill_price := None;
                                rejection_reason := None |}]> (orders sys);
          guard := <[idempotency_key r := oid]> (guard sys);
          next_order_id := S oid;
          transactions := transactions sys;
          history := history sys |})
  | Some oid =>
      match orders sys !! oid with
      | Some o =>
          if terminal (status o) then (AlreadyCompleted oid o, sys)
          else (AlreadyProcessing oid, sys)
      | None => (AlreadyProcessing oid, sys)
      end
  end.

(** Modelled from the spec: the OrderResult stored with an Order. *)
Definition result_of (oid : nat) (o : Order) : OrderResult :=
  {| result_order_id := oid; result_status := status o;
     result_fill_price := fill_price o;
     result_rejection := rejection_reason o |}.

(** Modelled from the spec: input validation by the worker: a positive
    quantity, and a limit price on a LIMIT order. *)
Definition valid_request (r : TradeRequest) : bool :=
  negb (Qle_bool (req_quantity r) 0)
  && match order_type r, limit_price r with
     | LIMIT, None => false
     | _, _ => true
     end.

(** Modelled from the spec: the price part of the fill condition
    (section 4.2): a MARKET order always, a LIMIT BUY when the resolved
    price is at most the limit, a LIMIT SELL when it is at least the
    limit. *)
Definition price_crossed (r : TradeRequest) (price : Q) : bool :=
  match order_type r, limit_price r with
  | MARKET, _ => true
  | LIMIT, Some l =>
      match side r with
      | BUY => Qle_bool price l
      | SELL => Qle_bool l price
      end
  | LIMIT, None => false
  end.

(** Modelled from the spec: the ledger mutation a request asks for at
    the resolved price. *)
Definition op_of_request (r : TradeRequest) (price : Q) : Op :=
  match side r with
  | BUY => OpBuy (user_id r) (symbol r) (req_quantity r) price
  | SELL => OpSell (user_id r) (symbol r) (req_quantity r) price
  end.

(** Modelled from the spec: persisting the status of an Order; nothing
    else is written. *)
Definition set_order (oid : nat) (o : Order) (sys : System) : System :=
  {| store := store sys; orders := <[oid := o]> (orders sys);
     guard := guard sys; next_order_id := next_order_id sys;
     transactions := transactions sys; history := history sys |}.

(** Modelled from the spec: one atomic write of the Ledger Store; the
    documents of the pipeline stay as they are. *)
Definition set_store (st : Store) (sys : System) : System :=
  {| store := st; orders := orders sys; guard := guard sys;
     next_order_id := next_order_id sys;
     transactions := transactions sys; history := history sys |}.

(** Modelled from the spec: an Order moved to another status. *)
Definition with_status (o : Order) (st : Status) : Order :=
  {| trade_request := trade_request o; status := st;
     fill_price := fill_price o; rejection_reason := rejection_reason o |}.

(** Modelled from the spec: an Order marked REJECTED with its reason. *)
Definition rejected (o : Order) (reason : Rejection) : Order :=
  {| trade_request := trade_request o; status := REJECTED;
     fill_price := None; rejection_reason := Some reason |}.

(** Modelled from the spec: an Order marked FILLED at a price. *)
Definition filled_at (o : Order) (price : Q) : Order :=
  {| trade_request := trade_request o; status := FILLED;
     fill_price := Some price; rejection_reason := None |}.

(** The Transactions of an Order, and the CreditsHistory records that
    refer to it. *)
Definition transactions_of (oid : nat) (ts : list Transaction)
  : list Transaction :=
  filter (fun t => order_id t = oid) ts.

Definition history_of_order (oid : nat) (hs : list CreditsHistory)
  : list CreditsHistory :=
  filter (fun h => ref_order_id h = Some oid) hs.

(** Modelled from the spec: where a worker is with the request it took
    from the queue (section 4.3), or with a deposit or a withdrawal.
    Between two of its steps the worker holds nothing but what its
    stage names: the price the resolver gave it, the Order it works on,
    the ledger operation with the writes it has done, and the balance it
    read back from its write of the CreditsAccount ([seen], 0 before that
    write). *)
Inductive Job :=
| Admitting (r : TradeRequest) (price : Q)
| Claiming (oid : nat) (price : Q)
| Deciding (oid : nat) (price : Q)
| Mutating (oid : option nat) (w : Worker) (seen : Q)
| AppendingTransaction (oid : nat) (o : Op) (seen : Q)
| AppendingHistory (oid : option nat) (o : Op) (seen : Q)
| Returned (completed : bool) (result : option OrderResult)
| Crashed.

(** Modelled from the spec: what a worker is handed: a delivery of the
    queue with the price the resolver returns for it, a deposit or a
    withdrawal. *)
Inductive Task :=
| Process (r : TradeRequest) (price : Q)
| Deposit (u : string) (a : Q)
| Withdraw (u : string) (a : Q).

(** Modelled from the spec: the worker that takes a task: a delivery
    goes to the Idempotency Guard first; a deposit or a withdrawal is one
    write of the CreditsAccount. *)
Definition start (t : Task) : Job :=
  match t with
  | Process r price => Admitting r price
  | Deposit u a => Mutating None {| op := OpDeposit u a; phase := Start |} 0
  | Withdraw u a => Mutating None {| op := OpWithdraw u a; phase := Start |} 0
  end.

(** A worker that has neither returned nor died. *)
Definition unfinished (j : Job) : bool :=
  match j with
  | Returned _ _ | Crashed => false
  | _ => true
  end.


(** Modelled from the spec: a cancel request, the conditional
    transition OPEN to CANCELLED, a no-op on any other status
    (section 5). *)
Definition cancel (key : string) (sys : System) : System :=
  match guard sys !! key with
  | None => sys
  | Some oid =>
      match orders sys !! oid with
      | Some o =>
          match status o with
          | OPEN =>
              set_order oid {| trade_request := trade_request o;
                               status := CANCELLED; fill_price := None;
                               rejection_reason := None |} sys
          | _ => sys
          end
      | None => sys
      end
  end.

Section WithFee.
Variable quantize : Q -> Q.
Variable fee : Q -> Q -> Q.

(** Modelled from the spec: the fill condition of section 4.2: the
    price condition, and the holding that covers a SELL or the credits
    that cover the funds a BUY requires. *)
Definition fill_condition (r : TradeRequest) (price : Q) (st : Store)
  : bool :=
  price_crossed r price
  && match side r with
     | BUY =>
         Qle_bool (buy_total fee (req_quantity r) price)
                  (balance_of (credits st) (user_id r))
     | SELL =>
         Qle_bool (req_quantity r)
                  (held (portfolio st) (user_id r, symbol r))
     end.

(** Modelled from the spec: the Transaction of a fill (section 3). *)
Definition transaction_of_fill (oid : nat) (o : Op) : option Transaction :=
  match o with
  | OpBuy u sym q price =>
      Some {| order_id := oid; tx_user := u; tx_symbol := sym;
              tx_side := BUY; tx_quantity := q; tx_price := price;
              tx_fee := fee q price; tx_total := buy_total fee q price |}
  | OpSell u sym q price =>
      Some {| order_id := oid; tx_user := u; tx_symbol := sym;
              tx_side := SELL; tx_quantity := q; tx_price := price;
              tx_fee := fee q price; tx_total := sell_proceeds fee q price |}
  | OpDeposit _ _ | OpWithdraw _ _ => None
  end.

(** Modelled from the spec: the CreditsHistory record of a write of the
    CreditsAccount, [balance_after] being the balance the worker read
    back from that write (section 4.5). *)
Definition history_of_write (oid : option nat) (o : Op) (seen : Q)
  : CreditsHistory :=
  match o with
  | OpBuy u _ q price =>
      {| h_user := u; h_type := TRADE_DEBIT;
         amount := buy_total fee q price;
         balance_after := seen; ref_order_id := oid |}
  | OpSell u _ q price =>
      {| h_user := u; h_type := TRADE_CREDIT;
         amount := sell_proceeds fee q price;
         balance_after := seen; ref_order_id := oid |}
  | OpDeposit u a =>
      {| h_user := u; h_type := DEPOSIT; amount := a;
         balance_after := seen; ref_order_id := oid |}
  | OpWithdraw u a =>
      {| h_user := u; h_type := WITHDRAW; amount := a;
         balance_after := seen; ref_order_id := oid |}
  end.

(** Modelled from the spec: the Audit Trail Writer (section 4.5).  Its
    writes are keyed by the order id, so that a second attempt for the
    same Order is a no-op (section 7). *)
Definition append_transaction (oid : nat) (o : Op) (sys : System) : System :=
  match transactions_of oid (transactions sys), transaction_of_fill oid o with
  | [], Some t =>
      {| store := store sys; orders := orders sys; guard := guard sys;
         next_order_id := next_order_id sys;
         transactions := transactions sys ++ [t];
         history := history sys |}
  | _, _ => sys
  end.

(** Modelled from the spec: the append to the CreditsHistory feed. *)
Definition push_history (h : CreditsHistory) (sys : System) : System :=
  {| store := store sys; orders := orders sys; guard := guard sys;
     next_order_id := next_order_id sys;
     transactions := transactions sys;
     history := history sys ++ [h] |}.

(** Modelled from the spec: the CreditsHistory record of a write; the
    record of a trade is keyed by its order id like its Transaction, the
    record of a deposit or a withdrawal refers to no Order. *)
Definition append_history (oid : option nat) (o : Op) (seen : Q)
           (sys : System) : System :=
  match oid with
  | Some id =>
      match history_of_order id (history sys) with
      | [] => push_history (history_of_write oid o seen) sys
      | _ => sys
      end
  | None => push_history (history_of_write oid o seen) sys
  end.

(** Modelled from the spec: a worker persists the status [o] of its
    Order and returns it as the OrderResult. *)
Definition settle (oid : nat) (o : Order) (sys : System) : Job * System :=
  (Returned false (Some (result_of oid o)), set_order oid o sys).

(** Modelled from the spec: the next step of a worker, one atomic
    operation on one document (sections 4.1 to 4.5); [None]: the worker
    has returned.
    - [Admitting]: the guard inserts the key if absent and creates the
      QUEUED Order; for a key it knows it answers with the stored result
      of a terminal Order, and otherwise the worker resumes from the
      status of the Order.
    - [Claiming]: QUEUED or OPEN becomes PRICING; an Order found in
      PRICING is evaluated from there.
    - [Deciding]: the compare-and-set on the status of an Order in
      PRICING: REJECTED on invalid input, FILLED when the fill condition
      holds, and otherwise OPEN for a LIMIT and REJECTED for a MARKET
      order.  A worker that does not find the Order in PRICING has lost
      the race and does nothing.
    - [Mutating]: the two writes of section 4.4, by the worker whose
      transition to FILLED succeeded; when the condition of the first
      one fails nothing is written and the Order is rejected.
    - [AppendingTransaction], [AppendingHistory]: the audit trail. *)
Definition advance (j : Job) (sys : System) : option (Job * System) :=
  match j with
  | Admitting r price =>
      match guard_check r sys with
      | (Registered oid, sys') | (AlreadyProcessing oid, sys') =>
          Some (Claiming oid price, sys')
      | (AlreadyCompleted oid o, sys') =>
          Some (Returned false (Some (result_of oid o)), sys')
      end
  | Claiming oid price =>
      match orders sys !! oid with
      | Some o =>
          match status o with
          | QUEUED | OPEN =>
              Some (Deciding oid price,
                    set_order oid (with_status o PRICING) sys)
          | PRICING => Some (Deciding oid price, sys)
          | FILLED | REJECTED | CANCELLED =>
              Some (Returned false (Some (result_of oid o)), sys)
          end
      | None => Some (Returned false None, sys)
      end
  | Deciding oid price =>
      match orders sys !! oid with
      | Some o =>
          match status o with
          | PRICING =>
              let r := trade_request o in
              if negb (valid_request r) then
                Some (settle oid (rejected o ValidationError) sys)
              else if fill_condition r price (store sys) then
                Some (Mutating (Some oid)
                               {| op := op_of_request r price;
                                  phase := Start |} 0,
                      set_order oid (filled_at o price) sys)
              else
                match order_type r with
                | LIMIT => Some (settle oid (with_status o OPEN) sys)
                | MARKET =>
                    Some (settle oid
                            (rejected o match side r with
                                        | BUY => InsufficientFunds
                                        | SELL => InsufficientHoldings
                                        end) sys)
                end
          | _ => Some (Returned false (Some (result_of oid o)), sys)
          end
      | None => Some (Returned false None, sys)
      end
  | Mutating oid w seen =>
      match worker_step quantize fee w (store sys) with
      | Some (w', st') =>
          let seen' :=
            if writes_credits w
            then balance_of (credits st') (account (op w)) else seen in
          let sys' := set_store st' sys in
          match phase w' with
          | Failed reason =>
              match oid with
              | Some id =>
                  match orders sys !! id with
                  | Some o => Some (settle id (rejected o reason) sys')
                  | None => Some (Returned false None, sys')
                  end
              | None => Some (Returned false None, sys')
              end
          | Succeeded =>
              match oid with
              | Some id => Some (AppendingTransaction id (op w) seen', sys')
              | None => Some (AppendingHistory None (op w) seen', sys')
              end
          | Start | Between => Some (Mutating oid w' seen', sys')
          end
      | None => Some (Returned false None, sys)
      end
  | AppendingTransaction oid o seen =>
      Some (AppendingHistory (Some oid) o seen, append_transaction oid o sys)
  | AppendingHistory oid o seen =>
      Some (Returned true
              match oid with
              | Some id => result_of id <$> orders sys !! id
              | None => None
              end,
            append_history oid o seen sys)
  | Returned _ _ | Crashed => None
  end.

(** Modelled from the spec: the reconciliation pass (section 7) on one
    Order: for a FILLED Order it completes the audit records that are
    missing, with the balance it has determined for the record. *)
Definition reconcile (oid : nat) (balance : Q) (sys : System) : System :=
  match orders sys !! oid with
  | Some o =>
      match status o, fill_price o with
      | FILLED, Some price =>
          let o' := op_of_request (trade_request o) price in
          append_history (Some oid) o' balance (append_transaction oid o' sys)
      | _, _ => sys
      end
  | None => sys
  end.

(** Modelled from the spec: what can happen next in the worker pool
    (section 5): a worker takes a delivery of the queue (at least once,
    in any order), a deposit or a withdrawal; a worker performs its next
    step; a worker dies; a cancel request arrives; the reconciliation
    pass visits an Order. *)
Inductive Action :=
| Arrive (t : Task)
| Advance (i : nat)
| Crash (i : nat)
| Cancel (key : string)
| Reconcile (oid : nat) (balance : Q).

(** Modelled from the spec: the effect of what happens next on the
    persisted state and on the workers of the pool.  A worker that dies
    leaves what it has written. *)
Definition perform (st : System * list Job) (a : Action)
  : System * list Job :=
  match a with
  | Arrive t => (fst st, snd st ++ [start t])
  | Advance i =>
      match snd st !! i with
      | Some j =>
          match advance j (fst st) with
          | Some (j', sys') => (sys', <[i := j']> (snd st))
          | None => st
          end
      | None => st
      end
  | Crash i =>
      match snd st !! i with
      | Some j =>
          if unfinished j then (fst st, <[i := Crashed]> (snd st)) else st
      | None => st
      end
  | Cancel key => (cancel key (fst st), snd st)
  | Reconcile oid balance => (reconcile oid balance (fst st), snd st)
  end.

(** Modelled from the spec: a run of the pool, every interleaving of
    the steps of its workers being one. *)
Definition interleave (actions : list Action) (st : System * list Job)
  : System * list Job :=
  fold_left perform actions st.

(** Modelled from the spec: a worker that performs its steps one after
    the other, undisturbed, until it returns. *)
Fixpoint complete (fuel : nat) (j : Job) (sys : System) : Job * System :=
  match fuel with
  | O => (j, sys)
  | S fuel' =>
      match advance j sys with
      | Some (j', sys') => complete fuel' j' sys'
      | None => (j, sys)
      end
  end.

(** Modelled from the spec: a task carried out from the first step of
    its worker to the last, no worker having more than seven. *)
Definition carry_out (t : Task) (sys : System) : Job * System :=
  complete 7 (start t) sys.

(** Modelled from the spec: [process] of the worker (section 4.3), run
    alone. *)
Definition process (r : TradeRequest) (price : Q) (sys : System)
  : option OrderResult * System :=
  match carry_out (Process r price) sys with
  | (Returned _ result, sys') => (result, sys')
  | (_, sys') => (None, sys')
  end.

(** Modelled from the spec: what reaches the system when every
    operation is carried out before the next one starts. *)
Inductive Event :=
| Submit (t : Task)
| CancelRequest (key : string).



(** The schedule of the pool that carries out [events] one at a time,
    [n] workers having been started before. *)
Fixpoint schedule_of (n : nat) (events : list Event) : list Action :=
  match events with
  | [] => []
  | Submit t :: rest =>
      Arrive t :: replicate 7 (Advance n) ++ schedule_of (S n) rest
  | CancelRequest key :: rest => Cancel key :: schedule_of n rest
  end.

End WithFee.

Arguments Deposit u a%_Q.
Arguments Withdraw u a%_Q.

(** Arrivals with a price that is not negative, and deposits of an amount
    that is not negative. *)
Definition solvent_action (a : Action) : Prop :=
  match a with
  | Arrive (Process _ price) => 0 <= price
  | Arrive (Deposit _ amount) => 0 <= amount
  | _ => True
  end.

(** *** Replay of the credits history *)







(** *** Invariants of the guard and of the audit trail *)

(** The guard and the orders describe each other: a registered key points
    at an Order of that key, and every Order is the one its key points
    at; order ids are handed out in sequence. *)
Definition keys_ok (os : gmap nat Order) (g : gmap string nat) (next : nat)
  : Prop :=
  (forall k oid, g !! k = Some oid ->
                 exists o, os !! oid = Some o
                           /\ idempotency_key (trade_request o) = k)
  /\ (forall oid o, os !! oid = Some o ->
                    g !! idempotency_key (trade_request o) = Some oid
                    /\ (oid < next)%nat).

(** No Order has more than one Transaction or more than one
    CreditsHistory record. *)
Definition audit_once (sys : System) : Prop :=
  forall oid,
    (length (transactions_of oid (transactions sys)) <= 1)%nat
    /\ (length (history_of_order oid (history sys)) <= 1)%nat.

(** What a step may do to the audit trail: append one Transaction of an
    Order that has none, and one CreditsHistory record that refers to no
    Order or to an Order that has none. *)
Definition audit_extends (sys sys' : System) : Prop :=
  (transactions sys' = transactions sys
   \/ exists t,
        transactions_of (order_id t) (transactions sys) = []
        /\ transactions sys' = transactions sys ++ [t])
  /\ (history sys' = history sys
      \/ exists h,
           (forall oid, ref_order_id h = Some oid ->
                        history_of_order oid (history sys) = [])
           /\ history sys' = history sys ++ [h]).

(** An Order has exactly one Transaction and one CreditsHistory record. *)
Definition audited (oid : nat) (sys : System) : Prop :=
  length (transactions_of oid (transactions sys)) = 1%nat
  /\ length (history_of_order oid (history sys)) = 1%nat.

(** What the pool knows of its workers: a worker about to write the
    ledger for an Order works on a positive quantity; a worker that
    appends the CreditsHistory of an Order has its Transaction behind it,
    and a worker that has completed the pipeline of an Order has left
    both records. *)
Definition job_ok (sys : System) (j : Job) : Prop :=
  match j with
  | Mutating oid w _ => positive_op (op w) /\ (is_Some oid -> trade_op (op w))
  | AppendingTransaction _ o _ => trade_op o
  | AppendingHistory (Some oid) _ _ =>
      length (transactions_of oid (transactions sys)) = 1%nat
  | Returned true (Some result) => audited (result_order_id result) sys
  | _ => True
  end.

Definition pool_ok (st : System * list Job) : Prop :=
  keys_ok (orders (fst st)) (guard (fst st)) (next_order_id (fst st))
  /\ audit_once (fst st)
  /\ holdings_positive (portfolio (store (fst st)))
  /\ Forall (job_ok (fst st)) (snd st).

(** What keeps the balances from going below zero: no worker holds a
    negative price or an operation that is not solvent. *)
Definition job_solvent (fee : Q -> Q -> Q) (j : Job) : Prop :=
  match j with
  | Admitting _ price | Claiming _ price | Deciding _ price => 0 <= price
  | Mutating _ w _ => solvent_op fee (op w)
  | _ => True
  end.

(** In a run that carries out one operation at a time, audit records
    refer to Orders that are FILLED. *)
Definition audit_refs (sys : System) : Prop :=
  forall oid,
    (transactions_of oid (transactions sys) <> []
     \/ history_of_order oid (history sys) <> []) ->
    exists o, orders sys !! oid = Some o /\ status o = FILLED.


(** A fee of 0.1 percent of the amount traded, and a flat fee of 1. *)
Definition sample_fee (q price : Q) : Q := (1 # 1000) * (q * price).

Definition flat_fee (q price : Q) : Q := 1.

End Pipeline.

(** ** The other handlers of the buy, sell and transfer page *)

Module PageActions.
Import JS Trade.

(** The text interpolated into [`Bearer ${token}`]: a missing token reads
    ["null"]. *)
Definition bearer_text (stored : option string) : string :=
  default "null" stored.

(** The body of [handleAddToCart] up to its request. *)
Definition handleAddToCart (stored : option string)
           (p : BuySellTransferPage.state) : outcome :=
  if empty_string (BuySellTransferPage.selectedCrypto p)
     || empty_string (BuySellTransferPage.tradeAmount p)
     || (String.eqb (BuySellTransferPage.orderType p) "LIMIT"
         && empty_string (BuySellTransferPage.price p))
  then ShowError "Please fill all required fields."
  else
    Post (API_URL ++ "/cart/add")
         ([ ("symbol", JString (BuySellTransferPage.selectedCrypto p));
            ("quantity",
             JNumber (parseFloat (BuySellTransferPage.tradeAmount p)));
            ("order_type", JString (BuySellTransferPage.orderType p)) ]
          ++ (if String.eqb (BuySellTransferPage.orderType p) "LIMIT"
              then [("price",
                     JNumber (parseFloat (BuySellTransferPage.price p)))]
              else []))
         (bearer_text stored).

(** The body of [handleCartCheckout] up to its request: an empty body. *)
Definition handleCartCheckout (decode_segment : string -> option JSValue)
           (stored : option string) : outcome :=
  let user_id := getUserIdFromToken decode_segment stored in
  if not_authenticated user_id stored then
    ShowError "User not authenticated."
  else Post (API_URL ++ "/cart/checkout") [] (bearer_text stored).

(** The transfer form. *)
Record transfer_form := {
  recipientUsername : string;
  transferSymbol : string;
  transferAmount : string
}.

(** The body of [handleTransfer] up to its request; [toUpperCase] is the
    string method of the browser. *)
Definition handleTransfer (toUpperCase : string -> string)
           (stored : option string) (f : transfer_form) : outcome :=
  if empty_string (recipientUsername f)
     || empty_string (transferSymbol f)
     || empty_string (transferAmount f)
  then ShowError "Please fill all fields."
  else
    Post (API_URL ++ "/transfer")
         [ ("to_username", JString (recipientUsername f));
           ("symbol", JString (toUpperCase (transferSymbol f)));
           ("amount", JNumber (parseFloat (transferAmount f))) ]
         (bearer_text stored).

End PageActions.

(** ** What [handleTrade] does with the answer of the server *)

Module TradeResponse.
Import JS Trade.

(** The answer to the request: a success carries [response.data], the
    body of the answer as axios decoded it; a failure carries
    [err?.response?.data?.detail] ([JUndefined] when the error has
    none). *)
Inductive response :=
| Accepted (data : JSValue)
| Refused (detail : JSValue).

(** The message line under the form. *)
Record notice := { message : JSValue; messageType : string }.

(** [`${side} order failed.`] *)
Definition failed_text (s : side) : string :=
  match s with buy => "buy order failed." | sell => "sell order failed." end.

(** [response.data.message]: reading a property of [null] or [undefined]
    throws a [TypeError] ([None]); an object gives its own property; the
    other values have no [message]. *)
Definition read_message (data : JSValue) : option JSValue :=
  match data with
  | JNull | JUndefined => None
  | JObject fields => Some (default JUndefined (get_field fields "message"))
  | _ => Some JUndefined
  end.

(** The widget with the fields of the submitted side emptied. *)
Definition widget_cleared (w : BuySellTransferWidget.state) (s : side)
  : BuySellTransferWidget.state :=
  match s with
  | buy =>
      {| BuySellTransferWidget.symbol := BuySellTransferWidget.symbol w;
         BuySellTransferWidget.orderType :=
           BuySellTransferWidget.orderType w;
         BuySellTransferWidget.buyAmount := "";
         BuySellTransferWidget.buyPrice := "";
         BuySellTransferWidget.sellAmount :=
           BuySellTransferWidget.sellAmount w;
         BuySellTransferWidget.sellPrice :=
           BuySellTransferWidget.sellPrice w |}
  | sell =>
      {| BuySellTransferWidget.symbol := BuySellTransferWidget.symbol w;
         BuySellTransferWidget.orderType :=
           BuySellTransferWidget.orderType w;
         BuySellTransferWidget.buyAmount :=
           BuySellTransferWidget.buyAmount w;
         BuySellTransferWidget.buyPrice :=
           BuySellTransferWidget.buyPrice w;
         BuySellTransferWidget.sellAmount := "";
         BuySellTransferWidget.sellPrice := "" |}
  end.

(** The widget: on success [response.data.message] is read inside the
    [try], before the fields of the submitted side are cleared: when the
    read throws, the [catch] runs with an error that has no [response], the
    fallback text is shown and the fields stay.  On failure only the
    message changes. *)
Definition widget_settle (w : BuySellTransferWidget.state) (s : side)
           (r : response) : BuySellTransferWidget.state * notice :=
  match r with
  | Accepted data =>
      match read_message data with
      | Some msg =>
          (widget_cleared w s,
           {| message := msg; messageType := "success" |})
      | None =>
          (w, {| message := JString (failed_text s);
                 messageType := "error" |})
      end
  | Refused detail =>
      (w, {| message := or_else detail (JString (failed_text s));
             messageType := "error" |})
  end.

(** The page: it does not read the answer; on success its own message is
    shown and amount and price are cleared, the selected symbol stays; on
    failure only the message changes. *)
Definition page_settle (p : BuySellTransferPage.state) (s : side)
           (r : response) : BuySellTransferPage.state * notice :=
  match r with
  | Accepted _ =>
      ({| BuySellTransferPage.selectedCrypto :=
            BuySellTransferPage.selectedCrypto p;
          BuySellTransferPage.orderType := BuySellTransferPage.orderType p;
          BuySellTransferPage.tradeAmount := "";
          BuySellTransferPage.price := "" |},
       {| message := JString (toUpperCase s ++ " order successful!");
          messageType := "success" |})
  | Refused detail =>
      (p, {| message := or_else detail (JString (failed_text s));
             messageType := "error" |})
  end.

(** The submit button of the widget: [disabled={!amount}]. *)
Definition submit_disabled (w : BuySellTransferWidget.state) (s : side)
  : bool :=
  empty_string (match s with
                | buy => BuySellTransferWidget.buyAmount w
                | sell => BuySellTransferWidget.sellAmount w
                end).

Definition other (s : side) : side :=
  match s with buy => sell | sell => buy end.

End TradeResponse.

(** ** Data handling of the crypto list page *)

Module CryptoListData.
Import JS CryptoListPage.

(** [fetchCryptos]: [skip = (pageNum - 1) * pageSize], sent with
    [limit: pageSize]. *)
Definition skip (pageNum : Z) : Z := (pageNum - 1) * pageSize.

(** The first table cell of a row: [(page - 1) * pageSize + index + 1]. *)
Definition row_number (page index : Z) : Z :=
  (page - 1) * pageSize + index + 1.

(** The search box: [setPage(1); setSearch(e.target.value)]. *)
Definition on_search (page : Z) (search value : string) : Z * string :=
  (1, value).

Definition popularSymbols : list string :=
  ["BTCUSDT"; "ETHUSDT"; "BNBUSDT"; "XRPUSDT"; "SOLUSDT"].

(** An item of the [/cryptos] answer. *)
Record crypto := { symbol : string; base_asset : string }.

(** [popularSymbols.includes(s)] *)
Definition includes (l : list string) (s : string) : bool :=
  existsb (String.eqb s) l.

(** [fetchPopularCoins]: the items whose symbol is a popular one. *)
Definition fetchPopularCoins (items : list crypto) : list crypto :=
  List.filter (fun item => includes popularSymbols (symbol item)) items.

(** The Popular section: one slot per popular symbol, in that order, with
    the first coin of that symbol ([null] when none). *)
Definition popular_cards (popularCoins : list crypto) : list (option crypto) :=
  map (fun sym => List.find (fun c => String.eqb (symbol c) sym) popularCoins)
      popularSymbols.

Section WithBrowser.
(** [JSON.parse] of the browser, [None] when it throws, and the conversion
    of a computed property key to its string. *)
Variable json_parse : string -> option JSValue.
Variable property_key : JSValue -> string.

(** [coin.s]: reading a property of [null] throws a [TypeError] ([None]);
    an object gives its own property; strings, numbers, booleans and
    arrays have no [s]. *)
Definition read_s (coin : JSValue) : option JSValue :=
  match coin with
  | JNull | JUndefined => None
  | JObject fields => Some (default JUndefined (get_field fields "s"))
  | _ => Some JUndefined
  end.

(** [ws.onmessage].  A ["pong"] is skipped, and a message that does not
    parse is logged by the [catch] and dropped.  Otherwise the handler
    passes React the updater [(prev) => ({ ...prev, [coin.s]: coin })];
    [coin.s] is read when React runs the updater, outside the [try] of the
    handler: for a message that parses to [null] the updater throws
    ([None]), for every other one [livePrices] gets the key. *)
Definition on_price_message (data : string) (prev : gmap string JSValue)
  : option (gmap string JSValue) :=
  if String.eqb data "pong" then Some prev
  else
    match json_parse data with
    | None => Some prev
    | Some coin =>
        match read_s coin with
        | None => None
        | Some key => Some (<[property_key key := coin]> prev)
        end
    end.

(** The messages of the socket in order, up to the first whose updater
    throws. *)
Fixpoint on_price_messages (messages : list string)
         (prev : gmap string JSValue) : option (gmap string JSValue) :=
  match messages with
  | [] => Some prev
  | data :: rest =>
      match on_price_message data prev with
      | Some next => on_price_messages rest next
      | None => None
      end
  end.

(** The messages whose updater throws: those that parse to [null]. *)
Definition updater_throws (data : string) : bool :=
  negb (String.eqb data "pong")
  && match json_parse data with
     | Some coin => match read_s coin with None => true | Some _ => false end
     | None => false
     end.

(** The coin a message carries for the key [k], if any. *)
Definition tick_for (k : string) (data : string) : option JSValue :=
  if String.eqb data "pong" then None
  else
    match json_parse data with
    | None => None
    | Some coin =>
        match read_s coin with
        | None => None
        | Some key =>
            if String.eqb (property_key key) k then Some coin else None
        end
    end.

(** The coin of the latest message for the key [k]. *)
Fixpoint last_tick (k : string) (messages : list string) (earlier : option JSValue)
  : option JSValue :=
  match messages with
  | [] => earlier
  | data :: rest =>
      last_tick k rest
                (match tick_for k data with
                 | Some coin => Some coin
                 | None => earlier
                 end)
  end.

End WithBrowser.

End CryptoListData.

(** ** The candle chart: live candle and moving averages *)

Module CandleChart.
Import JSArray MovingAverage.

Section WithNumbers.
Variable num : Type.
Variable zero : num.
Variable add : num -> num -> num.
Variable div_by : num -> Z -> num.

(** The time of a candle, and [getMinutes], [getHours], [getDate] of
    [new Date(time)]; [None] is the [NaN] of an invalid date. *)
Variable time : Type.
Variables getMinutes getHours getDate : time -> option Z.

Record candle := {
  c_time : time;
  c_open : num;
  c_high : num;
  c_low : num;
  c_close : num
}.

(** [liveCandle]: the candle of the stream and its [isComplete] flag. *)
Record live := { l_candle : candle; isComplete : bool }.

(** [a === b] on two numbers: [NaN] equals nothing. *)
Definition strict_eq (a b : option Z) : bool :=
  match a, b with
  | Some x, Some y => x =? y
  | _, _ => false
  end.

(** The three comparisons of the merge. *)
Definition same_slot (t1 t2 : time) : bool :=
  strict_eq (getMinutes t1) (getMinutes t2)
  && strict_eq (getHours t1) (getHours t2)
  && strict_eq (getDate t1) (getDate t2).

(** [allCandles]: the historical candles, with an incomplete live candle
    written over the last one when both fall into the same slot, and pushed
    otherwise (an empty history has an invalid last date, which equals
    nothing). *)
Definition allCandles (candles : list candle) (liveCandle : option live)
  : list candle :=
  match liveCandle with
  | None => candles
  | Some l =>
      if isComplete l then candles
      else
        match List.last (map Some candles) None with
        | Some lastCandle =>
            if same_slot (c_time lastCandle) (c_time (l_candle l))
            then <[(length candles - 1)%nat := l_candle l]> candles
            else candles ++ [l_candle l]
        | None => candles ++ [l_candle l]
        end
  end.

(** The number of [null] entries of a moving-average line. *)
Definition nulls (line : list (option num)) : nat :=
  length (List.filter (fun x => match x with None => true | Some _ => false end)
                      line).

(** The series handed to the plot. *)
Record series := {
  times : list time;
  closes : list num;
  ma7 : list (option num);
  ma25 : list (option num);
  ma99 : list (option num)
}.

(** The component: the loading view ([None]) while there is no history,
    the series otherwise. *)
Definition render (candles : list candle) (liveCandle : option live)
  : option series :=
  match candles with
  | [] => None
  | _ =>
      let all := allCandles candles liveCandle in
      let closes := map c_close all in
      Some {| times := map c_time all;
              closes := closes;
              ma7 := calculateMA zero add div_by closes 7;
              ma25 := calculateMA zero add div_by closes 25;
              ma99 := calculateMA zero add div_by closes 99 |}
  end.

End WithNumbers.

Arguments nulls {num}.
Arguments c_time {num time}.
Arguments c_close {num time}.
Arguments l_candle {num time}.
Arguments isComplete {num time}.
Arguments same_slot {time}.
Arguments allCandles {num time}.
Arguments render {num} zero add div_by {time}.
Arguments times {num time}.
Arguments closes {num time}.
Arguments ma7 {num time}.
Arguments ma25 {num time}.
Arguments ma99 {num time}.

End CandleChart.

(** ** The order book *)

Module OrderBook.
Import JS JSArray.

(** [s.slice(start)] on the characters of a string: the end defaults to
    the length. *)
Definition slice_from {A : Type} (s : list A) (start : Z) : list A :=
  slice s start (Z.of_nat (length s)).

(** The header: [symbol.slice(-4)] names the quote asset and
    [symbol.slice(0, -4)] the base asset. *)
Definition quote_asset (symbol : list ascii) : list ascii :=
  slice_from symbol (-4).

Definition base_asset (symbol : list ascii) : list ascii :=
  slice symbol 0 (-4).

Section WithArithmetic.
(** The arithmetic of doubles. *)
Variables mul sub div : JSNum -> JSNum -> JSNum.

Record level := { price : JSNum; quantity : JSNum; total : JSNum }.

(** [([price, qty]) => ({ price, quantity, total })] *)
Definition parse_level (entry : string * string) : level :=
  {| price := parseFloat (fst entry);
     quantity := parseFloat (snd entry);
     total := mul (parseFloat (fst entry)) (parseFloat (snd entry)) |}.

(** [levels.slice(0, 15).map(...)] *)
Definition top_levels (levels : list (string * string)) : list level :=
  map parse_level (slice levels 0 15).

(** A parsed depth message; a side the message does not carry is [None]. *)
Record depth := {
  d_bids : option (list (string * string));
  d_asks : option (list (string * string))
}.

Record book := { bids : list level; asks : list level; spread : JSNum }.

(** At most 15 levels a side. *)
Definition shallow (b : book) : Prop :=
  (length (bids b) <= 15)%nat /\ (length (asks b) <= 15)%nat.

Definition initial_book : book :=
  {| bids := []; asks := []; spread := Finite 0 |}.

(** [ws.onmessage]: a message that does not parse ([None]) or lacks a side
    changes nothing; otherwise both sides are replaced by their first 15
    levels, and the spread is recomputed when neither is empty. *)
Definition on_message (msg : option depth) (b : book) : book :=
  match msg with
  | Some {| d_bids := Some feed_bids; d_asks := Some feed_asks |} =>
      let topBids := top_levels feed_bids in
      let topAsks := top_levels feed_asks in
      {| bids := topBids;
         asks := topAsks;
         spread :=
           match topBids, topAsks with
           | bid :: _, ask :: _ =>
               mul (div (sub (price ask) (price bid)) (price bid))
                   (Finite 100)
           | _, _ => spread b
           end |}
  | _ => b
  end.

Definition on_messages (msgs : list (option depth)) (b : book) : book :=
  fold_left (fun b msg => on_message msg b) msgs b.

End WithArithmetic.

End OrderBook.

(** ** The shape of a stored token *)

Module TokenShape.

(** A string without a dot. *)
Fixpoint dotless (s : string) : bool :=
  match s with
  | EmptyString => true
  | String c rest => negb (Ascii.eqb c ".") && dotless rest
  end.

(** What follows the second segment of a token: nothing, or a dot and
    anything (the signature, and whatever else). *)
Definition token_tail (tail : string) : Prop :=
  tail = "" \/ exists rest, tail = String "." rest.

End TokenShape.

(** * Auxiliary lemmas *)

Module JSArrayFacts.
Import JSArray.

Lemma mapi_from_length {A B : Type} (f : A -> Z -> B) (arr : list A) :
  forall i0, length (mapi_from f i0 arr) = length arr.
Proof.
  induction arr as [|x rest IH]; intros i0; simpl; [reflexivity|].
  now rewrite IH.
Qed.

Lemma mapi_from_nth {A B : Type} (f : A -> Z -> B) (arr : list A) :
  forall i0 (i : nat) x,
    nth_error arr i = Some x ->
    nth_error (mapi_from f i0 arr) i = Some (f x (i0 + Z.of_nat i)).
Proof.
  induction arr as [|y rest IH]; intros i0 i x Hx.
  - destruct i; discriminate.
  - destruct i as [|i]; simpl in *.
    + injection Hx as ->. now rewrite Z.add_0_r.
    + rewrite (IH (i0 + 1) i x Hx). do 2 f_equal. lia.
Qed.

(** Inside the array, [slice] with a non-negative window is the window. *)
Lemma slice_window {A : Type} (arr : list A) (lo n : nat) :
  (lo + n <= length arr)%nat ->
  slice arr (Z.of_nat lo) (Z.of_nat lo + Z.of_nat n)
  = firstn n (skipn lo arr).
Proof.
  intros Hle. unfold slice, clamp_index.
  destruct (Z.ltb_spec (Z.of_nat lo) 0) as [?|_]; [lia|].
  destruct (Z.ltb_spec (Z.of_nat lo + Z.of_nat n) 0) as [?|_]; [lia|].
  rewrite !Z.min_l by lia.
  replace (Z.to_nat (Z.of_nat lo + Z.of_nat n - Z.of_nat lo)) with n by lia.
  now rewrite Nat2Z.id.
Qed.

Lemma skipn_nth_cons {A : Type} (arr : list A) :
  forall lo x, nth_error arr lo = Some x ->
               skipn lo arr = x :: skipn (S lo) arr.
Proof.
  induction arr as [|y rest IHd]; intros lo x Hx.
  - destruct lo; discriminate.
  - destruct lo as [|lo]; simpl in *.
    + now injection Hx as ->.
    + now apply IHd.
Qed.

End JSArrayFacts.

Module MovingAverageFacts.
Import MovingAverage.

Lemma sum_from_window {num : Type} (add : num -> num -> num)
      (data : list num) :
  forall count lo acc,
    (lo + count <= length data)%nat ->
    sum_from add data lo count acc
    = fold_left add (firstn count (skipn lo data)) acc.
Proof.
  induction count as [|c IH]; intros lo acc Hle; simpl; [reflexivity|].
  destruct (nth_error data lo) as [x|] eqn:Hx.
  - rewrite IH by lia.
    now rewrite (JSArrayFacts.skipn_nth_cons data lo x Hx).
  - apply nth_error_None in Hx. lia.
Qed.

End MovingAverageFacts.

Module CryptoListPageFacts.
Import CryptoListPage.

Lemma totalPages_bounds (total : Z) :
  pageSize * (totalPages total - 1) < total <= pageSize * totalPages total.
Proof.
  unfold totalPages, pageSize.
  pose proof (Z.div_mod (- total) 10 ltac:(lia)).
  pose proof (Z.mod_pos_bound (- total) 10 ltac:(lia)).
  lia.
Qed.

Lemma on_click_in_range (total page : Z) (c : click) :
  page_in_range total page -> page_in_range total (on_click total page c).
Proof.
  unfold page_in_range, on_click, previous_disabled, next_disabled.
  intros H. destruct c.
  - destruct (Z.eqb_spec page 1); lia.
  - destruct (Z.eqb_spec page (totalPages total)); lia.
Qed.

End CryptoListPageFacts.

Module LedgerFacts.
Import Ledger.
Local Open Scope Q_scope.

Lemma total_quantity_nonneg (fills : list fill) :
  Forall (fun f => 0 < fst f) fills -> 0 <= total_quantity fills.
Proof.
  induction 1 as [|f fs Hf _ IH]; simpl; [apply Qle_refl|].
  apply Qlt_le_weak in Hf.
  change 0 with (0 + 0). now apply Qplus_le_compat.
Qed.

Section WithRounding.
Variable quantize : Q -> Q.

(** BUY fills applied to an existing entry add up on top of it. *)
Lemma buy_all_existing (k : string * string) (fills : list fill) :
  forall (p : gmap (string * string) PortfolioEntry) (e : PortfolioEntry),
    p !! k = Some e ->
    exists e',
      buy_all quantize k fills p !! k = Some e'
      /\ quantity e' == quantity e + total_quantity fills
      /\ cost_basis_numerator e'
         == cost_basis_numerator e + total_cost fills
      /\ (fills <> [] ->
          avg_buy_price e'
          = quantize (cost_basis_numerator e' / quantity e')).
Proof.
  induction fills as [|[q price] fs IH]; intros p e He.
  - exists e. split; [exact He|]. simpl.
    split; [ring|]. split; [ring|]. intros H. now contradiction H.
  - unfold buy_all in *. cbn [fold_left fst snd].
    unfold portfolio_buy at 2. rewrite He.
    match goal with
    | |- context [fold_left _ fs (<[k := ?e1]> p)] =>
        destruct (IH (<[k := e1]> p) e1 (lookup_insert_eq p k e1))
          as (e' & Hlk & Hq & Hn & Havg)
    end.
    exists e'. split; [exact Hlk|]. cbn [quantity cost_basis_numerator] in *.
    split; [rewrite Hq; simpl; ring|].
    split; [rewrite Hn; simpl; ring|].
    intros _. destruct fs as [|f fs'].
    + simpl in Hlk. rewrite lookup_insert_eq in Hlk.
      injection Hlk as <-. reflexivity.
    + apply Havg. discriminate.
Qed.

(** BUY and SELL fills applied to an existing entry that no SELL
    empties: the quantity follows the fills, and the numerator grows by
    the cost of the BUYs alone. *)
Lemma apply_movements_existing (k : string * string) (ms : list Movement) :
  forall (p : gmap (string * string) PortfolioEntry) (e : PortfolioEntry)
         (holding : Q),
    p !! k = Some e ->
    holding == quantity e ->
    partial_sells holding ms ->
    exists e',
      apply_movements quantize k ms p !! k = Some e'
      /\ quantity e' == quantity e + bought ms - sold ms
      /\ cost_basis_numerator e' == cost_basis_numerator e + cost ms
      /\ (forall ms' q price,
             ms = ms' ++ [Bought q price] ->
             avg_buy_price e'
             = quantize (cost_basis_numerator e' / quantity e')).
Proof.
  induction ms as [|m rest IH]; intros p e holding He Hh Hms.
  - exists e. split; [exact He|]. simpl.
    split; [ring|]. split; [ring|].
    intros ms' q price H. now destruct ms'.
  - unfold apply_movements in *. cbn [fold_left].
    destruct m as [q price|q]; cbn [partial_sells] in Hms.
    + destruct Hms as [Hq Hrest].
      cbn [apply_movement]. unfold portfolio_buy. rewrite He.
      match goal with
      | |- context [fold_left _ rest (<[k := ?e1]> p)] =>
          destruct (IH (<[k := e1]> p) e1 (holding + q)
                       (lookup_insert_eq p k e1)
                       ltac:(cbn [quantity]; now rewrite Hh) Hrest)
            as (e' & Hlk & Hqty & Hnum & Havg)
      end.
      exists e'. split; [exact Hlk|].
      cbn [quantity cost_basis_numerator] in *.
      split; [rewrite Hqty; simpl; ring|].
      split; [rewrite Hnum; simpl; ring|].
      intros ms' q' price' Heq. destruct rest as [|m' rest'].
      * simpl in Hlk. rewrite lookup_insert_eq in Hlk.
        injection Hlk as <-. reflexivity.
      * destruct ms' as [|m0 ms'']; [discriminate|].
        injection Heq as _ Heq. exact (Havg ms'' q' price' Heq).
    + destruct Hms as (Hq & Hlt & Hrest).
      cbn [apply_movement]. unfold portfolio_sell. rewrite He.
      rewrite Hh in Hlt.
      assert (Hle : Qle_bool q (quantity e) = true).
      { apply Qle_bool_iff. now apply Qlt_le_weak. }
      assert (Hne : Qeq_bool (quantity e - q) 0 = false).
      { destruct (Qeq_bool (quantity e - q) 0) eqn:Heq0; [|reflexivity].
        apply Qeq_bool_iff in Heq0. exfalso. lra. }
      rewrite Hle, Hne. cbn [from_option id].
      match goal with
      | |- context [fold_left _ rest (<[k := ?e1]> p)] =>
          destruct (IH (<[k := e1]> p) e1 (holding - q)
                       (lookup_insert_eq p k e1)
                       ltac:(cbn [quantity]; now rewrite Hh) Hrest)
            as (e' & Hlk & Hqty & Hnum & Havg)
      end.
      exists e'. split; [exact Hlk|].
      cbn [quantity cost_basis_numerator] in *.
      split; [rewrite Hqty; simpl; ring|].
      split; [rewrite Hnum; simpl; ring|].
      intros ms' q' price' Heq. destruct rest as [|m' rest'].
      * destruct ms' as [|m0 ms'']; [discriminate|].
        injection Heq as _ Heq. now destruct ms''.
      * destruct ms' as [|m0 ms'']; [discriminate|].
        injection Heq as _ Heq. exact (Havg ms'' q' price' Heq).
Qed.

End WithRounding.

End LedgerFacts.

(** ** Invariants of the ledger store under the atomic writes *)

Module StoreFacts.
Import Ledger.
Local Open Scope Q_scope.

Lemma balance_of_insert (c : gmap string Q) (u u' : string) (v : Q) :
  balance_of (<[u := v]> c) u' = if decide (u = u') then v else balance_of c u'.
Proof.
  unfold balance_of. rewrite lookup_insert. now destruct (decide (u = u')).
Qed.

Lemma balance_of_insert_eq (c : gmap string Q) (u : string) (v : Q) :
  balance_of (<[u := v]> c) u = v.
Proof. unfold balance_of. now rewrite lookup_insert_eq. Qed.

Lemma credits_debit_Some (u : string) (a : Q) (c c' : gmap string Q) :
  credits_debit u a c = Some c' ->
  a <= balance_of c u /\ c' = <[u := balance_of c u - a]> c.
Proof.
  unfold credits_debit. destruct (Qle_bool a (balance_of c u)) eqn:Hle.
  - intros [= <-]. split; [now apply Qle_bool_iff|reflexivity].
  - discriminate.
Qed.

Lemma credits_debit_None (u : string) (a : Q) (c : gmap string Q) :
  credits_debit u a c = None <-> balance_of c u < a.
Proof.
  unfold credits_debit. destruct (Qle_bool a (balance_of c u)) eqn:Hle.
  - apply Qle_bool_iff in Hle. split; [discriminate|].
    intros Hlt. exfalso. now apply (Qlt_not_le _ _ Hlt).
  - split; [intros _|reflexivity].
    apply Qnot_le_lt. intros H. apply Qle_bool_iff in H. congruence.
Qed.

Lemma credits_debit_nonneg (u : string) (a : Q) (c c' : gmap string Q) :
  balances_nonneg c -> credits_debit u a c = Some c' -> balances_nonneg c'.
Proof.
  intros Hc Hd u'. apply credits_debit_Some in Hd as [Hle ->].
  rewrite balance_of_insert. destruct (decide (u = u')); [|apply Hc].
  unfold Qminus. rewrite <- (Qplus_opp_r a).
  apply Qplus_le_compat; [exact Hle|apply Qle_refl].
Qed.

Lemma credits_credit_nonneg (u : string) (a : Q) (c : gmap string Q) :
  balances_nonneg c -> 0 <= a -> balances_nonneg (credits_credit u a c).
Proof.
  intros Hc Ha u'. unfold credits_credit. rewrite balance_of_insert.
  destruct (decide (u = u')); [|apply Hc].
  change 0 with (0 + 0). apply Qplus_le_compat; [apply Hc|exact Ha].
Qed.

Lemma portfolio_buy_positive (quantize : Q -> Q) (k : string * string)
      (q price : Q) (p : gmap (string * string) PortfolioEntry) :
  holdings_positive p -> 0 < q ->
  holdings_positive (portfolio_buy quantize k q price p).
Proof.
  intros Hp Hq k' e'. unfold portfolio_buy.
  destruct (p !! k) as [e|] eqn:He; rewrite lookup_insert;
    destruct (decide (k = k')); try apply Hp; intros [= <-]; simpl.
  - apply Hp in He. change 0 with (0 + 0).
    apply Qplus_lt_le_compat; [exact He|now apply Qlt_le_weak].
  - exact Hq.
Qed.

Lemma portfolio_sell_Some (k : string * string) (q : Q)
      (p p' : gmap (string * string) PortfolioEntry) :
  portfolio_sell k q p = Some p' ->
  exists e,
    p !! k = Some e /\ q <= quantity e
    /\ ((quantity e - q == 0 /\ p' = delete k p)
        \/ (~ quantity e - q == 0
            /\ p' = <[k := {| quantity := quantity e - q;
                              avg_buy_price := avg_buy_price e;
                              cost_basis_numerator := cost_basis_numerator e |}]> p)).
Proof.
  unfold portfolio_sell. destruct (p !! k) as [e|]; [|discriminate].
  destruct (Qle_bool q (quantity e)) eqn:Hle; [|discriminate].
  apply Qle_bool_iff in Hle.
  destruct (Qeq_bool (quantity e - q) 0) eqn:Heq; intros [= <-];
    exists e; (split; [reflexivity|]); (split; [exact Hle|]).
  - left. split; [now apply Qeq_bool_iff|reflexivity].
  - right. split; [now apply Qeq_bool_neq|reflexivity].
Qed.

Lemma portfolio_sell_None (k : string * string) (q : Q)
      (p : gmap (string * string) PortfolioEntry) :
  0 < q -> (portfolio_sell k q p = None <-> held p k < q).
Proof.
  intros Hq. unfold portfolio_sell, held.
  destruct (p !! k) as [e|]; [|now split].
  destruct (Qle_bool q (quantity e)) eqn:Hle.
  - apply Qle_bool_iff in Hle.
    split; [destruct (Qeq_bool _ _); discriminate|].
    intros Hlt. exfalso. now apply (Qlt_not_le _ _ Hlt).
  - split; [intros _|reflexivity].
    apply Qnot_le_lt. intros H. apply Qle_bool_iff in H. congruence.
Qed.

Lemma portfolio_sell_positive (k : string * string) (q : Q)
      (p p' : gmap (string * string) PortfolioEntry) :
  holdings_positive p -> portfolio_sell k q p = Some p' ->
  holdings_positive p'.
Proof.
  intros Hp Hs k' e'.
  apply portfolio_sell_Some in Hs as (e & He & Hle & [[_ ->]|[Hne ->]]).
  - rewrite lookup_delete. destruct (decide (k = k')); [discriminate|apply Hp].
  - rewrite lookup_insert. destruct (decide (k = k')); [|apply Hp].
    intros [= <-]. simpl.
    assert (H0 : 0 <= quantity e - q).
    { unfold Qminus. rewrite <- (Qplus_opp_r q).
      apply Qplus_le_compat; [exact Hle|apply Qle_refl]. }
    apply Qle_lteq in H0 as [Hlt|Heq]; [exact Hlt|].
    exfalso. apply Hne. now symmetry.
Qed.

Lemma empty_store_ok : store_ok empty_store.
Proof.
  split.
  - intros u. unfold balance_of. simpl. rewrite lookup_empty.
    apply Qle_refl.
  - intros k e. simpl. rewrite lookup_empty. discriminate.
Qed.

Section WithFee.
Variable quantize : Q -> Q.
Variable fee : Q -> Q -> Q.

Lemma worker_step_op (w w' : Worker) (s s' : Store) :
  worker_step quantize fee w s = Some (w', s') -> op w' = op w.
Proof.
  unfold worker_step.
  destruct (phase w), (op w); try discriminate;
    repeat match goal with
           | |- context [match ?x with _ => _ end] => destruct x
           end;
    intros [= <- _]; reflexivity.
Qed.

(** A write whose condition fails leaves the store as it was. *)
Lemma worker_step_failed (w w' : Worker) (s s' : Store) (reason : Rejection) :
  worker_step quantize fee w s = Some (w', s') ->
  phase w' = Failed reason -> s' = s.
Proof.
  unfold worker_step.
  destruct (phase w), (op w); try discriminate;
    repeat match goal with
           | |- context [match ?x with _ => _ end] => destruct x
           end;
    intros [= <- <-]; cbn [phase]; try discriminate; reflexivity.
Qed.

(** Every atomic write of an operation with a positive quantity keeps
    the holdings positive. *)
Lemma worker_step_positive (w w' : Worker) (s s' : Store) :
  positive_op (op w) -> holdings_positive (portfolio s) ->
  worker_step quantize fee w s = Some (w', s') ->
  holdings_positive (portfolio s').
Proof.
  intros Hv Hp. unfold worker_step.
  destruct (phase w), (op w) as [u sym q price|u sym q price|u a|u a];
    try discriminate; simpl in Hv.
  - destruct (credits_debit _ _ _) as [c'|] eqn:Hd; intros [= _ <-];
      exact Hp.
  - destruct (portfolio_sell _ _ _) as [p'|] eqn:Hs; intros [= _ <-];
      [eapply portfolio_sell_positive; eassumption|exact Hp].
  - intros [= _ <-]. exact Hp.
  - destruct (credits_debit _ _ _) as [c'|] eqn:Hd; intros [= _ <-];
      exact Hp.
  - intros [= _ <-]. now apply portfolio_buy_positive.
  - intros [= _ <-]. exact Hp.
Qed.

(** Every atomic write of a solvent operation keeps the balances from
    going below zero. *)
Lemma worker_step_nonneg (w w' : Worker) (s s' : Store) :
  solvent_op fee (op w) -> balances_nonneg (credits s) ->
  worker_step quantize fee w s = Some (w', s') ->
  balances_nonneg (credits s').
Proof.
  intros Hv Hc. unfold worker_step.
  destruct (phase w), (op w) as [u sym q price|u sym q price|u a|u a];
    try discriminate; simpl in Hv.
  - destruct (credits_debit _ _ _) as [c'|] eqn:Hd; intros [= _ <-];
      [eapply credits_debit_nonneg; eassumption|exact Hc].
  - destruct (portfolio_sell _ _ _) as [p'|] eqn:Hs; intros [= _ <-];
      exact Hc.
  - intros [= _ <-]. now apply credits_credit_nonneg.
  - destruct (credits_debit _ _ _) as [c'|] eqn:Hd; intros [= _ <-];
      [eapply credits_debit_nonneg; eassumption|exact Hc].
  - intros [= _ <-]. exact Hc.
  - intros [= _ <-]. apply credits_credit_nonneg; [exact Hc|].
    unfold sell_proceeds, Qminus.
    rewrite <- (Qplus_opp_r (fee q price)).
    apply Qplus_le_compat; [exact Hv|apply Qle_refl].
Qed.

End WithFee.

End StoreFacts.

(** ** Invariants of the worker pool *)

Module PoolFacts.
Import Ledger Pipeline.
Local Open Scope nat_scope.

Lemma keys_ok_update (os : gmap nat Order) (g : gmap string nat)
      (next oid : nat) (o o' : Order) :
  keys_ok os g next ->
  os !! oid = Some o ->
  trade_request o' = trade_request o ->
  keys_ok (<[oid := o']> os) g next.
Proof.
  intros [Hg Ho] Hoid Hreq. split.
  - intros k oid1 Hk. destruct (Hg k oid1 Hk) as (o1 & Ho1 & Hkey).
    rewrite lookup_insert. destruct (decide (oid = oid1)) as [<-|_].
    + exists o'. split; [reflexivity|]. congruence.
    + now exists o1.
  - intros oid1 o1. rewrite lookup_insert.
    destruct (decide (oid = oid1)) as [<-|_].
    + intros [= <-]. rewrite Hreq. now apply Ho.
    + apply Ho.
Qed.

Lemma keys_ok_fresh (os : gmap nat Order) (g : gmap string nat) (next : nat) :
  keys_ok os g next -> os !! next = None.
Proof.
  intros [_ Ho]. destruct (os !! next) as [o|] eqn:E; [|reflexivity].
  apply Ho in E as [_ Hlt]. lia.
Qed.

Lemma keys_ok_register (os : gmap nat Order) (g : gmap string nat) (next : nat)
      (o : Order) :
  keys_ok os g next ->
  g !! idempotency_key (trade_request o) = None ->
  keys_ok (<[next := o]> os) (<[idempotency_key (trade_request o) := next]> g)
          (S next).
Proof.
  intros Hok Hnew. pose proof (keys_ok_fresh _ _ _ Hok) as Hfresh.
  destruct Hok as [Hg Ho]. split.
  - intros k oid. rewrite lookup_insert.
    destruct (decide (idempotency_key (trade_request o) = k)) as [<-|_].
    + intros [= <-]. exists o. now rewrite lookup_insert_eq.
    + intros Hk. destruct (Hg k oid Hk) as (o1 & Ho1 & Hkey).
      exists o1. split; [|exact Hkey].
      rewrite lookup_insert_ne; [exact Ho1|]. intros <-. congruence.
  - intros oid o1. rewrite lookup_insert.
    destruct (decide (next = oid)) as [<-|Hne].
    + intros [= <-]. rewrite lookup_insert_eq. split; [reflexivity|lia].
    + intros Ho1. destruct (Ho oid o1 Ho1) as [Hk Hlt]. split; [|lia].
      rewrite lookup_insert_ne; [exact Hk|]. intros Heq.
      rewrite <- Heq in Hk. congruence.
Qed.

Lemma keys_ok_initial :
  keys_ok (orders initial) (guard initial) (next_order_id initial).
Proof.
  split.
  - intros k oid Hk. cbn in Hk. now rewrite lookup_empty in Hk.
  - intros oid o Ho. cbn in Ho. now rewrite lookup_empty in Ho.
Qed.


Lemma guard_check_keys (r : TradeRequest) (sys sys' : System) (a : Admission) :
  guard_check r sys = (a, sys') ->
  keys_ok (orders sys) (guard sys) (next_order_id sys) ->
  keys_ok (orders sys') (guard sys') (next_order_id sys').
Proof.
  unfold guard_check. intros H Hok.
  destruct (guard sys !! idempotency_key r) as [oid|] eqn:Hg.
  - destruct (orders sys !! oid) as [o|];
      [destruct (terminal (status o))|]; injection H as _ <-; exact Hok.
  - injection H as _ <-. cbn.
    exact (keys_ok_register _ _ _
             {| trade_request := r; status := QUEUED; fill_price := None;
                rejection_reason := None |} Hok Hg).
Qed.

Lemma guard_check_frame (r : TradeRequest) (sys sys' : System) (a : Admission) :
  guard_check r sys = (a, sys') ->
  store sys' = store sys
  /\ transactions sys' = transactions sys
  /\ history sys' = history sys.
Proof.
  unfold guard_check. intros H.
  destruct (guard sys !! idempotency_key r) as [oid|].
  - destruct (orders sys !! oid) as [o|];
      [destruct (terminal (status o))|]; injection H as _ <-; now repeat split.
  - injection H as _ <-. now repeat split.
Qed.

Lemma transactions_of_snoc (oid : nat) (ts : list Transaction)
      (t : Transaction) :
  transactions_of oid (ts ++ [t])
  = transactions_of oid ts ++ (if decide (order_id t = oid) then [t] else []).
Proof. unfold transactions_of. rewrite filter_app. now f_equal. Qed.

Lemma history_of_order_snoc (oid : nat) (hs : list CreditsHistory)
      (h : CreditsHistory) :
  history_of_order oid (hs ++ [h])
  = history_of_order oid hs
    ++ (if decide (ref_order_id h = Some oid) then [h] else []).
Proof. unfold history_of_order. rewrite filter_app. now f_equal. Qed.

Lemma audit_extends_same (sys sys' : System) :
  transactions sys' = transactions sys ->
  history sys' = history sys ->
  audit_extends sys sys'.
Proof. intros Ht Hh. split; now left. Qed.

Lemma audit_extends_once (sys sys' : System) :
  audit_extends sys sys' -> audit_once sys -> audit_once sys'.
Proof.
  intros [Ht Hh] Hon oid. destruct (Hon oid) as [H1 H2]. split.
  - destruct Ht as [->|(t & Hnone & ->)]; [exact H1|].
    rewrite transactions_of_snoc, length_app.
    case_decide as Hid; [|simpl; lia].
    subst oid. rewrite Hnone. simpl. lia.
  - destruct Hh as [->|(h & Hnone & ->)]; [exact H2|].
    rewrite history_of_order_snoc, length_app.
    case_decide as Href; [|simpl; lia].
    rewrite (Hnone oid Href). simpl. lia.
Qed.

(** An Order that has its record keeps it, and gets no second one. *)
Lemma audit_extends_kept (sys sys' : System) (oid : nat) :
  audit_extends sys sys' ->
  (length (transactions_of oid (transactions sys)) = 1 ->
   length (transactions_of oid (transactions sys')) = 1)
  /\ (length (history_of_order oid (history sys)) = 1 ->
      length (history_of_order oid (history sys')) = 1).
Proof.
  intros [Ht Hh]. split; intros H1.
  - destruct Ht as [->|(t & Hnone & ->)]; [exact H1|].
    rewrite transactions_of_snoc, length_app.
    case_decide as Hid; [|simpl; lia].
    subst oid. rewrite Hnone in H1. discriminate H1.
  - destruct Hh as [->|(h & Hnone & ->)]; [exact H1|].
    rewrite history_of_order_snoc, length_app.
    case_decide as Href; [|simpl; lia].
    rewrite (Hnone oid Href) in H1. discriminate H1.
Qed.

Lemma job_ok_kept (sys sys' : System) (j : Job) :
  audit_extends sys sys' -> job_ok sys j -> job_ok sys' j.
Proof.
  intros Hext. destruct j as [| | | | |oid o seen|completed result|];
    cbn; try tauto.
  - destruct oid as [oid|]; [|tauto].
    apply (audit_extends_kept sys sys' oid Hext).
  - destruct completed; [|tauto]. destruct result as [res|]; [|tauto].
    unfold audited. intros [H1 H2].
    destruct (audit_extends_kept sys sys' (result_order_id res) Hext).
    split; auto.
Qed.

Section WithFee.
Variable quantize : Q -> Q.
Variable fee : Q -> Q -> Q.

Lemma transaction_of_fill_id (oid : nat) (o : Op) (t : Transaction) :
  transaction_of_fill fee oid o = Some t -> order_id t = oid.
Proof. destruct o; intros [= <-]; reflexivity. Qed.

Lemma transaction_of_fill_trade (oid : nat) (o : Op) :
  trade_op o -> exists t, transaction_of_fill fee oid o = Some t.
Proof. destruct o; intros H; try contradiction; eexists; reflexivity. Qed.

Lemma history_of_write_ref (oid : option nat) (o : Op) (seen : Q) :
  ref_order_id (history_of_write fee oid o seen) = oid.
Proof. now destruct o. Qed.

Lemma append_transaction_frame (oid : nat) (o : Op) (sys : System) :
  store (append_transaction fee oid o sys) = store sys
  /\ orders (append_transaction fee oid o sys) = orders sys
  /\ guard (append_transaction fee oid o sys) = guard sys
  /\ next_order_id (append_transaction fee oid o sys) = next_order_id sys
  /\ history (append_transaction fee oid o sys) = history sys.
Proof.
  unfold append_transaction.
  destruct (transactions_of oid _), (transaction_of_fill fee oid o);
    now repeat split.
Qed.

Lemma append_history_frame (oid : option nat) (o : Op) (seen : Q)
      (sys : System) :
  store (append_history fee oid o seen sys) = store sys
  /\ orders (append_history fee oid o seen sys) = orders sys
  /\ guard (append_history fee oid o seen sys) = guard sys
  /\ next_order_id (append_history fee oid o seen sys) = next_order_id sys
  /\ transactions (append_history fee oid o seen sys) = transactions sys.
Proof.
  unfold append_history.
  destruct oid as [id|]; [destruct (history_of_order id _)|];
    now repeat split.
Qed.

Lemma append_transaction_extends (oid : nat) (o : Op) (sys : System) :
  audit_extends sys (append_transaction fee oid o sys).
Proof.
  unfold append_transaction.
  destruct (transactions_of oid (transactions sys)) as [|t0 ts0] eqn:Hnone;
    destruct (transaction_of_fill fee oid o) as [t|] eqn:Ht;
    try (now apply audit_extends_same).
  split; [right|now left]. exists t. split; [|reflexivity].
  now rewrite (transaction_of_fill_id _ _ _ Ht).
Qed.

Lemma append_history_extends (oid : option nat) (o : Op) (seen : Q)
      (sys : System) :
  audit_extends sys (append_history fee oid o seen sys).
Proof.
  unfold append_history.
  destruct oid as [id|].
  - destruct (history_of_order id (history sys)) eqn:Hnone;
      [|now apply audit_extends_same].
    split; [now left|right]. eexists. split; [|reflexivity].
    intros oid. rewrite history_of_write_ref. now intros [= <-].
  - split; [now left|right]. eexists. split; [|reflexivity].
    intros oid. rewrite history_of_write_ref. discriminate.
Qed.

(** After the append, the Order has its Transaction. *)
Lemma append_transaction_one (oid : nat) (o : Op) (sys : System) :
  audit_once sys -> trade_op o ->
  length (transactions_of oid
            (transactions (append_transaction fee oid o sys))) = 1.
Proof.
  intros Hon Ho. unfold append_transaction.
  destruct (transaction_of_fill_trade oid o Ho) as [t Ht]. rewrite Ht.
  destruct (transactions_of oid (transactions sys)) as [|t0 ts0] eqn:Hnone.
  - cbn [transactions]. rewrite transactions_of_snoc, Hnone.
    rewrite (transaction_of_fill_id _ _ _ Ht).
    now rewrite decide_True by reflexivity.
  - destruct (Hon oid) as [H1 _]. rewrite Hnone in *. simpl in *. lia.
Qed.

Lemma append_history_one (oid : nat) (o : Op) (seen : Q) (sys : System) :
  audit_once sys ->
  length (history_of_order oid
            (history (append_history fee (Some oid) o seen sys))) = 1.
Proof.
  intros Hon. unfold append_history.
  destruct (history_of_order oid (history sys)) eqn:Hnone.
  - cbn [history push_history]. rewrite history_of_order_snoc, Hnone.
    rewrite history_of_write_ref. now rewrite decide_True by reflexivity.
  - destruct (Hon oid) as [_ H2]. rewrite Hnone in *. simpl in *. lia.
Qed.

(** Case analysis of one step. *)
Ltac step_cases H :=
  unfold advance, settle in H;
  repeat match type of H with
         | context [match ?x with _ => _ end] => destruct x eqn:?
         end;
  try discriminate H; injection H as <- <-.

Lemma advance_extends (j j' : Job) (sys sys' : System) :
  advance quantize fee j sys = Some (j', sys') -> audit_extends sys sys'.
Proof.
  intros H. destruct j; step_cases H;
    try (apply audit_extends_same; reflexivity);
    try apply append_transaction_extends;
    try apply append_history_extends.
  all: try match goal with
       | Hg : guard_check _ _ = _ |- _ =>
           destruct (guard_check_frame _ _ _ _ Hg) as (_ & Ht & Hh);
           now apply audit_extends_same
       end.
  - exact (append_history_extends (Some _) o seen sys).
  - exact (append_history_extends None o seen sys).
Qed.

Lemma advance_keys (j j' : Job) (sys sys' : System) :
  advance quantize fee j sys = Some (j', sys') ->
  keys_ok (orders sys) (guard sys) (next_order_id sys) ->
  keys_ok (orders sys') (guard sys') (next_order_id sys').
Proof.
  intros H Hok. destruct j; step_cases H; try exact Hok;
    try (eapply keys_ok_update; [exact Hok|eassumption|reflexivity]);
    try (eapply guard_check_keys; eassumption).
  - now destruct (append_transaction_frame oid o sys) as (_ & -> & -> & -> & _).
  - destruct (history_of_order _ (history sys)); exact Hok.
Qed.

Lemma valid_request_positive (r : TradeRequest) :
  valid_request r = true -> (0 < req_quantity r)%Q.
Proof.
  unfold valid_request. intros H. apply andb_true_iff in H as [H _].
  apply negb_true_iff in H. apply Qnot_le_lt. intros Hle.
  apply Qle_bool_iff in Hle. congruence.
Qed.

Lemma op_of_request_positive (r : TradeRequest) (price : Q) :
  valid_request r = true -> positive_op (op_of_request r price).
Proof.
  intros H. apply valid_request_positive in H.
  unfold op_of_request. now destruct (side r).
Qed.

Lemma op_of_request_trade (r : TradeRequest) (price : Q) :
  trade_op (op_of_request r price).
Proof. unfold op_of_request. now destruct (side r). Qed.

(** A step keeps the holdings positive. *)
Lemma advance_holdings (j j' : Job) (sys sys' : System) :
  advance quantize fee j sys = Some (j', sys') ->
  job_ok sys j ->
  holdings_positive (portfolio (store sys)) ->
  holdings_positive (portfolio (store sys')).
Proof.
  intros H Hj Hp. destruct j; step_cases H; try exact Hp;
    try match goal with
        | Hg : guard_check _ _ = _ |- _ =>
            destruct (guard_check_frame _ _ _ _ Hg) as (-> & _ & _);
            exact Hp
        | Hw : worker_step _ _ _ _ = Some _ |- _ =>
            cbn [store set_store set_order];
            exact (StoreFacts.worker_step_positive _ _ _ _ _ _
                     (proj1 Hj) Hp Hw)
        end.
  - now destruct (append_transaction_frame oid o sys) as (-> & _).
  - destruct (history_of_order _ (history sys)); exact Hp.
Qed.

(** The worker that a step leaves is as the pool expects it. *)
Lemma advance_job_ok (j j' : Job) (sys sys' : System) :
  advance quantize fee j sys = Some (j', sys') ->
  audit_once sys ->
  job_ok sys j ->
  job_ok sys' j'.
Proof.
  intros H Hon Hj. destruct j; step_cases H; cbn [job_ok]; try exact I;
    try match goal with
        | Hw : worker_step _ _ ?w _ = Some (?w0, _)
          |- positive_op (op ?w0) /\ _ =>
            rewrite (StoreFacts.worker_step_op _ _ _ _ _ _ Hw); exact Hj
        | |- trade_op (op _) => apply Hj; eauto
        end.
  - cbn [op]. split.
    + apply op_of_request_positive.
      now destruct (valid_request (trade_request o)).
    + intros _. apply op_of_request_trade.
  - now apply append_transaction_one.
  - destruct (orders sys !! n) as [o'|]; cbn; [|exact I].
    split.
    + change (length (transactions_of n
                (transactions (append_history fee (Some n) o seen sys))) = 1).
      destruct (append_history_frame (Some n) o seen sys)
        as (_ & _ & _ & _ & ->).
      exact Hj.
    + exact (append_history_one n o seen sys Hon).
Qed.

Lemma cancel_frame (key : string) (sys : System) :
  store (cancel key sys) = store sys
  /\ transactions (cancel key sys) = transactions sys
  /\ history (cancel key sys) = history sys.
Proof.
  unfold cancel. destruct (guard sys !! key) as [oid|]; [|now repeat split].
  destruct (orders sys !! oid) as [o|]; [|now repeat split].
  destruct (status o); now repeat split.
Qed.

Lemma cancel_keys (key : string) (sys : System) :
  keys_ok (orders sys) (guard sys) (next_order_id sys) ->
  keys_ok (orders (cancel key sys)) (guard (cancel key sys))
          (next_order_id (cancel key sys)).
Proof.
  intros Hok. unfold cancel.
  destruct (guard sys !! key) as [oid|]; [|exact Hok].
  destruct (orders sys !! oid) as [o|] eqn:Ho; [|exact Hok].
  destruct (status o); try exact Hok.
  cbn. eapply keys_ok_update; [exact Hok|exact Ho|reflexivity].
Qed.

Lemma reconcile_frame (oid : nat) (balance : Q) (sys : System) :
  store (reconcile fee oid balance sys) = store sys
  /\ orders (reconcile fee oid balance sys) = orders sys
  /\ guard (reconcile fee oid balance sys) = guard sys
  /\ next_order_id (reconcile fee oid balance sys) = next_order_id sys.
Proof.
  unfold reconcile. destruct (orders sys !! oid) as [o|]; [|now repeat split].
  destruct (status o); try now repeat split.
  destruct (fill_price o) as [price|]; [|now repeat split].
  destruct (append_history_frame (Some oid)
              (op_of_request (trade_request o) price) balance
              (append_transaction fee oid
                 (op_of_request (trade_request o) price) sys))
    as (-> & -> & -> & -> & _).
  destruct (append_transaction_frame oid
              (op_of_request (trade_request o) price) sys)
    as (-> & -> & -> & -> & _).
  now repeat split.
Qed.

Lemma reconcile_extends (oid : nat) (balance : Q) (sys : System) :
  audit_extends sys (reconcile fee oid balance sys).
Proof.
  unfold reconcile.
  destruct (orders sys !! oid) as [o|]; [|now apply audit_extends_same].
  destruct (status o); try now apply audit_extends_same.
  destruct (fill_price o) as [price|]; [|now apply audit_extends_same].
  set (o' := op_of_request (trade_request o) price).
  pose proof (append_transaction_extends oid o' sys) as [Ht _].
  pose proof (append_history_extends (Some oid) o' balance
                (append_transaction fee oid o' sys)) as [_ Hh].
  destruct (append_transaction_frame oid o' sys) as (_ & _ & _ & _ & Hsame).
  destruct (append_history_frame (Some oid) o' balance
              (append_transaction fee oid o' sys)) as (_ & _ & _ & _ & Hsame').
  split.
  - now rewrite Hsame'.
  - now rewrite Hsame in Hh.
Qed.


Lemma pool_ok_initial : pool_ok (initial, []).
Proof.
  split; [apply keys_ok_initial|]. split; [|split].
  - intros oid. cbn. split; lia.
  - apply StoreFacts.empty_store_ok.
  - constructor.
Qed.

Lemma start_ok (t : Task) (sys : System) : job_ok sys (start t).
Proof.
  destruct t; cbn; try exact I; (split; [exact I|]);
    intros [x Hx]; discriminate Hx.
Qed.

(** Whatever happens next in the pool, its invariant holds afterwards. *)
Lemma perform_pool_ok (st : System * list Job) (a : Action) :
  pool_ok st -> pool_ok (perform quantize fee st a).
Proof.
  destruct st as [sys js]. intros (Hkeys & Hon & Hp & Hjs).
  cbn [fst snd] in *.
  assert (Hsame : pool_ok (sys, js)) by (repeat (split; [assumption|]); assumption).
  destruct a as [t|i|i|key|oid balance]; cbn [perform fst snd].
  - do 3 (split; [assumption|]).
    apply Forall_app. split; [exact Hjs|].
    constructor; [apply start_ok|constructor].
  - destruct (js !! i) as [j|] eqn:Hi; [|exact Hsame].
    destruct (advance quantize fee j sys) as [[j' sys']|] eqn:Hadv;
      [|exact Hsame].
    assert (Hj : job_ok sys j).
    { rewrite Forall_forall in Hjs. apply Hjs.
      eapply list_elem_of_lookup_2. exact Hi. }
    pose proof (advance_extends _ _ _ _ Hadv) as Hext.
    split; [exact (advance_keys _ _ _ _ Hadv Hkeys)|].
    split; [exact (audit_extends_once _ _ Hext Hon)|].
    split; [exact (advance_holdings _ _ _ _ Hadv Hj Hp)|].
    cbn [fst snd]. apply Forall_insert.
    + eapply Forall_impl; [exact Hjs|].
      intros j0. now apply job_ok_kept.
    + exact (advance_job_ok _ _ _ _ Hadv Hon Hj).
  - destruct (js !! i) as [j|]; [|exact Hsame].
    destruct (unfinished j); [|exact Hsame].
    do 3 (split; [assumption|]).
    cbn [fst snd]. apply Forall_insert; [exact Hjs|exact I].
  - destruct (cancel_frame key sys) as (Hs & Ht & Hh).
    unfold pool_ok. cbn [fst snd].
    split; [now apply cancel_keys|].
    split; [exact (audit_extends_once _ _
                     (audit_extends_same _ _ Ht Hh) Hon)|].
    split; [now rewrite Hs|].
    eapply Forall_impl; [exact Hjs|].
    intros j0. apply job_ok_kept. now apply audit_extends_same.
  - destruct (reconcile_frame oid balance sys) as (Hs & Ho & Hg & Hn).
    pose proof (reconcile_extends oid balance sys) as Hext.
    unfold pool_ok. cbn [fst snd].
    split; [now rewrite Ho, Hg, Hn|].
    split; [exact (audit_extends_once _ _ Hext Hon)|].
    split; [now rewrite Hs|].
    eapply Forall_impl; [exact Hjs|].
    intros j0. now apply job_ok_kept.
Qed.

Lemma interleave_pool_ok (actions : list Action) :
  forall st, pool_ok st -> pool_ok (interleave quantize fee actions st).
Proof.
  induction actions as [|a rest IH]; intros st Hok; [exact Hok|].
  cbn. apply IH. now apply perform_pool_ok.
Qed.

(** *** Balances *)

Section Solvent.
Hypothesis fee_bounded :
  forall q price, (0 < q)%Q -> (0 <= price)%Q -> (fee q price <= q * price)%Q.

Lemma op_of_request_solvent (r : TradeRequest) (price : Q) :
  valid_request r = true -> (0 <= price)%Q ->
  solvent_op fee (op_of_request r price).
Proof.
  intros Hv Hp. apply valid_request_positive in Hv.
  unfold op_of_request. destruct (side r); cbn; [exact I|].
  now apply fee_bounded.
Qed.

Lemma advance_solvent (j j' : Job) (sys sys' : System) :
  advance quantize fee j sys = Some (j', sys') ->
  job_solvent fee j ->
  balances_nonneg (credits (store sys)) ->
  balances_nonneg (credits (store sys')) /\ job_solvent fee j'.
Proof.
  intros H Hj Hc.
  destruct j; step_cases H; cbn [job_solvent] in *;
    try (split; [exact Hc|]; first [exact I|exact Hj]);
    try match goal with
        | Hg : guard_check _ _ = _ |- _ =>
            destruct (guard_check_frame _ _ _ _ Hg) as (-> & _ & _);
            split; [exact Hc|]; first [exact I|exact Hj]
        | Hw : worker_step _ _ _ _ = Some _ |- _ =>
            cbn [store set_store set_order];
            split;
            [exact (StoreFacts.worker_step_nonneg _ _ _ _ _ _ Hj Hc Hw)|];
            try exact I;
            rewrite (StoreFacts.worker_step_op _ _ _ _ _ _ Hw); exact Hj
        end.
  - split; [exact Hc|]. cbn [op]. apply op_of_request_solvent; [|exact Hj].
    now destruct (valid_request (trade_request o)).
  - destruct (append_transaction_frame oid o sys) as (-> & _).
    now split.
  - destruct (history_of_order _ (history sys)); now split.
Qed.

Lemma start_solvent (t : Task) :
  solvent_action (Arrive t) -> job_solvent fee (start t).
Proof. destruct t; cbn; auto. Qed.

Lemma perform_solvent (st : System * list Job) (a : Action) :
  solvent_action a ->
  balances_nonneg (credits (store (fst st)))
  /\ Forall (job_solvent fee) (snd st) ->
  balances_nonneg (credits (store (fst (perform quantize fee st a))))
  /\ Forall (job_solvent fee) (snd (perform quantize fee st a)).
Proof.
  destruct st as [sys js]. intros Ha [Hc Hjs]. cbn [fst snd] in *.
  destruct a as [t|i|i|key|oid balance]; cbn [perform fst snd].
  - split; [exact Hc|]. apply Forall_app. split; [exact Hjs|].
    constructor; [now apply start_solvent|constructor].
  - destruct (js !! i) as [j|] eqn:Hi; [|now split].
    destruct (advance quantize fee j sys) as [[j' sys']|] eqn:Hadv;
      [|now split].
    assert (Hj : job_solvent fee j).
    { rewrite Forall_forall in Hjs. apply Hjs.
      eapply list_elem_of_lookup_2. exact Hi. }
    destruct (advance_solvent _ _ _ _ Hadv Hj Hc) as [Hc' Hj'].
    cbn [fst snd]. split; [exact Hc'|]. now apply Forall_insert.
  - destruct (js !! i) as [j|]; [|now split].
    destruct (unfinished j); [|now split].
    cbn [fst snd]. split; [exact Hc|]. now apply Forall_insert.
  - destruct (cancel_frame key sys) as (-> & _). now split.
  - destruct (reconcile_frame oid balance sys) as (-> & _). now split.
Qed.

Lemma interleave_solvent (actions : list Action) :
  forall st,
    Forall solvent_action actions ->
    balances_nonneg (credits (store (fst st)))
    /\ Forall (job_solvent fee) (snd st) ->
    balances_nonneg
      (credits (store (fst (interleave quantize fee actions st))))
    /\ Forall (job_solvent fee) (snd (interleave quantize fee actions st)).
Proof.
  induction actions as [|a rest IH]; intros st Hall Hok; [exact Hok|].
  inversion Hall as [|? ? Ha Hrest]; subst.
  cbn. apply IH; [exact Hrest|]. now apply perform_solvent.
Qed.

End Solvent.

End WithFee.

Lemma sample_fee_bounded (q price : Q) :
  (0 < q)%Q -> (0 <= price)%Q -> (sample_fee q price <= q * price)%Q.
Proof.
  intros Hq Hp. unfold sample_fee.
  assert (H : (0 <= q * price)%Q).
  { apply Qmult_le_0_compat; [now apply Qlt_le_weak|exact Hp]. }
  lra.
Qed.

End PoolFacts.

(** ** One operation at a time *)

Module SoloFacts.
Import Ledger Pipeline.
Local Open Scope Q_scope.






Section WithFee.
Variable quantize : Q -> Q.
Variable fee : Q -> Q -> Q.



(** *** Every worker returns *)






(** *** What a worker does when nobody disturbs it *)




(** *** The invariant of one operation at a time *)



Lemma no_audit_unknown (sys : System) (oid : nat) :
  audit_refs sys ->
  orders sys !! oid = None ->
  transactions_of oid (transactions sys) = []
  /\ history_of_order oid (history sys) = [].
Proof.
  intros Hrefs Ho.
  assert (Hnone : ~ (transactions_of oid (transactions sys) <> []
                     \/ history_of_order oid (history sys) <> [])).
  { intros H. destruct (Hrefs oid H) as (o' & Ho' & _). congruence. }
  split.
  - destruct (transactions_of oid (transactions sys)); [reflexivity|].
    exfalso. apply Hnone. now left.
  - destruct (history_of_order oid (history sys)); [reflexivity|].
    exfalso. apply Hnone. now right.
Qed.















(** *** A run one at a time is a run of the pool *)




End WithFee.

End SoloFacts.

(** ** Concurrent BUYs on one account *)

Module ConcurrencyFacts.
Import Ledger.
Local Open Scope Q_scope.

Lemma list_sum_insert {A : Type} (f : A -> nat) (ws : list A) :
  forall (i : nat) (w w' : A),
    ws !! i = Some w ->
    (list_sum (map f (<[i := w']> ws)) + f w
     = list_sum (map f ws) + f w')%nat.
Proof.
  induction ws as [|w0 rest IH]; intros i w w' Hi; [discriminate|].
  destruct i as [|i]; simpl in *.
  - injection Hi as ->. lia.
  - specialize (IH i w w' Hi). lia.
Qed.

Lemma list_sum_le_length {A : Type} (f : A -> nat) (ws : list A) :
  (forall w, f w <= 1)%nat -> (list_sum (map f ws) <= length ws)%nat.
Proof.
  intros Hf. induction ws as [|w rest IH]; simpl; [lia|].
  specialize (Hf w). lia.
Qed.

Lemma list_sum_replicate_zero {A : Type} (f : A -> nat) (w : A) (n : nat) :
  f w = 0%nat -> list_sum (map f (replicate n w)) = 0%nat.
Proof. intros Hw. induction n as [|n IH]; simpl; [reflexivity|lia]. Qed.

(** When no worker has anything left to write, [f] counts all of them as
    soon as it counts the successful ones. *)
Lemma list_sum_all {A : Type} (f : A -> nat) (ws : list A) :
  Forall (fun w => f w = 1%nat) ws -> list_sum (map f ws) = length ws.
Proof. induction 1 as [|w rest Hw _ IH]; simpl; [reflexivity|lia]. Qed.

Lemma held_portfolio_buy (quantize : Q -> Q) (k : string * string)
      (q price : Q) (p : gmap (string * string) PortfolioEntry) :
  held (portfolio_buy quantize k q price p) k == held p k + q.
Proof.
  unfold held, portfolio_buy.
  destruct (p !! k) as [e|]; rewrite lookup_insert_eq; simpl; ring.
Qed.

Lemma inject_nat_succ (n : nat) :
  inject_Z (Z.of_nat (S n)) == inject_Z (Z.of_nat n) + 1.
Proof. rewrite Nat2Z.inj_succ. unfold Z.succ. now rewrite inject_Z_plus. Qed.

Section WithFee.
Variable quantize : Q -> Q.
Variable fee : Q -> Q -> Q.
Variables (u sym : string) (q price : Q) (n : nat) (s0 : Store).

Hypothesis cost_nonneg : 0 <= buy_total fee q price.
Hypothesis funded :
  inject_Z (Z.of_nat n) * buy_total fee q price
  <= balance_of (credits s0) u.

Lemma buys_in_flight_start :
  buys_in_flight fee u sym q price n s0
    (s0, workers_for (OpBuy u sym q price) n).
Proof.
  unfold buys_in_flight, workers_for.
  split; [apply length_replicate|]. split.
  - apply Forall_replicate. split; [reflexivity|discriminate].
  - rewrite !list_sum_replicate_zero by reflexivity. simpl.
    split; ring.
Qed.

Lemma buys_in_flight_step (st st' : Store * list Worker) :
  buys_in_flight fee u sym q price n s0 st ->
  workers_step quantize fee st st' ->
  buys_in_flight fee u sym q price n s0 st'.
Proof.
  intros Hinv Hstep.
  destruct Hstep as [s s' ws i w w' Hi Hw].
  destruct Hinv as (Hlen & Hall & Hbal & Hheld).
  assert (Hw_ok : op w = OpBuy u sym q price
                  /\ forall reason, phase w <> Failed reason).
  { rewrite Forall_forall in Hall. apply Hall.
    eapply list_elem_of_lookup_2. exact Hi. }
  destruct Hw_ok as [Hop Hnf].
  pose proof (list_sum_insert debited ws i w w' Hi) as Hd.
  pose proof (list_sum_insert completed ws i w w' Hi) as Hc.
  pose proof (list_sum_le_length debited (<[i := w']> ws)
                ltac:(intros y; unfold debited; destruct (phase y); lia))
    as Hbound.
  rewrite length_insert, Hlen in Hbound.
  unfold worker_step in Hw. rewrite Hop in Hw.
  destruct (phase w) eqn:Hph; try discriminate.
  - (* the conditional debit goes through *)
    assert (Hdw : debited w = 0%nat) by (unfold debited; now rewrite Hph).
    assert (Hcw : completed w = 0%nat)
      by (unfold completed; now rewrite Hph).
    destruct (credits_debit u (buy_total fee q price) (credits s))
      as [c'|] eqn:Hdeb.
    + injection Hw as <- <-.
      apply StoreFacts.credits_debit_Some in Hdeb as [_ ->].
      change (debited {| op := OpBuy u sym q price; phase := Between |})
        with 1%nat in Hd.
      change (completed {| op := OpBuy u sym q price; phase := Between |})
        with 0%nat in Hc.
      split; [now rewrite length_insert|]. split.
      * apply Forall_insert; [exact Hall|].
        split; [reflexivity|discriminate].
      * cbn [credits portfolio].
        rewrite StoreFacts.balance_of_insert_eq.
        replace (list_sum (map debited (<[i := _]> ws)))
          with (S (list_sum (map debited ws))) by lia.
        replace (list_sum (map completed (<[i := _]> ws)))
          with (list_sum (map completed ws)) by lia.
        rewrite inject_nat_succ. split; [lra|exact Hheld].
    + exfalso. injection Hw as <- <-.
      change (debited {| op := OpBuy u sym q price;
                         phase := Failed InsufficientFunds |})
        with 0%nat in Hd.
      (* had the debit gone through, it would have been one of at most n *)
      pose proof (list_sum_insert debited ws i w
                    {| op := OpBuy u sym q price; phase := Between |} Hi)
        as Hd'.
      change (debited {| op := OpBuy u sym q price; phase := Between |})
        with 1%nat in Hd'.
      pose proof (list_sum_le_length debited
                    (<[i := {| op := OpBuy u sym q price;
                               phase := Between |}]> ws)
                    ltac:(intros y; unfold debited; destruct (phase y); lia))
        as Hbound'.
      rewrite length_insert, Hlen in Hbound'.
      assert (Hdn : (S (list_sum (map debited ws)) <= n)%nat) by lia.
      assert (HQ : inject_Z (Z.of_nat (S (list_sum (map debited ws))))
                   * buy_total fee q price
                   <= inject_Z (Z.of_nat n) * buy_total fee q price).
      { apply Qmult_le_compat_r; [|exact cost_nonneg].
        rewrite <- Zle_Qle. lia. }
      rewrite inject_nat_succ in HQ.
      apply StoreFacts.credits_debit_None in Hdeb.
      apply (Qlt_not_le _ _ Hdeb). lra.
  - (* the portfolio write *)
    assert (Hdw : debited w = 1%nat) by (unfold debited; now rewrite Hph).
    assert (Hcw : completed w = 0%nat)
      by (unfold completed; now rewrite Hph).
    injection Hw as <- <-.
    change (debited {| op := OpBuy u sym q price; phase := Succeeded |})
      with 1%nat in Hd.
    change (completed {| op := OpBuy u sym q price; phase := Succeeded |})
      with 1%nat in Hc.
    split; [now rewrite length_insert|]. split.
    + apply Forall_insert; [exact Hall|].
      split; [reflexivity|discriminate].
    + cbn [credits portfolio].
      replace (list_sum (map debited (<[i := _]> ws)))
        with (list_sum (map debited ws)) by lia.
      replace (list_sum (map completed (<[i := _]> ws)))
        with (S (list_sum (map completed ws))) by lia.
      rewrite inject_nat_succ, held_portfolio_buy.
      split; [exact Hbal|lra].
Qed.

Lemma buys_in_flight_reachable (st : Store * list Worker) :
  rtc (workers_step quantize fee) (s0, workers_for (OpBuy u sym q price) n) st ->
  buys_in_flight fee u sym q price n s0 st.
Proof.
  revert st. apply rtc_ind_r; [apply buys_in_flight_start|].
  intros st1 st2 _ Hstep IH. eapply buys_in_flight_step; eassumption.
Qed.

(** When every worker has finished, every BUY has been debited and
    written. *)
Lemma buys_in_flight_finished (s : Store) (ws : list Worker) :
  buys_in_flight fee u sym q price n s0 (s, ws) ->
  forallb finished ws = true ->
  Forall (fun w => phase w = Succeeded) ws
  /\ balance_of (credits s) u
     == balance_of (credits s0) u
        - inject_Z (Z.of_nat n) * buy_total fee q price
  /\ held (portfolio s) (u, sym)
     == held (portfolio s0) (u, sym) + inject_Z (Z.of_nat n) * q.
Proof.
  intros (Hlen & Hall & Hbal & Hheld) Hfin.
  assert (Hsucc : Forall (fun w => phase w = Succeeded) ws).
  { rewrite forallb_forall in Hfin. rewrite Forall_forall in Hall |- *.
    intros w Hw. destruct (Hall w Hw) as [_ Hnf].
    specialize (Hfin w ltac:(now apply list_elem_of_In)).
    unfold finished in Hfin.
    destruct (phase w) as [| | |reason]; try discriminate;
      [reflexivity|now contradiction (Hnf reason)]. }
  split; [exact Hsucc|].
  rewrite (list_sum_all debited) in Hbal.
  - rewrite (list_sum_all completed) in Hheld.
    + rewrite Hlen in Hbal, Hheld. now split.
    + eapply Forall_impl; [exact Hsucc|].
      intros w Hw. unfold completed. now rewrite Hw.
  - eapply Forall_impl; [exact Hsucc|].
    intros w Hw. unfold debited. now rewrite Hw.
Qed.

(** As long as a worker has not finished, the pool can move. *)
Lemma buys_in_flight_progress (s : Store) (ws : list Worker) :
  buys_in_flight fee u sym q price n s0 (s, ws) ->
  forallb finished ws = false ->
  exists st', workers_step quantize fee (s, ws) st'.
Proof.
  intros (_ & Hall & _ & _) Hfin.
  assert (Hex : exists i w, ws !! i = Some w /\ finished w = false).
  { clear Hall. induction ws as [|w rest IH]; [discriminate|].
    simpl in Hfin. destruct (finished w) eqn:Hw.
    - destruct (IH Hfin) as (i & w1 & Hi & Hw1). now exists (S i), w1.
    - now exists 0%nat, w. }
  destruct Hex as (i & w & Hi & Hw).
  assert (Hop : op w = OpBuy u sym q price).
  { rewrite Forall_forall in Hall.
    now apply (Hall w (list_elem_of_lookup_2 _ _ _ Hi)). }
  assert (Hs : exists w' s', worker_step quantize fee w s = Some (w', s')).
  { unfold worker_step, finished in *. rewrite Hop.
    destruct (phase w); try discriminate.
    - destruct (credits_debit _ _ _); repeat eexists.
    - repeat eexists. }
  destruct Hs as (w' & s' & Hs).
  exists (s', <[i := w']> ws). econstructor; eassumption.
Qed.

End WithFee.

(** Every atomic write brings the pool closer to the end. *)
Lemma workers_step_decreases (quantize : Q -> Q) (fee : Q -> Q -> Q)
      (st st' : Store * list Worker) :
  workers_step quantize fee st st' ->
  (pool_writes_left (snd st') < pool_writes_left (snd st))%nat.
Proof.
  intros [s s' ws i w w' Hi Hw]. cbn [snd]. unfold pool_writes_left.
  pose proof (list_sum_insert writes_left ws i w w' Hi) as Hsum.
  assert (Hlt : (writes_left w' < writes_left w)%nat).
  { unfold worker_step in Hw. unfold writes_left.
    destruct (phase w), (op w); try discriminate;
      repeat match type of Hw with
             | context [match ?x with _ => _ end] => destruct x
             end;
      injection Hw as <- _; cbn; lia. }
  lia.
Qed.

End ConcurrencyFacts.

(** ** More about arrays and the moving average *)

Module MoreArrayFacts.
Import JSArray.

Lemma mapi_from_const {A B : Type} (f : A -> Z -> B) (g : A -> B)
      (arr : list A) :
  forall i0,
    (forall x i, i0 <= i < i0 + Z.of_nat (length arr) -> f x i = g x) ->
    mapi_from f i0 arr = map g arr.
Proof.
  induction arr as [|x rest IH]; intros i0 Hfg; simpl; [reflexivity|].
  rewrite (Hfg x i0) by (simpl; lia). f_equal. apply IH.
  intros y i Hi. apply Hfg. simpl. lia.
Qed.

(** The nulls of a line whose entries are null exactly below [bound]. *)
Lemma mapi_from_nulls {A B : Type} (f : A -> Z -> option B) (bound : Z)
      (arr : list A) :
  (forall x i, match f x i with None => true | Some _ => false end
               = (i <? bound)) ->
  forall i0,
    CandleChart.nulls (mapi_from f i0 arr)
    = Nat.min (Z.to_nat (bound - i0)) (length arr).
Proof.
  intros Hf. unfold CandleChart.nulls.
  induction arr as [|x rest IH]; intros i0.
  - simpl. lia.
  - cbn [mapi_from List.filter]. rewrite Hf.
    destruct (Z.ltb_spec i0 bound) as [Hlt|Hge]; cbn [length];
      rewrite IH; lia.
Qed.

(** An empty or backward window is empty. *)
Lemma slice_backward {A : Type} (arr : list A) (start end_ : Z) :
  0 <= end_ <= start -> slice arr start end_ = [].
Proof.
  intros H. unfold slice, clamp_index.
  destruct (Z.ltb_spec start 0) as [?|_]; [lia|].
  destruct (Z.ltb_spec end_ 0) as [?|_]; [lia|].
  replace (Z.to_nat (Z.min end_ (Z.of_nat (length arr))
                     - Z.min start (Z.of_nat (length arr)))) with 0%nat by lia.
  reflexivity.
Qed.

(** [arr.slice(0, -n)] and [arr.slice(-n)] cut the array in two at
    [max (len - n) 0]. *)
Lemma slice_front {A : Type} (arr : list A) (n : Z) :
  0 < n ->
  slice arr 0 (- n) = firstn (Z.to_nat (Z.of_nat (length arr) - n)) arr.
Proof.
  intros Hn. unfold slice, clamp_index.
  destruct (Z.ltb_spec 0 0) as [?|_]; [lia|].
  destruct (Z.ltb_spec (- n) 0) as [_|?]; [|lia].
  replace (Z.to_nat (Z.min 0 (Z.of_nat (length arr)))) with 0%nat by lia.
  rewrite skipn_O. f_equal. lia.
Qed.

Lemma slice_back {A : Type} (arr : list A) (n : Z) :
  0 < n ->
  slice arr (- n) (Z.of_nat (length arr))
  = skipn (Z.to_nat (Z.of_nat (length arr) - n)) arr.
Proof.
  intros Hn. unfold slice, clamp_index.
  destruct (Z.ltb_spec (- n) 0) as [_|?]; [|lia].
  destruct (Z.ltb_spec (Z.of_nat (length arr)) 0) as [?|_]; [lia|].
  rewrite Z.min_id.
  replace (Z.to_nat (Z.max (Z.of_nat (length arr) + - n) 0))
    with (Z.to_nat (Z.of_nat (length arr) - n)) by lia.
  apply firstn_all2. rewrite length_skipn. lia.
Qed.

(** [arr.slice(0, n)] is the first [n] elements. *)
Lemma slice_prefix {A : Type} (arr : list A) (n : nat) :
  slice arr 0 (Z.of_nat n) = firstn n arr.
Proof.
  unfold slice, clamp_index.
  destruct (Z.ltb_spec 0 0) as [?|_]; [lia|].
  destruct (Z.ltb_spec (Z.of_nat n) 0) as [?|_]; [lia|].
  replace (Z.to_nat (Z.min 0 (Z.of_nat (length arr)))) with 0%nat by lia.
  replace (Z.to_nat (Z.min (Z.of_nat n) (Z.of_nat (length arr))
                     - Z.min 0 (Z.of_nat (length arr))))
    with (Nat.min n (length arr)) by lia.
  rewrite skipn_O.
  destruct (Nat.le_gt_cases n (length arr)) as [Hle|Hgt].
  - now rewrite Nat.min_l by lia.
  - rewrite Nat.min_r by lia.
    rewrite firstn_all. symmetry. apply firstn_all2. lia.
Qed.

End MoreArrayFacts.

(** ** The live candle and the order book *)

Module ChartFacts.
Import CandleChart.

Lemma last_of_history {A : Type} (l : list A) :
  l <> [] -> exists x, List.last (map Some l) None = Some x
                       /\ l !! (length l - 1)%nat = Some x.
Proof.
  induction l as [|x rest IH]; intros Hne; [contradiction|].
  destruct rest as [|y rest'].
  - exists x. split; reflexivity.
  - destruct (IH ltac:(discriminate)) as (z & Hlast & Hlk).
    exists z. split; [exact Hlast|].
    replace (length (x :: y :: rest') - 1)%nat
      with (S (length (y :: rest') - 1)) by (simpl; lia).
    exact Hlk.
Qed.

Section WithTime.
Context {num time : Type}.
Variables getMinutes getHours getDate : time -> option Z.

(** The merge touches nothing before the last historical candle and ends
    with the live candle whenever it takes it in. *)
Lemma allCandles_shape (candles : list (candle num time))
      (liveCandle : option (live num time)) :
  candles <> [] ->
  let all := allCandles getMinutes getHours getDate candles liveCandle in
  (length all = length candles \/ length all = S (length candles))
  /\ firstn (length candles - 1) all = firstn (length candles - 1) candles
  /\ (forall l, liveCandle = Some l -> isComplete l = false ->
                all !! (length all - 1)%nat = Some (l_candle l))
  /\ ((liveCandle = None
       \/ exists l, liveCandle = Some l /\ isComplete l = true) ->
      all = candles).
Proof.
  intros Hne all. subst all. unfold allCandles.
  destruct (last_of_history candles Hne) as (lastc & Hlast & Hlk).
  destruct liveCandle as [l|].
  - destruct (isComplete l) eqn:Hc.
    + split; [now left|]. split; [reflexivity|]. split; [|reflexivity].
      intros l' [= <-] Hc'. congruence.
    + rewrite Hlast.
      assert (Hpos : (length candles - 1 < length candles)%nat).
      { destruct candles; [contradiction|]. simpl. lia. }
      destruct (same_slot _ _ _ _ _).
      * split; [left; apply length_insert|].
        split; [rewrite take_insert; case_decide; [lia|reflexivity]|].
        split.
        -- intros l' [= <-] _. rewrite length_insert.
           now apply list_lookup_insert_eq.
        -- intros [Hn|(l' & [= <-] & Hc')]; congruence.
      * split; [right; rewrite length_app; simpl; lia|].
        split; [apply take_app_le; lia|]. split.
        -- intros l' [= <-] _. rewrite length_app. simpl.
           replace (length candles + 1 - 1)%nat with (length candles) by lia.
           apply list_lookup_middle. reflexivity.
        -- intros [Hn|(l' & [= <-] & Hc')]; congruence.
  - split; [now left|]. split; [reflexivity|]. split; [|reflexivity].
    intros l Hl. discriminate.
Qed.

End WithTime.

End ChartFacts.

Module OrderBookFacts.
Import JS OrderBook.

Section WithArithmetic.
Variables mul sub div : JSNum -> JSNum -> JSNum.

Lemma top_levels_prefix (levels : list (string * string)) :
  top_levels mul levels = map (parse_level mul) (firstn 15 levels).
Proof.
  unfold top_levels. f_equal.
  exact (MoreArrayFacts.slice_prefix levels 15).
Qed.

Lemma top_levels_length (levels : list (string * string)) :
  length (top_levels mul levels) = Nat.min 15 (length levels).
Proof. now rewrite top_levels_prefix, length_map, length_firstn. Qed.

Lemma on_message_shallow (msg : option depth) (b : book) :
  shallow b -> shallow (on_message mul sub div msg b).
Proof.
  intros Hb. unfold on_message.
  destruct msg as [[[fb|] [fa|]]|]; try exact Hb.
  split; cbn [bids asks]; rewrite top_levels_length; lia.
Qed.

End WithArithmetic.

End OrderBookFacts.

(** ** Splitting a token at its dots *)

Module TokenFacts.
Import JS Trade TokenShape.

Lemma append_empty (s : string) : (s ++ "")%string = s.
Proof.
  induction s as [|c s IH]; [reflexivity|].
  change (String c (s ++ "")%string = String c s). now f_equal.
Qed.

Lemma split_dotless (h rest : string) :
  dotless h = true ->
  split "." (h ++ String "." rest) = h :: split "." rest.
Proof.
  induction h as [|c h IH]; intros Hd; simpl.
  - reflexivity.
  - simpl in Hd. apply andb_true_iff in Hd as [Hc Hh].
    apply negb_true_iff in Hc. rewrite Hc, (IH Hh). reflexivity.
Qed.

Lemma split_dotless_end (h : string) :
  dotless h = true -> split "." h = [h].
Proof.
  induction h as [|c h IH]; intros Hd; simpl; [reflexivity|].
  simpl in Hd. apply andb_true_iff in Hd as [Hc Hh].
  apply negb_true_iff in Hc. rewrite Hc, (IH Hh). reflexivity.
Qed.

(** The second segment of [header.segment] followed by a tail. *)
Lemma second_segment (header segment tail : string) :
  dotless header = true ->
  dotless segment = true ->
  token_tail tail ->
  nth 1 (split "." (header ++ String "." (segment ++ tail))) "undefined"
  = segment.
Proof.
  intros Hh Hs Htail. rewrite (split_dotless header _ Hh).
  destruct Htail as [-> | (rest & ->)].
  - now rewrite append_empty, (split_dotless_end segment Hs).
  - now rewrite (split_dotless segment rest Hs).
Qed.

Lemma token_not_empty (header rest : string) :
  empty_string (header ++ String "." rest) = false.
Proof. now destruct header. Qed.

(** The user id is [null] or truthy. *)
Lemma user_id_cases (decode : string -> option JSValue)
      (stored : option string) :
  getUserIdFromToken decode stored = JNull
  \/ truthy (getUserIdFromToken decode stored) = true.
Proof.
  unfold getUserIdFromToken.
  destruct stored as [token|]; [|now left].
  destruct (empty_string token); [now left|].
  destruct (decode _) as [claims|]; [|now left].
  unfold or_else.
  destruct (truthy (optional_sub claims)) eqn:Ht; [now right|now left].
Qed.

(** The test [!user_id || !token] holds exactly for the user id [null]. *)
Lemma not_authenticated_null (decode : string -> option JSValue)
      (stored : option string) :
  not_authenticated (getUserIdFromToken decode stored) stored = true
  <-> getUserIdFromToken decode stored = JNull.
Proof.
  unfold not_authenticated. split.
  - intros Hna. apply orb_true_iff in Hna as [Hfalsy|Htoken].
    + destruct (user_id_cases decode stored) as [Hn|Ht]; [exact Hn|].
      rewrite Ht in Hfalsy. discriminate.
    + unfold getUserIdFromToken.
      destruct stored as [token|]; [|reflexivity]. now rewrite Htoken.
  - intros ->. reflexivity.
Qed.

End TokenFacts.

(** * Properties *)

Module Widget := BuySellTransferWidget.
Module Page := BuySellTransferPage.

(** C9: for every list [data] and every integer [period >= 1],
    [calculateMA data period] has the length of [data]; its entry at index
    [i] is null when [i < period - 1] and otherwise the arithmetic mean of
    the [period] entries [data[i-period+1 .. i]] ending at [i]. *)
Theorem calculateMA_spec :
  forall (num : Type) (zero : num) (add : num -> num -> num)
         (div_by : num -> Z -> num) (data : list num) (period : Z),
    1 <= period ->
    length (MovingAverage.calculateMA zero add div_by data period)
    = length data
    /\ forall i : nat,
        (i < length data)%nat ->
        nth_error (MovingAverage.calculateMA zero add div_by data period) i
        = Some (if Z.of_nat i <? period - 1 then None
                else Some (MovingAverage.mean_ending_at
                             zero add div_by data i period)).
Proof.
  intros num zero add div_by data period Hp.
  unfold MovingAverage.calculateMA, JSArray.mapi. split.
  - apply JSArrayFacts.mapi_from_length.
  - intros i Hi.
    destruct (nth_error data i) as [x|] eqn:Hx;
      [|apply nth_error_None in Hx; lia].
    rewrite (JSArrayFacts.mapi_from_nth _ data 0 i x Hx). f_equal.
    rewrite Z.add_0_l.
    destruct (Z.ltb_spec (Z.of_nat i) (period - 1)) as [Hlt|Hge];
      [reflexivity|].
    unfold MovingAverage.mean_ending_at, MovingAverage.reduce_sum.
    do 2 f_equal.
    set (lo := Z.to_nat (Z.of_nat i - period + 1)).
    set (n := Z.to_nat period).
    replace (Z.of_nat i - period + 1) with (Z.of_nat lo) by lia.
    replace (Z.of_nat i + 1) with (Z.of_nat lo + Z.of_nat n) by lia.
    rewrite JSArrayFacts.slice_window by lia.
    symmetry. apply MovingAverageFacts.sum_from_window. lia.
Qed.

(** The moving average of period 2 over four exact prices. *)
Lemma calculateMA_spec_witness :
  1 <= 2
  /\ MovingAverage.calculateMA 0%Q Qplus (fun s p => (s / inject_Z p)%Q)
       [1%Q; 2%Q; 3%Q; 4%Q] 2
     = [None; Some ((0 + 1 + 2) / 2)%Q; Some ((0 + 2 + 3) / 2)%Q;
        Some ((0 + 3 + 4) / 2)%Q]
  /\ length (MovingAverage.calculateMA 0%Q Qplus
               (fun s p => (s / inject_Z p)%Q) [1%Q; 2%Q; 3%Q; 4%Q] 2)
     = 4%nat.
Proof.
  split; [lia|]. split; [reflexivity|].
  apply (calculateMA_spec Q 0%Q Qplus (fun s p => (s / inject_Z p)%Q)
           [1%Q; 2%Q; 3%Q; 4%Q] 2).
  lia.
Defined.

(** C10: [totalPages] is the ceiling of [total / 10]; Previous is disabled
    exactly on page 1 and Next exactly on the last page; for every
    [total > 0], every sequence of Previous/Next clicks keeps
    [1 <= page <= totalPages]. *)
Theorem pagination_invariant :
  forall (total page : Z) (clicks : list CryptoListPage.click),
    0 < total ->
    CryptoListPage.page_in_range total page ->
    CryptoListPage.pageSize = 10
    /\ 10 * (CryptoListPage.totalPages total - 1) < total
       <= 10 * CryptoListPage.totalPages total
    /\ (CryptoListPage.previous_disabled page = true <-> page = 1)
    /\ (CryptoListPage.next_disabled page total = true
        <-> page = CryptoListPage.totalPages total)
    /\ CryptoListPage.page_in_range total
         (CryptoListPage.run_clicks total page clicks).
Proof.
  intros total page clicks Htotal Hpage.
  split; [reflexivity|].
  split; [apply (CryptoListPageFacts.totalPages_bounds total)|].
  split; [apply Z.eqb_eq|].
  split; [apply Z.eqb_eq|].
  unfold CryptoListPage.run_clicks.
  revert page Hpage.
  induction clicks as [|c cs IH]; intros page Hpage; simpl; [exact Hpage|].
  apply IH. now apply CryptoListPageFacts.on_click_in_range.
Qed.

(** 25 coins, three pages: from page 1, Previous stays, Next advances, and
    two more Next clicks stop at page 3. *)
Lemma pagination_invariant_witness :
  CryptoListPage.run_clicks 25 1
    [CryptoListPage.Previous; CryptoListPage.Next; CryptoListPage.Next;
     CryptoListPage.Next] = 3
  /\ CryptoListPage.page_in_range 25
       (CryptoListPage.run_clicks 25 1
          [CryptoListPage.Previous; CryptoListPage.Next; CryptoListPage.Next;
           CryptoListPage.Next]).
Proof.
  split; [reflexivity|].
  apply (pagination_invariant 25 1
           [CryptoListPage.Previous; CryptoListPage.Next;
            CryptoListPage.Next; CryptoListPage.Next]).
  - lia.
  - unfold CryptoListPage.page_in_range. vm_compute. split; discriminate.
Defined.

(** C7 (as the code has it): every payload that either [handleTrade] posts
    goes to [/trade] and has exactly the fields [user_id], [symbol], [side],
    [order_type], [quantity], followed by [price] for a LIMIT order; it has
    no [idempotency_key] field. *)
Theorem handleTrade_payload_fields :
  forall (decode : string -> option JS.JSValue) (stored : option string)
         (w : Widget.state) (p : Page.state) (s : Trade.side)
         (url : string) (payload : JS.object) (token : string),
    Widget.handleTrade decode stored w s = Trade.Post url payload token
    \/ Page.handleTrade decode stored p s = Trade.Post url payload token ->
    url = "http://localhost:8000/trade"
    /\ (exists orderType : string,
          JS.get_field payload "order_type" = Some (JS.JString orderType)
          /\ JS.keys payload
             = ["user_id"; "symbol"; "side"; "order_type"; "quantity"]
                 ++ (if String.eqb orderType "LIMIT" then ["price"] else []))
    /\ JS.get_field payload "idempotency_key" = None.
Proof.
  intros decode stored w p s url payload token H.
  assert (Hshape : exists uid sym ot amount price,
             url = "http://localhost:8000/trade"
             /\ payload = Trade.make_payload uid sym s ot amount price).
  { destruct H as [H|H].
    - unfold Widget.handleTrade in H.
      destruct (Trade.not_authenticated _ _); [discriminate|].
      match type of H with (if ?c then _ else _) = _ => destruct c end;
        [discriminate|].
      injection H as <- <- _. repeat eexists.
    - unfold Page.handleTrade in H.
      destruct (Trade.not_authenticated _ _); [discriminate|].
      match type of H with (if ?c then _ else _) = _ => destruct c end;
        [discriminate|].
      injection H as <- <- _. repeat eexists. }
  destruct Hshape as (uid & sym & ot & amount & price & -> & ->).
  split; [reflexivity|].
  unfold Trade.make_payload.
  split.
  - exists ot. split; [reflexivity|].
    destruct (String.eqb ot "LIMIT"); reflexivity.
  - destruct (String.eqb ot "LIMIT"); reflexivity.
Qed.

(** A market BUY of 0.5 BTCUSDT submitted from the widget. *)
Lemma handleTrade_payload_fields_witness :
  JS.get_field
    (Trade.make_payload (JS.JString "u1") "BTCUSDT" Trade.buy "MARKET" "0.5" "")
    "idempotency_key" = None.
Proof.
  refine (proj2 (proj2 (handleTrade_payload_fields
           Trade.sample_decode (Some Trade.sample_token)
           {| Widget.symbol := "BTCUSDT"; Widget.orderType := "MARKET";
              Widget.buyAmount := "0.5"; Widget.buyPrice := "";
              Widget.sellAmount := ""; Widget.sellPrice := "" |}
           {| Page.selectedCrypto := ""; Page.orderType := "MARKET";
              Page.tradeAmount := ""; Page.price := "" |}
           Trade.buy "http://localhost:8000/trade" _ Trade.sample_token _))).
  left. reflexivity.
Defined.

(** C7 fails as stated: an authenticated market BUY with amount 0.5 is
    posted, and the posted object has no [idempotency_key]. *)
Lemma handleTrade_posts_without_idempotency_key :
  ~ (forall (decode : string -> option JS.JSValue) (stored : option string)
            (w : Widget.state) (s : Trade.side)
            (url : string) (payload : JS.object) (token : string),
        Widget.handleTrade decode stored w s = Trade.Post url payload token ->
        exists key, JS.get_field payload "idempotency_key" = Some key).
Proof.
  intros claim.
  destruct (claim Trade.sample_decode (Some Trade.sample_token)
              {| Widget.symbol := "BTCUSDT"; Widget.orderType := "MARKET";
                 Widget.buyAmount := "0.5"; Widget.buyPrice := "";
                 Widget.sellAmount := ""; Widget.sellPrice := "" |}
              Trade.buy _ _ _ eq_refl) as [key Hkey].
  discriminate Hkey.
Qed.

(** C8 (as the code has it): [handleTrade] posts to [/trade] exactly when a
    non-empty access token is stored, the [sub] that [getUserIdFromToken]
    reads from its payload is truthy (the own property of a payload object,
    or the inherited method [String.prototype.sub] of a payload that is a
    JSON string), the amount is a non-empty string and, for a LIMIT order,
    so is the price (on the page a symbol must be selected as well); the
    posted [user_id] is that [sub] and the posted [quantity] is
    [parseFloat] of the amount, whatever its sign. *)
Theorem handleTrade_posts_iff_filled :
  forall (decode : string -> option JS.JSValue) (stored : option string)
         (w : Widget.state) (p : Page.state) (s : Trade.side),
    let user_id := Trade.getUserIdFromToken decode stored in
    let amount :=
      match s with Trade.buy => Widget.buyAmount w | Trade.sell => Widget.sellAmount w end in
    let price :=
      match s with Trade.buy => Widget.buyPrice w | Trade.sell => Widget.sellPrice w end in
    let authenticated :=
      JS.truthy user_id = true /\ exists t, stored = Some t /\ t <> "" in
    ((exists url payload token,
         Widget.handleTrade decode stored w s = Trade.Post url payload token)
     <-> authenticated /\ amount <> ""
         /\ (Widget.orderType w = "LIMIT" -> price <> ""))
    /\ ((exists url payload token,
            Page.handleTrade decode stored p s = Trade.Post url payload token)
        <-> authenticated /\ Page.selectedCrypto p <> ""
            /\ Page.tradeAmount p <> ""
            /\ (Page.orderType p = "LIMIT" -> Page.price p <> ""))
    /\ (forall url payload token,
           Widget.handleTrade decode stored w s = Trade.Post url payload token ->
           JS.get_field payload "user_id" = Some user_id
           /\ JS.get_field payload "quantity"
              = Some (JS.JNumber (JS.parseFloat amount)))
    /\ (forall url payload token,
           Page.handleTrade decode stored p s = Trade.Post url payload token ->
           JS.get_field payload "user_id" = Some user_id
           /\ JS.get_field payload "quantity"
              = Some (JS.JNumber (JS.parseFloat (Page.tradeAmount p)))).
Proof.
  intros decode stored w p s user_id amount price authenticated.
  assert (Hauth : Trade.not_authenticated user_id stored = false
                  <-> authenticated).
  { unfold Trade.not_authenticated, authenticated, JS.empty_string.
    clearbody user_id. clear.
    destruct (JS.truthy user_id); simpl.
    - destruct stored as [t|].
      + destruct (String.eqb_spec t ""); split; intros H; try discriminate.
        * destruct H as [_ [t' [Heq Hne]]]. congruence.
        * split; [reflexivity|]. now exists t.
        * reflexivity.
      + split; [discriminate|]. intros (_ & t & Ht & _). discriminate.
    - split; [discriminate|]. intros (H & _). discriminate. }
  unfold Widget.handleTrade, Page.handleTrade.
  fold user_id amount price. unfold JS.empty_string.
  destruct (Trade.not_authenticated user_id stored).
  { split; [|split; [|split]];
      try (intros ? ? ? Hpost; discriminate Hpost);
      (split;
       [ intros (? & ? & ? & Hpost); discriminate Hpost
       | intros (Ha & _); apply Hauth in Ha; discriminate Ha ]). }
  assert (Ha : authenticated) by (now apply Hauth).
  split; [split|split; [split|split; intros url payload token H; split]].
  - intros (url & payload & token & H).
    destruct (String.eqb_spec amount ""); [discriminate|].
    split; [exact Ha|]. split; [assumption|]. intros HL. rewrite HL in H.
    destruct (String.eqb_spec price ""); [discriminate|assumption].
  - intros (_ & Hamt & Hpr).
    destruct (String.eqb_spec amount ""); [contradiction|].
    destruct (String.eqb_spec (Widget.orderType w) "LIMIT") as [HL|HL].
    + destruct (String.eqb_spec price ""); [now apply Hpr in HL|].
      simpl. repeat eexists.
    + simpl. repeat eexists.
  - intros (url & payload & token & H).
    destruct (String.eqb_spec (Page.selectedCrypto p) ""); [discriminate|].
    destruct (String.eqb_spec (Page.tradeAmount p) ""); [discriminate|].
    split; [exact Ha|]. do 2 (split; [assumption|]). intros HL.
    rewrite HL in H.
    destruct (String.eqb_spec (Page.price p) ""); [discriminate|assumption].
  - intros (_ & Hsym & Hamt & Hpr).
    destruct (String.eqb_spec (Page.selectedCrypto p) ""); [contradiction|].
    destruct (String.eqb_spec (Page.tradeAmount p) ""); [contradiction|].
    destruct (String.eqb_spec (Page.orderType p) "LIMIT") as [HL|HL].
    + destruct (String.eqb_spec (Page.price p) ""); [now apply Hpr in HL|].
      simpl. repeat eexists.
    + simpl. repeat eexists.
  - match type of H with (if ?c then _ else _) = _ => destruct c end;
      [discriminate|]. now injection H as _ <- _.
  - match type of H with (if ?c then _ else _) = _ => destruct c end;
      [discriminate|]. now injection H as _ <- _.
  - match type of H with (if ?c then _ else _) = _ => destruct c end;
      [discriminate|]. now injection H as _ <- _.
  - match type of H with (if ?c then _ else _) = _ => destruct c end;
      [discriminate|]. now injection H as _ <- _.
Qed.

(** A limit SELL of 2 units at 30000 submitted from the widget. *)
Lemma handleTrade_posts_iff_filled_witness :
  JS.get_field
    (Trade.make_payload (JS.JString "u1") "BTCUSDT" Trade.sell "LIMIT" "2" "30000")
    "quantity" = Some (JS.JNumber (JS.parseFloat "2")).
Proof.
  refine (proj2 (proj1 (proj2 (proj2 (handleTrade_posts_iff_filled
           Trade.sample_decode (Some Trade.sample_token)
           {| Widget.symbol := "BTCUSDT"; Widget.orderType := "LIMIT";
              Widget.buyAmount := ""; Widget.buyPrice := "";
              Widget.sellAmount := "2"; Widget.sellPrice := "30000" |}
           {| Page.selectedCrypto := ""; Page.orderType := "MARKET";
              Page.tradeAmount := ""; Page.price := "" |}
           Trade.sell))) "http://localhost:8000/trade" _ Trade.sample_token _)).
  reflexivity.
Defined.

(** C8 fails as stated: with the amount ["0"] (or ["-5"]) an authenticated
    market order is posted with a quantity that is not positive. *)
Lemma handleTrade_posts_non_positive_quantity :
  ~ (forall (decode : string -> option JS.JSValue) (stored : option string)
            (w : Widget.state) (s : Trade.side)
            (url : string) (payload : JS.object) (token : string)
            (quantity : JS.JSNum),
        Widget.handleTrade decode stored w s = Trade.Post url payload token ->
        JS.get_field payload "quantity" = Some (JS.JNumber quantity) ->
        JS.positive quantity = true).
Proof.
  intros claim.
  pose proof (claim Trade.sample_decode (Some Trade.sample_token)
                {| Widget.symbol := "BTCUSDT"; Widget.orderType := "MARKET";
                   Widget.buyAmount := "0"; Widget.buyPrice := "";
                   Widget.sellAmount := "-5"; Widget.sellPrice := "" |}
                Trade.buy _ _ _ _ eq_refl eq_refl) as H.
  discriminate H.
Qed.

(** C1 (as the model has it): BUY fills [(q_1,p_1) .. (q_n,p_n)] with
    positive quantities, applied to one [(user_id, symbol)] that has no
    portfolio entry, leave an entry with [quantity = sum q_i] and
    [cost_basis_numerator = sum q_i * p_i]; its [avg_buy_price] is [p_1]
    after one fill and after that the quotient of the two, rounded to the
    decimal field: the rounded [(sum q_i * p_i) / (sum q_i)], and that
    quotient itself where the field can hold it.  A SELL leaves
    [avg_buy_price] and [cost_basis_numerator] of the entry as they were:
    after BUYs and SELLs that never empty the entry the quantity is what
    was bought less what was sold, the numerator is still the cost of all
    BUYs, and the average that a BUY stores is the quotient of these
    two. *)
Theorem buy_fills_weighted_average :
  forall (quantize : Q -> Q) (k : string * string),
    (forall (f : Ledger.fill) (fills : list Ledger.fill)
            (p : gmap (string * string) Ledger.PortfolioEntry),
        Forall (fun f => 0 < fst f)%Q (f :: fills) ->
        p !! k = None ->
        exists e,
          Ledger.buy_all quantize k (f :: fills) p !! k = Some e
          /\ (Ledger.quantity e == Ledger.total_quantity (f :: fills))%Q
          /\ (Ledger.cost_basis_numerator e
              == Ledger.total_cost (f :: fills))%Q
          /\ Ledger.avg_buy_price e
             = match fills with
               | [] => snd f
               | _ => quantize (Ledger.cost_basis_numerator e
                                / Ledger.quantity e)%Q
               end
          /\ ((forall x y, x == y -> quantize x == quantize y)%Q ->
              (Ledger.avg_buy_price e
               == match fills with
                  | [] => snd f
                  | _ => quantize (Ledger.total_cost (f :: fills)
                                   / Ledger.total_quantity (f :: fills))
                  end)%Q
              /\ ((quantize (Ledger.total_cost (f :: fills)
                             / Ledger.total_quantity (f :: fills))
                   == Ledger.total_cost (f :: fills)
                      / Ledger.total_quantity (f :: fills))%Q ->
                  (Ledger.avg_buy_price e
                   == Ledger.total_cost (f :: fills)
                      / Ledger.total_quantity (f :: fills))%Q)))
    /\ (forall (q : Q) (p0 p1 : gmap (string * string) Ledger.PortfolioEntry)
               (e1 : Ledger.PortfolioEntry),
           Ledger.portfolio_sell k q p0 = Some p1 ->
           p1 !! k = Some e1 ->
           exists e0,
             p0 !! k = Some e0
             /\ Ledger.avg_buy_price e1 = Ledger.avg_buy_price e0
             /\ Ledger.cost_basis_numerator e1
                = Ledger.cost_basis_numerator e0)
    /\ (forall (q0 p0 : Q) (ms : list Ledger.Movement)
               (p : gmap (string * string) Ledger.PortfolioEntry),
           Ledger.partial_sells 0 (Ledger.Bought q0 p0 :: ms) ->
           p !! k = None ->
           exists e,
             Ledger.apply_movements quantize k (Ledger.Bought q0 p0 :: ms) p
             !! k = Some e
             /\ (Ledger.quantity e
                 == Ledger.bought (Ledger.Bought q0 p0 :: ms)
                    - Ledger.sold (Ledger.Bought q0 p0 :: ms))%Q
             /\ (Ledger.cost_basis_numerator e
                 == Ledger.cost (Ledger.Bought q0 p0 :: ms))%Q
             /\ (forall ms' q price,
                    ms = ms' ++ [Ledger.Bought q price] ->
                    Ledger.avg_buy_price e
                    = quantize (Ledger.cost_basis_numerator e
                                / Ledger.quantity e)%Q)).
Proof.
  intros quantize k. split; [|split].
  - intros [q price] fills p Hpos Hnone.
    inversion Hpos as [|? ? Hq Hrest]; subst. cbn [fst] in Hq.
    unfold Ledger.buy_all. cbn [fold_left fst snd].
    unfold Ledger.portfolio_buy at 2. rewrite Hnone.
    set (e1 := {| Ledger.quantity := q; Ledger.avg_buy_price := price;
                  Ledger.cost_basis_numerator := (q * price)%Q |}).
    destruct (LedgerFacts.buy_all_existing quantize k fills (<[k := e1]> p) e1
                (lookup_insert_eq p k e1)) as (e & Hlk & Hqty & Hnum & Havg).
    exists e. cbn [Ledger.quantity Ledger.cost_basis_numerator e1] in *.
    assert (Hq' : (Ledger.quantity e
                   == Ledger.total_quantity ((q, price) :: fills))%Q).
    { rewrite Hqty. simpl. ring. }
    assert (Hn' : (Ledger.cost_basis_numerator e
                   == Ledger.total_cost ((q, price) :: fills))%Q).
    { rewrite Hnum. simpl. ring. }
    assert (Havg' : Ledger.avg_buy_price e
                    = match fills with
                      | [] => price
                      | _ => quantize (Ledger.cost_basis_numerator e
                                       / Ledger.quantity e)%Q
                      end).
    { destruct fills as [|f fs].
      - unfold Ledger.buy_all in Hlk. simpl in Hlk.
        rewrite lookup_insert_eq in Hlk. now injection Hlk as <-.
      - apply Havg. discriminate. }
    split; [exact Hlk|]. split; [exact Hq'|]. split; [exact Hn'|].
    split; [exact Havg'|].
    intros Hproper.
    assert (Hmean : (Ledger.avg_buy_price e
                     == match fills with
                        | [] => price
                        | _ => quantize
                                 (Ledger.total_cost ((q, price) :: fills)
                                  / Ledger.total_quantity ((q, price) :: fills))
                        end)%Q).
    { rewrite Havg'. destruct fills as [|f fs]; [reflexivity|].
      apply Hproper. now rewrite Hq', Hn'. }
    split; [exact Hmean|].
    intros Hexact. rewrite Hmean. destruct fills as [|f fs]; [|exact Hexact].
    simpl. field. intros H0. lra.
  - intros q p0 p1 e1 Hs H1.
    apply StoreFacts.portfolio_sell_Some in Hs
      as (e0 & H0 & _ & [[_ ->]|[_ ->]]).
    + now rewrite lookup_delete_eq in H1.
    + rewrite lookup_insert_eq in H1. injection H1 as <-.
      exists e0. now repeat split.
  - intros q0 p0 ms p [Hq0 Hms] Hnone.
    unfold Ledger.apply_movements. cbn [fold_left Ledger.apply_movement].
    unfold Ledger.portfolio_buy. rewrite Hnone.
    set (e1 := {| Ledger.quantity := q0; Ledger.avg_buy_price := p0;
                  Ledger.cost_basis_numerator := (q0 * p0)%Q |}).
    destruct (LedgerFacts.apply_movements_existing quantize k ms
                (<[k := e1]> p) e1 (0 + q0)%Q (lookup_insert_eq p k e1)
                ltac:(cbn [Ledger.quantity e1]; ring) Hms)
      as (e & Hlk & Hqty & Hnum & Havg).
    exists e. cbn [Ledger.quantity Ledger.cost_basis_numerator e1] in *.
    split; [exact Hlk|].
    split; [rewrite Hqty; simpl; ring|].
    split; [rewrite Hnum; simpl; ring|].
    exact Havg.
Qed.

(** Scenarios A and B of the design: 0.01 BTCUSDT bought at 50000 and
    again at 60000 leave 0.02 at an average of 55000. *)
Lemma buy_fills_weighted_average_witness :
  exists e,
    Ledger.buy_all Ledger.sample_quantize ("u1", "BTCUSDT")
      [((1 # 100)%Q, (50000 # 1)%Q); ((1 # 100)%Q, (60000 # 1)%Q)] ∅
    !! ("u1", "BTCUSDT") = Some e
    /\ (Ledger.quantity e == 2 # 100)%Q
    /\ (Ledger.avg_buy_price e == 55000 # 1)%Q.
Proof.
  destruct (proj1 (buy_fills_weighted_average Ledger.sample_quantize
                     ("u1", "BTCUSDT"))
              ((1 # 100)%Q, (50000 # 1)%Q) [((1 # 100)%Q, (60000 # 1)%Q)] ∅
              ltac:(repeat constructor) (lookup_empty _))
    as (e & Hlk & Hqty & Hnum & Havg & _).
  exists e. split; [exact Hlk|]. split.
  - rewrite Hqty. reflexivity.
  - vm_compute in Hlk. injection Hlk as <-. reflexivity.
Defined.

(** One unit bought at 1 and two bought at 2 have the weighted mean 5/3,
    which no decimal field holds: a field of eight decimals stores
    1.66666667. *)
Example average_is_rounded :
  exists e,
    Ledger.buy_all Ledger.sample_quantize ("u1", "BTCUSDT")
      [(1%Q, 1%Q); (2%Q, 2%Q)] ∅ !! ("u1", "BTCUSDT") = Some e
    /\ (Ledger.avg_buy_price e == 166666667 # 100000000)%Q
    /\ ~ (Ledger.avg_buy_price e == 5 # 3)%Q.
Proof.
  eexists. split; [vm_compute; reflexivity|].
  split; [reflexivity|]. vm_compute. discriminate.
Qed.

(** C1 fails as stated: 2 units bought at 100, 1 sold, 1 more bought at
    100.  Every BUY was at 100, and the entry ends with an average of 150:
    the SELL left the numerator at 200, and the second BUY divides 300 by
    the 2 units held. *)
Lemma interleaved_sell_raises_average :
  ~ (forall (quantize : Q -> Q) (k : string * string)
            (ms : list Ledger.Movement)
            (p : gmap (string * string) Ledger.PortfolioEntry),
        Ledger.partial_sells 0 ms -> ms <> [] -> p !! k = None ->
        exists e,
          Ledger.apply_movements quantize k ms p !! k = Some e
          /\ (Ledger.avg_buy_price e == Ledger.cost ms / Ledger.bought ms)%Q).
Proof.
  intros claim.
  destruct (claim Ledger.sample_quantize ("u1", "BTCUSDT")
              [Ledger.Bought 2 (100 # 1); Ledger.Sold 1;
               Ledger.Bought 1 (100 # 1)] ∅
              ltac:(vm_compute; repeat split) ltac:(discriminate)
              (lookup_empty _))
    as (e & Hlk & Havg).
  vm_compute in Hlk. injection Hlk as <-.
  vm_compute in Havg. discriminate Havg.
Qed.

(** C2 (as the model has it): a SELL of more than the held quantity never
    changes the PortfolioEntry or the CreditsAccount.  The conditional
    decrement refuses it.  A worker that decides on such an Order writes
    nothing but the status of the Order, REJECTED with
    [InsufficientHoldings] for a MARKET order and OPEN for a LIMIT order
    (section 4.2); a worker whose decision came before the holding shrank
    is refused by the conditional decrement and marks the Order REJECTED,
    again without any other write.  In every state that the worker pool
    reaches, whatever the interleaving, the crashes and the re-deliveries,
    every PortfolioEntry that exists holds a positive quantity, and a SELL
    of exactly the held quantity deletes the entry. *)
Theorem sell_beyond_holdings_rejected :
  forall (quantize : Q -> Q) (fee : Q -> Q -> Q),
    (forall (k : string * string) (q : Q)
            (p : gmap (string * string) Ledger.PortfolioEntry),
        (0 < q)%Q -> (Ledger.held p k < q)%Q ->
        Ledger.portfolio_sell k q p = None)
    /\ (forall (oid : nat) (price : Q) (sys : Pipeline.System)
               (o : Pipeline.Order),
           let r := Pipeline.trade_request o in
           Pipeline.orders sys !! oid = Some o ->
           Pipeline.status o = Ledger.PRICING ->
           Pipeline.valid_request r = true ->
           Pipeline.side r = Ledger.SELL ->
           (Ledger.held (Ledger.portfolio (Pipeline.store sys))
                        (Pipeline.user_id r, Pipeline.symbol r)
            < Pipeline.req_quantity r)%Q ->
           exists j' sys' o',
             Pipeline.advance quantize fee (Pipeline.Deciding oid price) sys
             = Some (j', sys')
             /\ Pipeline.unfinished j' = false
             /\ Pipeline.store sys' = Pipeline.store sys
             /\ Pipeline.transactions sys' = Pipeline.transactions sys
             /\ Pipeline.history sys' = Pipeline.history sys
             /\ Pipeline.orders sys' !! oid = Some o'
             /\ match Pipeline.order_type r with
                | Ledger.MARKET =>
                    Pipeline.status o' = Ledger.REJECTED
                    /\ Pipeline.rejection_reason o'
                       = Some Ledger.InsufficientHoldings
                | Ledger.LIMIT => Pipeline.status o' = Ledger.OPEN
                end)
    /\ (forall (oid : nat) (u sym : string) (q price seen : Q)
               (sys : Pipeline.System) (o : Pipeline.Order),
           Pipeline.orders sys !! oid = Some o ->
           (0 < q)%Q ->
           (Ledger.held (Ledger.portfolio (Pipeline.store sys)) (u, sym)
            < q)%Q ->
           exists j' sys' o',
             Pipeline.advance quantize fee
               (Pipeline.Mutating (Some oid)
                  {| Ledger.op := Ledger.OpSell u sym q price;
                     Ledger.phase := Ledger.Start |} seen) sys
             = Some (j', sys')
             /\ Pipeline.unfinished j' = false
             /\ Pipeline.store sys' = Pipeline.store sys
             /\ Pipeline.transactions sys' = Pipeline.transactions sys
             /\ Pipeline.history sys' = Pipeline.history sys
             /\ Pipeline.orders sys' !! oid = Some o'
             /\ Pipeline.status o' = Ledger.REJECTED
             /\ Pipeline.rejection_reason o'
                = Some Ledger.InsufficientHoldings)
    /\ (forall (actions : list Pipeline.Action) (sys : Pipeline.System)
               (js : list Pipeline.Job),
           Pipeline.interleave quantize fee actions (Pipeline.initial, [])
           = (sys, js) ->
           Ledger.holdings_positive (Ledger.portfolio (Pipeline.store sys)))
    /\ (forall (k : string * string) (q : Q)
               (p : gmap (string * string) Ledger.PortfolioEntry)
               (e : Ledger.PortfolioEntry),
           p !! k = Some e -> (Ledger.quantity e == q)%Q ->
           Ledger.portfolio_sell k q p = Some (delete k p)).
Proof.
  intros quantize fee.
  assert (Hle : forall a b : Q, (a < b)%Q -> Qle_bool b a = false).
  { intros a b Hlt. destruct (Qle_bool b a) eqn:E; [|reflexivity].
    apply Qle_bool_iff in E. exfalso. lra. }
  split; [|split; [|split; [|split]]].
  - intros k q p Hq Hlt. now apply StoreFacts.portfolio_sell_None.
  - intros oid price sys o r Ho Hst Hv Hside Hlt. subst r.
    unfold Pipeline.advance, Pipeline.settle.
    rewrite Ho, Hst, Hv. cbn [negb].
    unfold Pipeline.fill_condition. rewrite Hside, (Hle _ _ Hlt).
    rewrite andb_false_r.
    destruct (Pipeline.order_type (Pipeline.trade_request o));
      eexists _, _, _; (split; [reflexivity|]);
      cbn [Pipeline.unfinished Pipeline.store Pipeline.transactions
           Pipeline.history Pipeline.orders Pipeline.set_order];
      rewrite lookup_insert_eq; repeat split.
  - intros oid u sym q price seen sys o Ho Hq Hlt.
    unfold Pipeline.advance, Pipeline.settle, Ledger.worker_step.
    cbn [Ledger.phase Ledger.op].
    rewrite (proj2 (StoreFacts.portfolio_sell_None _ _ _ Hq) Hlt).
    cbn [Ledger.phase]. rewrite Ho.
    eexists _, _, _. split; [reflexivity|].
    cbn [Pipeline.unfinished Pipeline.store Pipeline.transactions
         Pipeline.history Pipeline.orders Pipeline.set_order
         Pipeline.set_store].
    rewrite lookup_insert_eq. repeat split.
  - intros actions sys js Hrun.
    pose proof (PoolFacts.interleave_pool_ok quantize fee actions
                  _ PoolFacts.pool_ok_initial) as (_ & _ & Hp & _).
    now rewrite Hrun in Hp.
  - intros k q p e He Heq. unfold Ledger.portfolio_sell. rewrite He.
    assert (H1 : Qle_bool q (Ledger.quantity e) = true).
    { apply Qle_bool_iff. lra. }
    assert (H2 : Qeq_bool (Ledger.quantity e - q) 0 = true).
    { apply Qeq_bool_iff. lra. }
    now rewrite H1, H2.
Qed.

(** Scenario C of the design: the 0.02 BTCUSDT held are sold, and the
    entry is gone; a SELL of 2 from an empty portfolio is refused. *)
Lemma sell_beyond_holdings_rejected_witness :
  Ledger.portfolio_sell ("u1", "BTCUSDT") 2 ∅ = None
  /\ Ledger.portfolio_sell ("u1", "BTCUSDT") (2 # 100)
       {[ ("u1", "BTCUSDT") :=
            {| Ledger.quantity := 2 # 100;
               Ledger.avg_buy_price := 55000 # 1;
               Ledger.cost_basis_numerator := 1100 # 1 |} ]}
     = Some ∅.
Proof.
  split.
  - apply (proj1 (sell_beyond_holdings_rejected Ledger.sample_quantize
                    Pipeline.sample_fee));
      reflexivity.
  - rewrite (proj2 (proj2 (proj2 (proj2 (sell_beyond_holdings_rejected
               Ledger.sample_quantize Pipeline.sample_fee))))
               ("u1", "BTCUSDT") (2 # 100)%Q _
               {| Ledger.quantity := 2 # 100;
                  Ledger.avg_buy_price := 55000 # 1;
                  Ledger.cost_basis_numerator := 1100 # 1 |});
      [|apply lookup_singleton_eq|reflexivity].
    now rewrite delete_singleton_eq.
Defined.

(** C2 fails as stated: a LIMIT SELL of 2 BTCUSDT by a user who holds
    none.  Nothing is written to the ledger, but the Order is not
    rejected: it stays OPEN, as section 4.2 has it for a LIMIT order whose
    fill condition does not hold. *)
Lemma oversold_limit_sell_stays_open :
  ~ (forall (quantize : Q -> Q) (fee : Q -> Q -> Q)
            (r : Pipeline.TradeRequest) (price : Q) (sys sys' : Pipeline.System)
            (result : Pipeline.OrderResult),
        Pipeline.side r = Ledger.SELL ->
        Pipeline.valid_request r = true ->
        (Ledger.held (Ledger.portfolio (Pipeline.store sys))
                     (Pipeline.user_id r, Pipeline.symbol r)
         < Pipeline.req_quantity r)%Q ->
        Pipeline.process quantize fee r price sys = (Some result, sys') ->
        Pipeline.result_status result = Ledger.REJECTED).
Proof.
  intros claim.
  set (r := {| Pipeline.idempotency_key := "k1"; Pipeline.user_id := "u1";
               Pipeline.symbol := "BTCUSDT"; Pipeline.side := Ledger.SELL;
               Pipeline.order_type := Ledger.LIMIT;
               Pipeline.req_quantity := 2;
               Pipeline.limit_price := Some (90 # 1)%Q |}).
  destruct (Pipeline.process Ledger.sample_quantize Pipeline.sample_fee
              r (100 # 1)%Q Pipeline.initial) as [[result|] sys'] eqn:Hp;
    [|vm_compute in Hp; discriminate Hp].
  pose proof (claim Ledger.sample_quantize Pipeline.sample_fee r (100 # 1)%Q
                Pipeline.initial sys' result eq_refl eq_refl eq_refl Hp)
    as Hrej.
  vm_compute in Hp. injection Hp as <- _.
  discriminate Hrej.
Qed.

(** C4 (as the model has it): the conditional decrement of a balance
    refuses an amount above the balance.  A worker that decides on a BUY
    whose required funds [q * price + fee] exceed the balance writes
    nothing but the status of the Order, REJECTED with [InsufficientFunds]
    for a MARKET order and OPEN for a LIMIT order; a worker whose decision
    came before the balance shrank is refused by the conditional decrement
    and marks the Order REJECTED, without any other write.  Provided no
    fee exceeds the amount traded, and prices and deposits are not
    negative, every balance is at least 0 in every state that the worker
    pool reaches, between any two atomic writes of any interleaving. *)
Theorem balance_never_negative :
  forall (quantize : Q -> Q) (fee : Q -> Q -> Q),
    (forall (u : string) (amount : Q) (c : gmap string Q),
        (Ledger.balance_of c u < amount)%Q ->
        Ledger.credits_debit u amount c = None)
    /\ (forall (oid : nat) (price : Q) (sys : Pipeline.System)
               (o : Pipeline.Order),
           let r := Pipeline.trade_request o in
           Pipeline.orders sys !! oid = Some o ->
           Pipeline.status o = Ledger.PRICING ->
           Pipeline.valid_request r = true ->
           Pipeline.side r = Ledger.BUY ->
           (Ledger.balance_of (Ledger.credits (Pipeline.store sys))
                              (Pipeline.user_id r)
            < Ledger.buy_total fee (Pipeline.req_quantity r) price)%Q ->
           exists j' sys' o',
             Pipeline.advance quantize fee (Pipeline.Deciding oid price) sys
             = Some (j', sys')
             /\ Pipeline.unfinished j' = false
             /\ Pipeline.store sys' = Pipeline.store sys
             /\ Pipeline.transactions sys' = Pipeline.transactions sys
             /\ Pipeline.history sys' = Pipeline.history sys
             /\ Pipeline.orders sys' !! oid = Some o'
             /\ match Pipeline.order_type r with
                | Ledger.MARKET =>
                    Pipeline.status o' = Ledger.REJECTED
                    /\ Pipeline.rejection_reason o'
                       = Some Ledger.InsufficientFunds
                | Ledger.LIMIT => Pipeline.status o' = Ledger.OPEN
                end)
    /\ (forall (oid : nat) (u sym : string) (q price seen : Q)
               (sys : Pipeline.System) (o : Pipeline.Order),
           Pipeline.orders sys !! oid = Some o ->
           (Ledger.balance_of (Ledger.credits (Pipeline.store sys)) u
            < Ledger.buy_total fee q price)%Q ->
           exists j' sys' o',
             Pipeline.advance quantize fee
               (Pipeline.Mutating (Some oid)
                  {| Ledger.op := Ledger.OpBuy u sym q price;
                     Ledger.phase := Ledger.Start |} seen) sys
             = Some (j', sys')
             /\ Pipeline.unfinished j' = false
             /\ Pipeline.store sys' = Pipeline.store sys
             /\ Pipeline.transactions sys' = Pipeline.transactions sys
             /\ Pipeline.history sys' = Pipeline.history sys
             /\ Pipeline.orders sys' !! oid = Some o'
             /\ Pipeline.status o' = Ledger.REJECTED
             /\ Pipeline.rejection_reason o'
                = Some Ledger.InsufficientFunds)
    /\ ((forall q price,
            (0 < q)%Q -> (0 <= price)%Q -> (fee q price <= q * price)%Q) ->
        forall (actions : list Pipeline.Action) (sys : Pipeline.System)
               (js : list Pipeline.Job),
          Forall Pipeline.solvent_action actions ->
          Pipeline.interleave quantize fee actions (Pipeline.initial, [])
          = (sys, js) ->
          Ledger.balances_nonneg (Ledger.credits (Pipeline.store sys))).
Proof.
  intros quantize fee.
  assert (Hle : forall a b : Q, (a < b)%Q -> Qle_bool b a = false).
  { intros a b Hlt. destruct (Qle_bool b a) eqn:E; [|reflexivity].
    apply Qle_bool_iff in E. exfalso. lra. }
  split; [|split; [|split]].
  - intros u amount c Hlt. now apply StoreFacts.credits_debit_None.
  - intros oid price sys o r Ho Hst Hv Hside Hlt. subst r.
    unfold Pipeline.advance, Pipeline.settle.
    rewrite Ho, Hst, Hv. cbn [negb].
    unfold Pipeline.fill_condition. rewrite Hside, (Hle _ _ Hlt).
    rewrite andb_false_r.
    destruct (Pipeline.order_type (Pipeline.trade_request o));
      eexists _, _, _; (split; [reflexivity|]);
      cbn [Pipeline.unfinished Pipeline.store Pipeline.transactions
           Pipeline.history Pipeline.orders Pipeline.set_order];
      rewrite lookup_insert_eq; repeat split.
  - intros oid u sym q price seen sys o Ho Hlt.
    unfold Pipeline.advance, Pipeline.settle, Ledger.worker_step.
    cbn [Ledger.phase Ledger.op].
    rewrite (proj2 (StoreFacts.credits_debit_None _ _ _) Hlt).
    cbn [Ledger.phase]. rewrite Ho.
    eexists _, _, _. split; [reflexivity|].
    cbn [Pipeline.unfinished Pipeline.store Pipeline.transactions
         Pipeline.history Pipeline.orders Pipeline.set_order
         Pipeline.set_store].
    rewrite lookup_insert_eq. repeat split.
  - intros Hfee actions sys js Hall Hrun.
    pose proof (PoolFacts.interleave_solvent quantize fee Hfee actions
                  (Pipeline.initial, []) Hall
                  (conj (proj1 StoreFacts.empty_store_ok)
                        (List.Forall_nil _))) as [Hc _].
    now rewrite Hrun in Hc.
Qed.

(** Scenario A of the design, with the fee of 0.1 percent: a deposit of
    1000 and a BUY of 0.01 BTCUSDT at 50000, one worker after the other.
    No balance is negative. *)
Lemma balance_never_negative_witness :
  let actions :=
    Pipeline.schedule_of 0
      [Pipeline.Submit (Pipeline.Deposit "u1" (1000 # 1));
       Pipeline.Submit
         (Pipeline.Process
            {| Pipeline.idempotency_key := "k1";
               Pipeline.user_id := "u1";
               Pipeline.symbol := "BTCUSDT";
               Pipeline.side := Ledger.BUY;
               Pipeline.order_type := Ledger.MARKET;
               Pipeline.req_quantity := 1 # 100;
               Pipeline.limit_price := None |}
            (50000 # 1)%Q)] in
  Ledger.balances_nonneg
    (Ledger.credits
       (Pipeline.store
          (fst (Pipeline.interleave Ledger.sample_quantize Pipeline.sample_fee
                  actions (Pipeline.initial, []))))).
Proof.
  intros actions.
  apply (proj2 (proj2 (proj2 (balance_never_negative Ledger.sample_quantize
                                Pipeline.sample_fee)))
           PoolFacts.sample_fee_bounded actions _
           (snd (Pipeline.interleave Ledger.sample_quantize
                   Pipeline.sample_fee actions (Pipeline.initial, []))));
    [|apply surjective_pairing].
  repeat constructor; vm_compute; discriminate.
Defined.

(** C4 fails as stated: with a flat fee of 1, a deposit of 2, a BUY of 1
    unit at 1 and a SELL of that unit at 1/2, each carried out before the
    next starts.  The SELL credits [1 * 1/2 - 1]: the balance ends at
    -1/2. *)
Lemma flat_fee_sell_overdraws :
  ~ (forall (quantize : Q -> Q) (fee : Q -> Q -> Q)
            (actions : list Pipeline.Action) (sys : Pipeline.System)
            (js : list Pipeline.Job) (u : string),
        Forall Pipeline.solvent_action actions ->
        Pipeline.interleave quantize fee actions (Pipeline.initial, [])
        = (sys, js) ->
        (0 <= Ledger.balance_of (Ledger.credits (Pipeline.store sys)) u)%Q).
Proof.
  intros claim.
  set (order := fun key side =>
         {| Pipeline.idempotency_key := key; Pipeline.user_id := "u1";
            Pipeline.symbol := "BTCUSDT"; Pipeline.side := side;
            Pipeline.order_type := Ledger.MARKET;
            Pipeline.req_quantity := 1; Pipeline.limit_price := None |}).
  set (actions := Pipeline.schedule_of 0
         [Pipeline.Submit (Pipeline.Deposit "u1" 2);
          Pipeline.Submit (Pipeline.Process (order "k1"%string Ledger.BUY) 1);
          Pipeline.Submit
            (Pipeline.Process (order "k2"%string Ledger.SELL) (1 # 2)%Q)]).
  pose proof (claim Ledger.sample_quantize Pipeline.flat_fee actions _ _ "u1"%string
                ltac:(repeat constructor; vm_compute; discriminate)
                (surjective_pairing _)) as H.
  vm_compute in H. now apply H.
Qed.






(** C6 (as the model has it): [N] workers each process a BUY of quantity 1
    at price [P] for the same [(user_id, symbol)], the cost [P + fee] of one
    unit is not negative and the starting balance covers [N * (P + fee)].
    Then in every interleaving of their atomic writes: once all workers have
    finished, every BUY has succeeded, the held quantity has grown by
    exactly [N] (it is exactly [N] when there was no entry) and the balance
    has decreased by exactly [N * (P + fee)]; until then some worker can
    always take its next write, and every write brings the pool closer to
    the end, so every interleaving finishes. *)
Theorem concurrent_buys_no_lost_update :
  forall (quantize : Q -> Q) (fee : Q -> Q -> Q) (u sym : string) (P : Q)
         (N : nat) (s0 s : Ledger.Store) (ws : list Ledger.Worker),
    (0 <= Ledger.buy_total fee 1 P)%Q ->
    (inject_Z (Z.of_nat N) * Ledger.buy_total fee 1 P
     <= Ledger.balance_of (Ledger.credits s0) u)%Q ->
    rtc (Ledger.workers_step quantize fee)
        (s0, Ledger.workers_for (Ledger.OpBuy u sym 1 P) N) (s, ws) ->
    (forallb Ledger.finished ws = true ->
     Forall (fun w => Ledger.phase w = Ledger.Succeeded) ws
     /\ (Ledger.held (Ledger.portfolio s) (u, sym)
         == Ledger.held (Ledger.portfolio s0) (u, sym)
            + inject_Z (Z.of_nat N))%Q
     /\ (Ledger.portfolio s0 !! (u, sym) = None ->
         (Ledger.held (Ledger.portfolio s) (u, sym)
          == inject_Z (Z.of_nat N))%Q)
     /\ (Ledger.balance_of (Ledger.credits s) u
         == Ledger.balance_of (Ledger.credits s0) u
            - inject_Z (Z.of_nat N) * (P + fee 1 P))%Q)
    /\ (forallb Ledger.finished ws = false ->
        exists st', Ledger.workers_step quantize fee (s, ws) st')
    /\ (forall st', Ledger.workers_step quantize fee (s, ws) st' ->
                    (Ledger.pool_writes_left (snd st')
                     < Ledger.pool_writes_left ws)%nat).
Proof.
  intros quantize fee u sym P N s0 s ws Hcost Hfunded Hrun.
  pose proof (ConcurrencyFacts.buys_in_flight_reachable
                quantize fee u sym 1 P N s0 Hcost Hfunded _ Hrun) as Hinv.
  split; [|split].
  - intros Hfin.
    destruct (ConcurrencyFacts.buys_in_flight_finished
                fee u sym 1 P N s0 s ws Hinv Hfin) as (Hall & Hbal & Hheld).
    split; [exact Hall|]. split; [rewrite Hheld; ring|]. split.
    + intros Hnone. rewrite Hheld. unfold Ledger.held at 1.
      rewrite Hnone. ring.
    + rewrite Hbal. unfold Ledger.buy_total. ring.
  - intros Hfin.
    exact (ConcurrencyFacts.buys_in_flight_progress
             quantize fee u sym 1 P N s0 s ws Hinv Hfin).
  - intros st' Hstep.
    exact (ConcurrencyFacts.workers_step_decreases quantize fee (s, ws) st' Hstep).
Qed.

(** Two workers, balance 1000, price 100, fee 0.1: the first worker debits,
    the second debits and writes, the first writes.  The holding is 2 and
    the balance is down by 2 * 100.1. *)
Lemma concurrent_buys_no_lost_update_witness :
  let s0 := {| Ledger.portfolio := ∅;
               Ledger.credits := {[ "u1" := 1000 # 1 ]} |} in
  exists s ws,
    rtc (Ledger.workers_step Ledger.sample_quantize Pipeline.sample_fee)
        (s0, Ledger.workers_for (Ledger.OpBuy "u1" "BTCUSDT" 1 (100 # 1)) 2)
        (s, ws)
    /\ forallb Ledger.finished ws = true
    /\ (Ledger.held (Ledger.portfolio s) ("u1", "BTCUSDT") == 2 # 1)%Q
    /\ (Ledger.balance_of (Ledger.credits s) "u1" == 7998 # 10)%Q.
Proof.
  intros s0.
  assert (Hrun : exists s ws,
             rtc (Ledger.workers_step Ledger.sample_quantize Pipeline.sample_fee)
                 (s0, Ledger.workers_for
                        (Ledger.OpBuy "u1" "BTCUSDT" 1 (100 # 1)) 2)
                 (s, ws)
             /\ forallb Ledger.finished ws = true).
  { eexists _, _. split.
    - eapply rtc_l;
        [eapply (Ledger.workers_write Ledger.sample_quantize Pipeline.sample_fee _ _ _ 0%nat);
         reflexivity|].
      eapply rtc_l;
        [eapply (Ledger.workers_write Ledger.sample_quantize Pipeline.sample_fee _ _ _ 1%nat);
         reflexivity|].
      eapply rtc_l;
        [eapply (Ledger.workers_write Ledger.sample_quantize Pipeline.sample_fee _ _ _ 1%nat);
         reflexivity|].
      eapply rtc_l;
        [eapply (Ledger.workers_write Ledger.sample_quantize Pipeline.sample_fee _ _ _ 0%nat);
         reflexivity|].
      apply rtc_refl.
    - reflexivity. }
  destruct Hrun as (s & ws & Hrun & Hfin).
  exists s, ws. split; [exact Hrun|]. split; [exact Hfin|].
  destruct (proj1 (concurrent_buys_no_lost_update Ledger.sample_quantize
                     Pipeline.sample_fee
                     "u1" "BTCUSDT" (100 # 1)%Q 2 s0 s ws
                     ltac:(vm_compute; discriminate)
                     ltac:(vm_compute; discriminate) Hrun) Hfin)
    as (_ & _ & Hheld & Hbal).
  split.
  - rewrite (Hheld (lookup_empty _)). reflexivity.
  - rewrite Hbal. reflexivity.
Defined.

(** C6 fails as stated: one worker, no funds.  The BUY is rejected, and
    when the worker has finished nothing is held. *)
Lemma concurrent_buys_need_funds :
  ~ (forall (quantize : Q -> Q) (fee : Q -> Q -> Q) (u sym : string)
            (P : Q) (N : nat) (s0 s : Ledger.Store)
            (ws : list Ledger.Worker),
        (1 <= N)%nat ->
        Ledger.portfolio s0 !! (u, sym) = None ->
        rtc (Ledger.workers_step quantize fee)
            (s0, Ledger.workers_for (Ledger.OpBuy u sym 1 P) N) (s, ws) ->
        forallb Ledger.finished ws = true ->
        (Ledger.held (Ledger.portfolio s) (u, sym) == inject_Z (Z.of_nat N))%Q
        /\ (Ledger.balance_of (Ledger.credits s) u
            == Ledger.balance_of (Ledger.credits s0) u
               - inject_Z (Z.of_nat N) * (P + fee 1 P))%Q).
Proof.
  intros claim.
  destruct (claim Ledger.sample_quantize Pipeline.sample_fee "u1" "BTCUSDT" (100 # 1)%Q 1%nat
              Ledger.empty_store Ledger.empty_store
              [{| Ledger.op := Ledger.OpBuy "u1" "BTCUSDT" 1 (100 # 1);
                  Ledger.phase := Ledger.Failed Ledger.InsufficientFunds |}]
              (le_n 1) (lookup_empty _)) as [Hheld _].
  - eapply rtc_l; [|apply rtc_refl].
    apply (Ledger.workers_write Ledger.sample_quantize Pipeline.sample_fee
             Ledger.empty_store Ledger.empty_store
             [{| Ledger.op := Ledger.OpBuy "u1" "BTCUSDT" 1 (100 # 1);
                 Ledger.phase := Ledger.Start |}] 0
             {| Ledger.op := Ledger.OpBuy "u1" "BTCUSDT" 1 (100 # 1);
                Ledger.phase := Ledger.Start |}
             {| Ledger.op := Ledger.OpBuy "u1" "BTCUSDT" 1 (100 # 1);
                Ledger.phase := Ledger.Failed Ledger.InsufficientFunds |});
      reflexivity.
  - reflexivity.
  - vm_compute in Hheld. discriminate Hheld.
Qed.

(** * Further properties of the components *)

(** X1: with an empty result ([total <= 0]) the page count is not positive,
    so on every page from 1 on the Next button is enabled, and [n] clicks on
    it lead from [page] to [page + n]. *)
Theorem next_enabled_without_results :
  forall (total page : Z) (n : nat),
    total <= 0 ->
    1 <= page ->
    CryptoListPage.totalPages total <= 0
    /\ CryptoListPage.next_disabled page total = false
    /\ CryptoListPage.run_clicks total page (repeat CryptoListPage.Next n)
       = page + Z.of_nat n.
Proof.
  intros total page n Htotal Hpage.
  assert (Hpages : CryptoListPage.totalPages total <= 0).
  { pose proof (CryptoListPageFacts.totalPages_bounds total) as H.
    unfold CryptoListPage.pageSize in H. lia. }
  split; [exact Hpages|]. split.
  - unfold CryptoListPage.next_disabled. apply Z.eqb_neq. lia.
  - revert page Hpage. induction n as [|n IH]; intros page Hpage.
    + simpl. lia.
    + unfold CryptoListPage.run_clicks in *. cbn [repeat fold_left].
      unfold CryptoListPage.on_click at 2, CryptoListPage.next_disabled.
      destruct (Z.eqb_spec page (CryptoListPage.totalPages total)); [lia|].
      rewrite IH by lia. lia.
Qed.

(** A search without results: three clicks on Next reach page 4 of 0. *)
Lemma next_enabled_without_results_witness :
  CryptoListPage.totalPages 0 <= 0
  /\ CryptoListPage.next_disabled 1 0 = false
  /\ CryptoListPage.run_clicks 0 1 (repeat CryptoListPage.Next 3) = 1 + 3.
Proof.
  apply (next_enabled_without_results 0 1 3); lia.
Defined.

(** X2: the windows the list page requests tile the result: a page in
    range asks for a window that starts inside the [total] items, and every
    item [j] lies in the window of exactly one page, which is in range and
    numbers the item [j + 1]. *)
Theorem page_windows_tile_result :
  forall (total : Z),
    (forall page,
        CryptoListPage.page_in_range total page ->
        0 <= CryptoListData.skip page < total)
    /\ (forall j,
           0 <= j < total ->
           let page := j / CryptoListPage.pageSize + 1 in
           CryptoListPage.page_in_range total page
           /\ CryptoListData.skip page <= j
              < CryptoListData.skip page + CryptoListPage.pageSize
           /\ CryptoListData.row_number page (j - CryptoListData.skip page)
              = j + 1
           /\ (forall page',
                  CryptoListData.skip page' <= j
                  < CryptoListData.skip page' + CryptoListPage.pageSize ->
                  page' = page)).
Proof.
  intros total.
  pose proof (CryptoListPageFacts.totalPages_bounds total) as Hb.
  unfold CryptoListPage.page_in_range, CryptoListData.skip,
    CryptoListData.row_number, CryptoListPage.pageSize in *.
  split.
  - intros page Hpage. lia.
  - intros j Hj.
    pose proof (Z.div_mod j 10 ltac:(lia)) as Hdm.
    pose proof (Z.mod_pos_bound j 10 ltac:(lia)) as Hmod.
    assert (Hq : 0 <= j / 10) by (apply Z.div_pos; lia).
    repeat split; try lia.
Qed.

(** X3: as long as no price message parses to [null], [livePrices] holds,
    under every key, the coin of the latest message for that key, and what
    it held before when no message carried the key; pongs and messages
    that do not parse leave no trace.  A message that parses to [null] is
    not caught by the [try] of the handler: its state updater throws. *)
Theorem live_prices_latest_tick :
  forall (json_parse : string -> option JS.JSValue)
         (property_key : JS.JSValue -> string)
         (messages : list string) (prev : gmap string JS.JSValue),
    (forallb (fun data =>
                negb (CryptoListData.updater_throws json_parse data))
             messages = true ->
     exists livePrices,
       CryptoListData.on_price_messages json_parse property_key messages prev
       = Some livePrices
       /\ forall k,
            livePrices !! k
            = CryptoListData.last_tick json_parse property_key k messages
                (prev !! k))
    /\ (existsb (CryptoListData.updater_throws json_parse) messages = true ->
        CryptoListData.on_price_messages json_parse property_key messages prev
        = None).
Proof.
  intros json_parse property_key messages.
  induction messages as [|data rest IH]; intros prev; simpl.
  - split; [|discriminate]. intros _. exists prev. now split.
  - unfold CryptoListData.updater_throws at 1 3.
    unfold CryptoListData.on_price_message, CryptoListData.tick_for.
    destruct (String.eqb data "pong"); simpl.
    + destruct (IH prev) as [IH1 IH2]. split; [exact IH1|exact IH2].
    + destruct (json_parse data) as [coin|]; simpl.
      * destruct (CryptoListData.read_s coin) as [key|]; simpl.
        -- destruct (IH (<[property_key key := coin]> prev)) as [IH1 IH2].
           split; [|exact IH2].
           intros Hall. destruct (IH1 Hall) as (lp & Hrun & Hlp).
           exists lp. split; [exact Hrun|].
           intros k. rewrite Hlp. f_equal.
           rewrite lookup_insert.
           destruct (String.eqb_spec (property_key key) k) as [->|Hne].
           ++ now rewrite decide_True by reflexivity.
           ++ now rewrite decide_False by exact Hne.
        -- split; [discriminate|reflexivity].
      * destruct (IH prev) as [IH1 IH2]. split; [exact IH1|exact IH2].
Qed.

(** A tick for BTCUSDT between a pong and a message that does not parse
    is what [livePrices] holds afterwards. *)
Lemma live_prices_latest_tick_witness :
  let json_parse := fun data : string =>
    if String.eqb data "{}" then Some (JS.JObject [("s", JS.JString "BTCUSDT")])
    else None in
  let property_key := fun v =>
    match v with JS.JString t => t | _ => "undefined"%string end in
  exists livePrices,
    CryptoListData.on_price_messages json_parse property_key
      ["pong"; "{}"; "oops"]%string ∅ = Some livePrices
    /\ livePrices !! "BTCUSDT"%string
       = Some (JS.JObject [("s", JS.JString "BTCUSDT")]).
Proof.
  intros json_parse property_key.
  destruct (proj1 (live_prices_latest_tick json_parse property_key
                     ["pong"; "{}"; "oops"]%string ∅) eq_refl)
    as (lp & Hrun & Hlp).
  exists lp. split; [exact Hrun|].
  rewrite Hlp. reflexivity.
Defined.

(** X4: the Popular section has one slot per popular symbol, in the fixed
    order of [popularSymbols]; the filter of [fetchPopularCoins] changes
    nothing of what is shown: each slot holds the first item of the answer
    with that symbol, and is empty exactly when the answer has none. *)
Theorem popular_cards_first_match :
  forall (items : list CryptoListData.crypto),
    let cards :=
      CryptoListData.popular_cards (CryptoListData.fetchPopularCoins items) in
    cards
    = map (fun sym =>
             List.find (fun c => String.eqb (CryptoListData.symbol c) sym)
                       items)
          CryptoListData.popularSymbols
    /\ length cards = 5%nat
    /\ (forall i sym c,
           nth_error CryptoListData.popularSymbols i = Some sym ->
           nth_error cards i = Some (Some c) ->
           CryptoListData.symbol c = sym /\ In c items)
    /\ (forall i sym,
           nth_error CryptoListData.popularSymbols i = Some sym ->
           nth_error cards i = Some None ->
           forall c, In c items -> CryptoListData.symbol c <> sym).
Proof.
  intros items cards.
  assert (Hfind : forall sym,
             In sym CryptoListData.popularSymbols ->
             List.find (fun c => String.eqb (CryptoListData.symbol c) sym)
                       (CryptoListData.fetchPopularCoins items)
             = List.find (fun c => String.eqb (CryptoListData.symbol c) sym)
                         items).
  { intros sym Hsym. unfold CryptoListData.fetchPopularCoins.
    induction items as [|c rest IH]; cbn [List.filter List.find];
      [reflexivity|].
    destruct (String.eqb_spec (CryptoListData.symbol c) sym) as [Heq|Hne].
    - assert (Hinc : CryptoListData.includes CryptoListData.popularSymbols
                       (CryptoListData.symbol c) = true).
      { unfold CryptoListData.includes. apply existsb_exists.
        exists sym. split; [exact Hsym|]. now apply String.eqb_eq. }
      rewrite Hinc. cbn [List.find].
      destruct (String.eqb_spec (CryptoListData.symbol c) sym);
        [reflexivity|contradiction].
    - destruct (CryptoListData.includes _ _); cbn [List.find]; [|exact IH].
      destruct (String.eqb_spec (CryptoListData.symbol c) sym);
        [contradiction|exact IH]. }
  assert (Hcards : cards
                   = map (fun sym =>
                            List.find
                              (fun c => String.eqb (CryptoListData.symbol c) sym)
                              items)
                         CryptoListData.popularSymbols).
  { unfold cards, CryptoListData.popular_cards. apply map_ext_in.
    intros sym Hsym. now apply Hfind. }
  split; [exact Hcards|]. split; [now rewrite Hcards|].
  split.
  - intros i sym c Hsym Hcard. rewrite Hcards in Hcard.
    rewrite nth_error_map, Hsym in Hcard. simpl in Hcard.
    injection Hcard as Hcard. apply find_some in Hcard as [Hin Heq].
    split; [now apply String.eqb_eq|exact Hin].
  - intros i sym Hsym Hcard c Hin. rewrite Hcards in Hcard.
    rewrite nth_error_map, Hsym in Hcard. simpl in Hcard.
    injection Hcard as Hcard.
    pose proof (find_none _ _ Hcard c Hin) as Hne. simpl in Hne.
    now apply String.eqb_neq.
Qed.

(** The answer lists a coin that is not popular before two BTCUSDT items:
    the first slot shows the first of the two. *)
Lemma popular_cards_first_match_witness :
  let items := [ {| CryptoListData.symbol := "DOGEUSDT";
                    CryptoListData.base_asset := "DOGE" |};
                 {| CryptoListData.symbol := "BTCUSDT";
                    CryptoListData.base_asset := "BTC" |};
                 {| CryptoListData.symbol := "BTCUSDT";
                    CryptoListData.base_asset := "XBT" |} ] in
  CryptoListData.symbol
    {| CryptoListData.symbol := "BTCUSDT"; CryptoListData.base_asset := "BTC" |}
  = "BTCUSDT"
  /\ In {| CryptoListData.symbol := "BTCUSDT";
           CryptoListData.base_asset := "BTC" |} items.
Proof.
  intros items.
  apply (proj1 (proj2 (proj2 (popular_cards_first_match items)))
           0%nat "BTCUSDT"); reflexivity.
Defined.

(** Twenty-five coins: page 3 asks for the window from item 20 on, and
    item 24 is row 25 of that page. *)
Lemma page_windows_tile_result_witness :
  0 <= CryptoListData.skip 3 < 25
  /\ CryptoListData.row_number 3 (24 - CryptoListData.skip 3) = 25.
Proof.
  split.
  - apply (proj1 (page_windows_tile_result 25) 3).
    unfold CryptoListPage.page_in_range. vm_compute. split; discriminate.
  - apply (proj2 (page_windows_tile_result 25) 24). lia.
Defined.

(** X5: for a period of at least 1 the moving-average line has exactly
    [min (period - 1) (length data)] null entries; with fewer entries than
    the period every entry of the line is null. *)
Theorem calculateMA_nulls :
  forall (num : Type) (zero : num) (add : num -> num -> num)
         (div_by : num -> Z -> num) (data : list num) (period : Z),
    1 <= period ->
    CandleChart.nulls (MovingAverage.calculateMA zero add div_by data period)
    = Nat.min (Z.to_nat (period - 1)) (length data)
    /\ (Z.of_nat (length data) < period ->
        MovingAverage.calculateMA zero add div_by data period
        = map (fun _ => None) data).
Proof.
  intros num zero add div_by data period Hp.
  unfold MovingAverage.calculateMA, JSArray.mapi. split.
  - rewrite (MoreArrayFacts.mapi_from_nulls _ (period - 1)).
    + f_equal. lia.
    + intros x i. now destruct (i <? period - 1).
  - intros Hshort. apply MoreArrayFacts.mapi_from_const.
    intros x i Hi.
    destruct (Z.ltb_spec i (period - 1)) as [_|Hge]; [reflexivity|lia].
Qed.

(** Three closes and the period 7: the line is three nulls. *)
Lemma calculateMA_nulls_witness :
  MovingAverage.calculateMA 0%Q Qplus (fun s p => (s / inject_Z p)%Q)
    [1%Q; 2%Q; 3%Q] 7
  = [None; None; None].
Proof.
  apply (proj2 (calculateMA_nulls Q 0%Q Qplus (fun s p => (s / inject_Z p)%Q)
                  [1%Q; 2%Q; 3%Q] 7 ltac:(lia))).
  simpl. lia.
Defined.

(** X6: for a period of 0 or less no entry of the line is null: every
    window is empty, so every entry is the empty sum divided by the period
    ([0 / 0] for the period 0). *)
Theorem calculateMA_without_window :
  forall (num : Type) (zero : num) (add : num -> num -> num)
         (div_by : num -> Z -> num) (data : list num) (period : Z),
    period <= 0 ->
    MovingAverage.calculateMA zero add div_by data period
    = map (fun _ => Some (div_by zero period)) data.
Proof.
  intros num zero add div_by data period Hp.
  unfold MovingAverage.calculateMA, JSArray.mapi.
  apply MoreArrayFacts.mapi_from_const.
  intros x i Hi.
  destruct (Z.ltb_spec i (period - 1)) as [Hlt|_]; [lia|].
  cbv zeta. rewrite MoreArrayFacts.slice_backward by lia.
  reflexivity.
Qed.

(** The period 0 over two closes. *)
Lemma calculateMA_without_window_witness :
  MovingAverage.calculateMA 0%Q Qplus (fun s p => (s / inject_Z p)%Q)
    [1%Q; 2%Q] 0
  = [Some (0 / 0)%Q; Some (0 / 0)%Q].
Proof.
  apply (calculateMA_without_window Q 0%Q Qplus
           (fun s p => (s / inject_Z p)%Q) [1%Q; 2%Q] 0).
  lia.
Defined.

(** X7: the header of the order book cuts the symbol in two without losing
    a character: [symbol.slice(0, -4)] followed by [symbol.slice(-4)] is
    the symbol, and the quote part has [min 4 (length symbol)] characters
    (a symbol of at most 4 characters is all quote). *)
Theorem order_book_header_split :
  forall (symbol : list ascii),
    OrderBook.base_asset symbol ++ OrderBook.quote_asset symbol = symbol
    /\ length (OrderBook.quote_asset symbol) = Nat.min 4 (length symbol)
    /\ ((length symbol <= 4)%nat ->
        OrderBook.base_asset symbol = []
        /\ OrderBook.quote_asset symbol = symbol).
Proof.
  intros symbol.
  unfold OrderBook.base_asset, OrderBook.quote_asset, OrderBook.slice_from.
  pose proof (MoreArrayFacts.slice_front symbol 4 ltac:(lia)) as Hfront.
  pose proof (MoreArrayFacts.slice_back symbol 4 ltac:(lia)) as Hback.
  change (Z.opp 4) with (-4) in Hfront, Hback.
  rewrite Hfront, Hback.
  split; [apply firstn_skipn|]. split.
  - rewrite length_skipn. lia.
  - intros Hshort.
    replace (Z.to_nat (Z.of_nat (length symbol) - 4)) with 0%nat by lia.
    now rewrite skipn_O.
Qed.

(** The symbol [btcusdt] splits into [btc] and [usdt]; [bnb] is all
    quote. *)
Lemma order_book_header_split_witness :
  OrderBook.base_asset (String.list_ascii_of_string "btcusdt")
  = String.list_ascii_of_string "btc"
  /\ OrderBook.quote_asset (String.list_ascii_of_string "btcusdt")
     = String.list_ascii_of_string "usdt"
  /\ OrderBook.base_asset (String.list_ascii_of_string "bnb") = [].
Proof.
  split; [reflexivity|]. split; [reflexivity|].
  apply (proj2 (proj2 (order_book_header_split (String.list_ascii_of_string "bnb")))).
  simpl. lia.
Defined.

(** X8: once there is a history, the chart is drawn from [allCandles]: the
    three moving-average lines are as long as the time axis; the merge adds
    at most one candle and changes no historical candle but the last; an
    incomplete live candle is always the last candle of the chart; without
    one (none yet, or a complete one) the chart is the history.  Without a
    history the loading view is shown. *)
Theorem chart_series_aligned :
  forall (num : Type) (zero : num) (add : num -> num -> num)
         (div_by : num -> Z -> num) (time : Type)
         (getMinutes getHours getDate : time -> option Z)
         (candles : list (CandleChart.candle num time))
         (liveCandle : option (CandleChart.live num time)),
    candles <> [] ->
    let all :=
      CandleChart.allCandles getMinutes getHours getDate candles liveCandle in
    (exists s,
        CandleChart.render zero add div_by getMinutes getHours getDate
                           candles liveCandle = Some s
        /\ CandleChart.times s = map CandleChart.c_time all
        /\ CandleChart.closes s = map CandleChart.c_close all
        /\ length (CandleChart.ma7 s) = length (CandleChart.times s)
        /\ length (CandleChart.ma25 s) = length (CandleChart.times s)
        /\ length (CandleChart.ma99 s) = length (CandleChart.times s))
    /\ (length all = length candles \/ length all = S (length candles))
    /\ firstn (length candles - 1) all = firstn (length candles - 1) candles
    /\ (forall l, liveCandle = Some l -> CandleChart.isComplete l = false ->
                  all !! (length all - 1)%nat = Some (CandleChart.l_candle l))
    /\ ((liveCandle = None
         \/ exists l, liveCandle = Some l /\ CandleChart.isComplete l = true) ->
        all = candles)
    /\ CandleChart.render zero add div_by getMinutes getHours getDate
                          [] liveCandle = None.
Proof.
  intros num zero add div_by time getMinutes getHours getDate candles
         liveCandle Hne all.
  split.
  - unfold CandleChart.render.
    destruct candles as [|c rest]; [contradiction|].
    eexists. split; [reflexivity|]. cbn [CandleChart.times
      CandleChart.closes CandleChart.ma7 CandleChart.ma25 CandleChart.ma99].
    fold all. unfold MovingAverage.calculateMA, JSArray.mapi.
    rewrite !JSArrayFacts.mapi_from_length, !length_map.
    repeat split.
  - destruct (ChartFacts.allCandles_shape getMinutes getHours getDate
                candles liveCandle Hne) as (Hlen & Hpre & Hlast & Hsame).
    repeat (split; [assumption|]). reflexivity.
Qed.

(** A history of two candles at 10:00 and 10:01 of the 5th, and an
    incomplete live candle at 10:01: the live candle takes the place of the
    second, and the first is untouched. *)
Lemma chart_series_aligned_witness :
  let minute_of (t : Z) := Some (t mod 60) in
  let hour_of (t : Z) := Some (t / 60) in
  let day_of (t : Z) := Some 5 in
  let c (t : Z) (close : Q) :=
    {| CandleChart.c_time := t; CandleChart.c_open := close;
       CandleChart.c_high := close; CandleChart.c_low := close;
       CandleChart.c_close := close |} in
  let candles := [c 600 1%Q; c 601 2%Q] in
  let liveCandle := Some {| CandleChart.l_candle := c 601 3%Q;
                            CandleChart.isComplete := false |} in
  CandleChart.allCandles minute_of hour_of day_of candles liveCandle
  = [c 600 1%Q; c 601 3%Q]
  /\ firstn 1 (CandleChart.allCandles minute_of hour_of day_of candles
                                      liveCandle)
     = firstn 1 candles.
Proof.
  intros minute_of hour_of day_of c candles liveCandle.
  split; [reflexivity|].
  apply (proj1 (proj2 (proj2 (chart_series_aligned Q 0%Q Qplus
           (fun s p => (s / inject_Z p)%Q) Z minute_of hour_of day_of
           candles liveCandle ltac:(discriminate))))).
Defined.

(** X9: whatever the stream sends, the order book never shows more than 15
    levels a side; a depth message with both sides shows the first 15
    levels of each in feed order, parsed; a message that does not parse or
    lacks a side changes nothing; and when a shown side is empty the spread
    keeps its previous value. *)
Theorem order_book_depth :
  forall (mul sub div : JS.JSNum -> JS.JSNum -> JS.JSNum),
    (forall msgs,
        OrderBook.shallow
          (OrderBook.on_messages mul sub div msgs OrderBook.initial_book))
    /\ (forall feed_bids feed_asks b,
           let b' :=
             OrderBook.on_message mul sub div
               (Some {| OrderBook.d_bids := Some feed_bids;
                        OrderBook.d_asks := Some feed_asks |}) b in
           OrderBook.bids b'
           = map (OrderBook.parse_level mul) (firstn 15 feed_bids)
           /\ OrderBook.asks b'
              = map (OrderBook.parse_level mul) (firstn 15 feed_asks)
           /\ (feed_bids = [] \/ feed_asks = [] ->
               OrderBook.spread b' = OrderBook.spread b))
    /\ (forall msg b,
           (msg = None
            \/ exists d, msg = Some d
                         /\ (OrderBook.d_bids d = None
                             \/ OrderBook.d_asks d = None)) ->
           OrderBook.on_message mul sub div msg b = b).
Proof.
  intros mul sub div. split; [|split].
  - intros msgs. unfold OrderBook.on_messages.
    assert (Hgen : forall b,
               OrderBook.shallow b ->
               OrderBook.shallow
                 (fold_left (fun b msg => OrderBook.on_message mul sub div msg b)
                            msgs b)).
    { induction msgs as [|msg rest IH]; intros b Hb; simpl; [exact Hb|].
      apply IH. now apply OrderBookFacts.on_message_shallow. }
    apply Hgen. split; simpl; lia.
  - intros fb fa b b'. subst b'. cbn [OrderBook.on_message OrderBook.bids
      OrderBook.asks OrderBook.spread].
    rewrite !OrderBookFacts.top_levels_prefix.
    split; [reflexivity|]. split; [reflexivity|].
    intros [-> | ->]; simpl; [reflexivity|].
    now destruct (map _ _).
  - intros msg b [-> | (d & -> & Hside)]; [reflexivity|].
    destruct d as [fb fa]. simpl in Hside. unfold OrderBook.on_message.
    destruct Hside as [-> | ->]; [reflexivity|]. now destruct fb.
Qed.

(** A depth message with bids but no asks: the bids are shown and the
    spread of the initial book stays. *)
Lemma order_book_depth_witness :
  let mul (a b : JS.JSNum) := JS.NaN in
  OrderBook.spread
    (OrderBook.on_message mul mul mul
       (Some {| OrderBook.d_bids := Some [("100.5", "2")];
                OrderBook.d_asks := Some [] |})
       OrderBook.initial_book)
  = OrderBook.spread OrderBook.initial_book.
Proof.
  intros mul.
  apply (proj1 (proj2 (order_book_depth mul mul mul)) [("100.5", "2")] []
           OrderBook.initial_book).
  now right.
Defined.

(** X10: the user id is read from the second segment of the stored token
    alone: for a token [header.segment] followed by nothing or by a dot and
    anything, it is the truthy [sub] of the decoded segment and [null]
    otherwise, whatever the header and the signature are.  A segment that
    decodes to a JSON string has the inherited method
    [String.prototype.sub] as its [sub]: the user id is that function. *)
Theorem user_id_from_second_segment :
  forall (decode : string -> option JS.JSValue)
         (header segment tail : string),
    TokenShape.dotless header = true ->
    TokenShape.dotless segment = true ->
    TokenShape.token_tail tail ->
    Trade.getUserIdFromToken decode
      (Some (header ++ String "." (segment ++ tail))%string)
    = match decode segment with
      | None => JS.JNull
      | Some claims => JS.or_else (JS.optional_sub claims) JS.JNull
      end
    /\ (forall text,
          decode segment = Some (JS.JString text) ->
          Trade.getUserIdFromToken decode
            (Some (header ++ String "." (segment ++ tail))%string)
          = JS.JFunction "String.prototype.sub").
Proof.
  intros decode header segment tail Hh Hs Ht.
  unfold Trade.getUserIdFromToken.
  rewrite TokenFacts.token_not_empty.
  rewrite (TokenFacts.second_segment header segment tail Hh Hs Ht).
  split; [reflexivity|].
  intros text ->. reflexivity.
Qed.

(** Two tokens with the same payload segment and different header and
    signature name the same user. *)
Lemma user_id_from_second_segment_witness :
  Trade.getUserIdFromToken Trade.sample_decode (Some "h.eyJzdWIiOiJ1MSJ9.s")
  = Trade.getUserIdFromToken Trade.sample_decode
      (Some "other.eyJzdWIiOiJ1MSJ9.forged.sig").
Proof.
  transitivity (match Trade.sample_decode "eyJzdWIiOiJ1MSJ9" with
                | None => JS.JNull
                | Some claims =>
                    JS.or_else (JS.optional_sub claims) JS.JNull
                end).
  - exact (proj1 (user_id_from_second_segment Trade.sample_decode
             "h" "eyJzdWIiOiJ1MSJ9" ".s" eq_refl eq_refl
             (or_intror (ex_intro _ "s"%string eq_refl)))).
  - symmetry.
    exact (proj1 (user_id_from_second_segment Trade.sample_decode
             "other" "eyJzdWIiOiJ1MSJ9" ".forged.sig" eq_refl eq_refl
             (or_intror (ex_intro _ "forged.sig"%string eq_refl)))).
Defined.

(** X11: the user id that [getUserIdFromToken] returns is [null] or
    truthy, never another falsy value; so the test [!user_id || !token] of
    the handlers holds exactly when the user id is [null], and a token
    without a dot yields [null] as soon as the decoder rejects the text
    [undefined]. *)
Theorem user_id_null_or_truthy :
  forall (decode : string -> option JS.JSValue) (stored : option string),
    let user_id := Trade.getUserIdFromToken decode stored in
    (user_id = JS.JNull \/ JS.truthy user_id = true)
    /\ (Trade.not_authenticated user_id stored = true <-> user_id = JS.JNull)
    /\ (forall token,
           stored = Some token ->
           TokenShape.dotless token = true ->
           decode "undefined" = None ->
           user_id = JS.JNull).
Proof.
  intros decode stored user_id.
  pose proof (TokenFacts.user_id_cases decode stored) as Hcases.
  fold user_id in Hcases.
  split; [exact Hcases|]. split.
  - exact (TokenFacts.not_authenticated_null decode stored).
  - intros token -> Hdot Hundef. subst user_id.
    unfold Trade.getUserIdFromToken.
    destruct (JS.empty_string token); [reflexivity|].
    rewrite (TokenFacts.split_dotless_end token Hdot). simpl.
    now rewrite Hundef.
Qed.

(** The stored text [garbage] has no second segment: no user. *)
Lemma user_id_null_or_truthy_witness :
  Trade.getUserIdFromToken Trade.sample_decode (Some "garbage") = JS.JNull.
Proof.
  apply (proj2 (proj2 (user_id_null_or_truthy Trade.sample_decode
                         (Some "garbage"))) "garbage");
    reflexivity.
Defined.

(** X12: [handleAddToCart] never looks at the login: it posts to
    [/cart/add] exactly when a symbol is selected, the amount is non-empty
    and, for a LIMIT order, so is the price, with or without a stored token
    (without one the header reads [Bearer null]); the payload has the
    fields [symbol], [quantity], [order_type] and, for LIMIT, [price], and
    neither [user_id] nor [side]. *)
Theorem add_to_cart_without_login :
  forall (stored : option string) (p : BuySellTransferPage.state),
    ((exists url payload token,
         PageActions.handleAddToCart stored p = Trade.Post url payload token)
     <-> BuySellTransferPage.selectedCrypto p <> ""
         /\ BuySellTransferPage.tradeAmount p <> ""
         /\ (BuySellTransferPage.orderType p = "LIMIT" ->
             BuySellTransferPage.price p <> ""))
    /\ (forall url payload token,
           PageActions.handleAddToCart stored p = Trade.Post url payload token ->
           url = "http://localhost:8000/cart/add"
           /\ token = match stored with Some t => t | None => "null" end
           /\ JS.keys payload
              = ["symbol"; "quantity"; "order_type"]
                  ++ (if String.eqb (BuySellTransferPage.orderType p) "LIMIT"
                      then ["price"] else [])
           /\ JS.get_field payload "quantity"
              = Some (JS.JNumber
                        (JS.parseFloat (BuySellTransferPage.tradeAmount p)))
           /\ JS.get_field payload "user_id" = None
           /\ JS.get_field payload "side" = None).
Proof.
  intros stored p. unfold PageActions.handleAddToCart, JS.empty_string.
  split; [split|].
  - intros (url & payload & token & H).
    destruct (String.eqb_spec (BuySellTransferPage.selectedCrypto p) "");
      [discriminate|].
    destruct (String.eqb_spec (BuySellTransferPage.tradeAmount p) "");
      [discriminate|].
    do 2 (split; [assumption|]). intros HL. rewrite HL in H.
    destruct (String.eqb_spec (BuySellTransferPage.price p) "");
      [discriminate|assumption].
  - intros (Hsym & Hamt & Hpr).
    destruct (String.eqb_spec (BuySellTransferPage.selectedCrypto p) "");
      [contradiction|].
    destruct (String.eqb_spec (BuySellTransferPage.tradeAmount p) "");
      [contradiction|].
    destruct (String.eqb_spec (BuySellTransferPage.orderType p) "LIMIT")
      as [HL|HL].
    + destruct (String.eqb_spec (BuySellTransferPage.price p) "");
        [now apply Hpr in HL|].
      simpl. repeat eexists.
    + simpl. repeat eexists.
  - intros url payload token H.
    match type of H with (if ?c then _ else _) = _ => destruct c end;
      [discriminate|].
    injection H as <- <- <-.
    destruct (String.eqb (BuySellTransferPage.orderType p) "LIMIT");
      repeat split; now destruct stored.
Qed.

(** Nobody is logged in and a market order of 2 BTCUSDT is in the form:
    the request goes out with the header [Bearer null]. *)
Lemma add_to_cart_without_login_witness :
  PageActions.handleAddToCart None
    {| BuySellTransferPage.selectedCrypto := "BTCUSDT";
       BuySellTransferPage.orderType := "MARKET";
       BuySellTransferPage.tradeAmount := "2";
       BuySellTransferPage.price := "" |}
  = Trade.Post "http://localhost:8000/cart/add"
      [("symbol", JS.JString "BTCUSDT");
       ("quantity", JS.JNumber (JS.parseFloat "2"));
       ("order_type", JS.JString "MARKET")]
      "null"
  /\ "null"%string = match @None string with Some t => t | None => "null" end.
Proof.
  split; [reflexivity|].
  refine (proj1 (proj2 (proj2 (add_to_cart_without_login None
            {| BuySellTransferPage.selectedCrypto := "BTCUSDT";
               BuySellTransferPage.orderType := "MARKET";
               BuySellTransferPage.tradeAmount := "2";
               BuySellTransferPage.price := "" |}) _ _ _ eq_refl))).
Defined.

(** X13: every form the page lets [handleTrade] submit, [handleAddToCart]
    accepts as well, and the cart payload is part of the trade payload:
    each of its fields is a field of the trade payload with the same
    value. *)
Theorem trade_form_fits_cart :
  forall (decode : string -> option JS.JSValue) (stored : option string)
         (p : BuySellTransferPage.state) (s : Trade.side)
         (url : string) (payload : JS.object) (token : string),
    BuySellTransferPage.handleTrade decode stored p s
    = Trade.Post url payload token ->
    exists cart,
      PageActions.handleAddToCart stored p
      = Trade.Post "http://localhost:8000/cart/add" cart token
      /\ forall k v, JS.get_field cart k = Some v ->
                     JS.get_field payload k = Some v.
Proof.
  intros decode stored p s url payload token H.
  unfold BuySellTransferPage.handleTrade in H.
  unfold PageActions.handleAddToCart.
  destruct (Trade.not_authenticated _ stored) eqn:Hna; [discriminate|].
  match type of H with (if ?c then _ else _) = _ => destruct c end;
    [discriminate|].
  injection H as <- <- <-.
  assert (Htok : PageActions.bearer_text stored = default ""%string stored).
  { unfold Trade.not_authenticated in Hna.
    apply orb_false_iff in Hna as [_ Hst]. now destruct stored. }
  rewrite Htok. eexists. split; [reflexivity|].
  intros k v. unfold Trade.make_payload.
  destruct (String.eqb (BuySellTransferPage.orderType p) "LIMIT");
    cbn [app JS.get_field];
    repeat match goal with
           | |- context [String.eqb k ?x] =>
               destruct (String.eqb_spec k x) as [->|?]
           end;
    simpl; congruence.
Qed.

(** A limit BUY of 2 BTCUSDT at 30000 by the user u1. *)
Lemma trade_form_fits_cart_witness :
  exists cart,
    PageActions.handleAddToCart (Some Trade.sample_token)
      {| BuySellTransferPage.selectedCrypto := "BTCUSDT";
         BuySellTransferPage.orderType := "LIMIT";
         BuySellTransferPage.tradeAmount := "2";
         BuySellTransferPage.price := "30000" |}
    = Trade.Post "http://localhost:8000/cart/add" cart Trade.sample_token
    /\ forall k v, JS.get_field cart k = Some v ->
                   JS.get_field
                     (Trade.make_payload (JS.JString "u1") "BTCUSDT" Trade.buy
                                         "LIMIT" "2" "30000") k = Some v.
Proof.
  exact (trade_form_fits_cart Trade.sample_decode (Some Trade.sample_token)
           {| BuySellTransferPage.selectedCrypto := "BTCUSDT";
              BuySellTransferPage.orderType := "LIMIT";
              BuySellTransferPage.tradeAmount := "2";
              BuySellTransferPage.price := "30000" |}
           Trade.buy _ _ _ eq_refl).
Defined.

(** X14: [handleCartCheckout] posts an empty body to [/cart/checkout]
    exactly when the stored token yields a user id, whatever the trade form
    holds; whenever [handleTrade] of the page posts, a checkout would
    post as well. *)
Theorem checkout_requires_login :
  forall (decode : string -> option JS.JSValue) (stored : option string),
    ((exists url payload token,
         PageActions.handleCartCheckout decode stored
         = Trade.Post url payload token)
     <-> Trade.getUserIdFromToken decode stored <> JS.JNull)
    /\ (forall url payload token,
           PageActions.handleCartCheckout decode stored
           = Trade.Post url payload token ->
           url = "http://localhost:8000/cart/checkout"
           /\ payload = []
           /\ stored = Some token)
    /\ (forall (p : BuySellTransferPage.state) (s : Trade.side)
               url payload token,
           BuySellTransferPage.handleTrade decode stored p s
           = Trade.Post url payload token ->
           PageActions.handleCartCheckout decode stored
           = Trade.Post "http://localhost:8000/cart/checkout" [] token).
Proof.
  intros decode stored.
  assert (Hauth : Trade.not_authenticated
                    (Trade.getUserIdFromToken decode stored) stored = true
                  <-> Trade.getUserIdFromToken decode stored = JS.JNull).
  { exact (TokenFacts.not_authenticated_null decode stored). }
  unfold PageActions.handleCartCheckout.
  destruct (Trade.not_authenticated _ stored) eqn:Hna.
  - split; [split|split].
    + intros (? & ? & ? & H). discriminate H.
    + intros Hne. exfalso. apply Hne. now apply Hauth.
    + intros ? ? ? H. discriminate H.
    + intros p s url payload token H.
      unfold BuySellTransferPage.handleTrade in H. rewrite Hna in H.
      discriminate H.
  - assert (Hst : exists t, stored = Some t).
    { unfold Trade.not_authenticated in Hna.
      apply orb_false_iff in Hna as [_ Hst].
      destruct stored as [t|]; [now exists t|discriminate]. }
    destruct Hst as [t ->]. split; [split|split].
    + intros _ Hn. apply Hauth in Hn. congruence.
    + intros _. repeat eexists.
    + intros url payload token [= <- <- <-]. repeat split.
    + intros p s url payload token H.
      unfold BuySellTransferPage.handleTrade in H. rewrite Hna in H.
      match type of H with (if ?c then _ else _) = _ => destruct c end;
        [discriminate|].
      now injection H as _ _ <-.
Qed.

(** The user u1 checks the cart out. *)
Lemma checkout_requires_login_witness :
  exists url payload token,
    PageActions.handleCartCheckout Trade.sample_decode
      (Some Trade.sample_token)
    = Trade.Post url payload token.
Proof.
  apply (proj1 (checkout_requires_login Trade.sample_decode
                  (Some Trade.sample_token))).
  discriminate.
Defined.

(** X15: [handleTransfer] never looks at the login either: it posts to
    [/transfer] exactly when recipient, symbol and amount are non-empty,
    with the symbol in upper case and the amount parsed by [parseFloat],
    whatever its sign. *)
Theorem transfer_without_login :
  forall (toUpperCase : string -> string) (stored : option string)
         (f : PageActions.transfer_form),
    ((exists url payload token,
         PageActions.handleTransfer toUpperCase stored f
         = Trade.Post url payload token)
     <-> PageActions.recipientUsername f <> ""
         /\ PageActions.transferSymbol f <> ""
         /\ PageActions.transferAmount f <> "")
    /\ (forall url payload token,
           PageActions.handleTransfer toUpperCase stored f
           = Trade.Post url payload token ->
           url = "http://localhost:8000/transfer"
           /\ token = match stored with Some t => t | None => "null" end
           /\ payload
              = [("to_username", JS.JString (PageActions.recipientUsername f));
                 ("symbol",
                  JS.JString (toUpperCase (PageActions.transferSymbol f)));
                 ("amount",
                  JS.JNumber
                    (JS.parseFloat (PageActions.transferAmount f)))]).
Proof.
  intros toUpperCase stored f.
  unfold PageActions.handleTransfer, JS.empty_string.
  split; [split|].
  - intros (url & payload & token & H).
    destruct (String.eqb_spec (PageActions.recipientUsername f) "");
      [discriminate|].
    destruct (String.eqb_spec (PageActions.transferSymbol f) "");
      [discriminate|].
    destruct (String.eqb_spec (PageActions.transferAmount f) "");
      [discriminate|].
    now repeat split.
  - intros (Hr & Hs & Ha).
    destruct (String.eqb_spec (PageActions.recipientUsername f) "");
      [contradiction|].
    destruct (String.eqb_spec (PageActions.transferSymbol f) "");
      [contradiction|].
    destruct (String.eqb_spec (PageActions.transferAmount f) "");
      [contradiction|].
    simpl. repeat eexists.
  - intros url payload token H.
    match type of H with (if ?c then _ else _) = _ => destruct c end;
      [discriminate|].
    injection H as <- <- <-. repeat split.
Qed.

(** A transfer of -5 btcusdt to bob, nobody logged in. *)
Lemma transfer_without_login_witness :
  exists url payload token,
    PageActions.handleTransfer (fun s => s) None
      {| PageActions.recipientUsername := "bob";
         PageActions.transferSymbol := "btcusdt";
         PageActions.transferAmount := "-5" |}
    = Trade.Post url payload token.
Proof.
  apply (proj1 (transfer_without_login (fun s => s) None
                  {| PageActions.recipientUsername := "bob";
                     PageActions.transferSymbol := "btcusdt";
                     PageActions.transferAmount := "-5" |})).
  repeat split; discriminate.
Defined.

(** X16: a trade that was accepted cannot be sent twice by a second click:
    after the success the amount of the submitted form is empty, so the
    same [handleTrade] asks to fill the fields and posts nothing (and the
    button of the widget is disabled), while the other side of the widget
    behaves as before; after a failure the form is kept, and the same click
    posts the identical request again.  The widget reads
    [response.data.message] before it clears the form: an accepted trade
    whose answer has no body ([null]) is reported as failed, the form is
    kept, and the same click posts the request a second time.  The page
    does not read the answer. *)
Theorem no_resubmit_after_success :
  forall (decode : string -> option JS.JSValue) (stored : option string)
         (w : BuySellTransferWidget.state) (p : BuySellTransferPage.state)
         (s : Trade.side) (url : string) (payload : JS.object)
         (token : string),
    (BuySellTransferWidget.handleTrade decode stored w s
     = Trade.Post url payload token ->
     (forall data,
         data <> JS.JNull -> data <> JS.JUndefined ->
         let w' := fst (TradeResponse.widget_settle w s
                          (TradeResponse.Accepted data)) in
         BuySellTransferWidget.handleTrade decode stored w' s
         = Trade.ShowError "Please fill all required fields."
         /\ TradeResponse.submit_disabled w' s = true
         /\ BuySellTransferWidget.handleTrade decode stored w'
              (TradeResponse.other s)
            = BuySellTransferWidget.handleTrade decode stored w
                (TradeResponse.other s))
     /\ (forall data,
            data = JS.JNull \/ data = JS.JUndefined ->
            TradeResponse.widget_settle w s (TradeResponse.Accepted data)
            = (w, {| TradeResponse.message :=
                       JS.JString (TradeResponse.failed_text s);
                     TradeResponse.messageType := "error" |})
            /\ BuySellTransferWidget.handleTrade decode stored
                 (fst (TradeResponse.widget_settle w s
                         (TradeResponse.Accepted data))) s
               = Trade.Post url payload token)
     /\ (forall detail,
            BuySellTransferWidget.handleTrade decode stored
              (fst (TradeResponse.widget_settle w s
                      (TradeResponse.Refused detail))) s
            = Trade.Post url payload token))
    /\ (BuySellTransferPage.handleTrade decode stored p s
        = Trade.Post url payload token ->
        (forall data s',
            BuySellTransferPage.handleTrade decode stored
              (fst (TradeResponse.page_settle p s
                      (TradeResponse.Accepted data))) s'
            = Trade.ShowError "Please fill all required fields.")
        /\ (forall detail,
               BuySellTransferPage.handleTrade decode stored
                 (fst (TradeResponse.page_settle p s
                         (TradeResponse.Refused detail))) s
               = Trade.Post url payload token)).
Proof.
  intros decode stored w p s url payload token. split.
  - intros H. split; [|split; [|intros detail; exact H]].
    + intros data Hnull Hundef w'. subst w'.
      assert (Hread : exists msg, TradeResponse.read_message data = Some msg).
      { destruct data; try (eexists; reflexivity); congruence. }
      destruct Hread as [msg Hread].
      unfold TradeResponse.widget_settle. rewrite Hread.
      unfold BuySellTransferWidget.handleTrade in *.
      destruct (Trade.not_authenticated _ stored); [discriminate|].
      destruct s; cbn; repeat split.
    + intros data [-> | ->]; (split; [reflexivity|exact H]).
  - intros H. split; [|intros detail; exact H].
    intros data s'.
    unfold BuySellTransferPage.handleTrade in *.
    destruct (Trade.not_authenticated _ stored); [discriminate|].
    cbn. unfold JS.empty_string in *.
    destruct (String.eqb (BuySellTransferPage.selectedCrypto p) "");
      [discriminate|reflexivity].
Qed.

(** A market BUY of 0.5 BTCUSDT from the widget is accepted: the second
    click posts nothing. *)
Lemma no_resubmit_after_success_witness :
  let w := {| BuySellTransferWidget.symbol := "BTCUSDT";
              BuySellTransferWidget.orderType := "MARKET";
              BuySellTransferWidget.buyAmount := "0.5";
              BuySellTransferWidget.buyPrice := "";
              BuySellTransferWidget.sellAmount := "1";
              BuySellTransferWidget.sellPrice := "" |} in
  BuySellTransferWidget.handleTrade Trade.sample_decode
    (Some Trade.sample_token)
    (fst (TradeResponse.widget_settle w Trade.buy
            (TradeResponse.Accepted
               (JS.JObject [("message", JS.JString "Order queued")]))))
    Trade.buy
  = Trade.ShowError "Please fill all required fields.".
Proof.
  intros w.
  refine (proj1 (proj1 (proj1 (no_resubmit_after_success Trade.sample_decode
            (Some Trade.sample_token) w
            {| BuySellTransferPage.selectedCrypto := "";
               BuySellTransferPage.orderType := "MARKET";
               BuySellTransferPage.tradeAmount := "";
               BuySellTransferPage.price := "" |}
            Trade.buy _ _ _) eq_refl)
            (JS.JObject [("message", JS.JString "Order queued")])
            ltac:(discriminate) ltac:(discriminate))).
Defined.

(** X17: on a page in range the two buttons undo each other: where Next is
    enabled, Next and then Previous lead back to the page, and where
    Previous is enabled, Previous and then Next do. *)
Theorem pagination_round_trip :
  forall (total page : Z),
    CryptoListPage.page_in_range total page ->
    (CryptoListPage.next_disabled page total = false ->
     CryptoListPage.run_clicks total page
       [CryptoListPage.Next; CryptoListPage.Previous] = page)
    /\ (CryptoListPage.previous_disabled page = false ->
        CryptoListPage.run_clicks total page
          [CryptoListPage.Previous; CryptoListPage.Next] = page).
Proof.
  intros total page [Hlo Hhi].
  unfold CryptoListPage.run_clicks, CryptoListPage.on_click,
    CryptoListPage.next_disabled, CryptoListPage.previous_disabled.
  cbn [fold_left]. split; intros Hen; rewrite Hen.
  - destruct (Z.eqb_spec (page + 1) 1); lia.
  - apply Z.eqb_neq in Hen.
    destruct (Z.eqb_spec (page - 1) (CryptoListPage.totalPages total)); lia.
Qed.

(** Page 2 of 3. *)
Lemma pagination_round_trip_witness :
  CryptoListPage.run_clicks 25 2
    [CryptoListPage.Next; CryptoListPage.Previous] = 2
  /\ CryptoListPage.run_clicks 25 2
       [CryptoListPage.Previous; CryptoListPage.Next] = 2.
Proof.
  assert (Hrange : CryptoListPage.page_in_range 25 2)
    by (unfold CryptoListPage.page_in_range; vm_compute; split; discriminate).
  split.
  - apply (proj1 (pagination_round_trip 25 2 Hrange)). reflexivity.
  - apply (proj2 (pagination_round_trip 25 2 Hrange)). reflexivity.
Defined.

(** X18: with results, [n] clicks on Next from the first page lead to page
    [min (1 + n) totalPages]: every page is reached, and the last page is
    where Next stops; [n] clicks on Previous from a page in range lead to
    [max (page - n) 1]. *)
Theorem pagination_clamps :
  forall (total page : Z) (n : nat),
    0 < total ->
    CryptoListPage.page_in_range total page ->
    CryptoListPage.run_clicks total 1 (repeat CryptoListPage.Next n)
    = Z.min (1 + Z.of_nat n) (CryptoListPage.totalPages total)
    /\ CryptoListPage.run_clicks total page (repeat CryptoListPage.Previous n)
       = Z.max (page - Z.of_nat n) 1.
Proof.
  intros total page n Htotal Hpage.
  pose proof (CryptoListPageFacts.totalPages_bounds total) as Hb.
  unfold CryptoListPage.pageSize in Hb.
  unfold CryptoListPage.page_in_range in Hpage.
  assert (Hnext : forall m start,
             1 <= start <= CryptoListPage.totalPages total ->
             CryptoListPage.run_clicks total start
               (repeat CryptoListPage.Next m)
             = Z.min (start + Z.of_nat m) (CryptoListPage.totalPages total)).
  { induction m as [|m IH]; intros start Hstart.
    - simpl. lia.
    - unfold CryptoListPage.run_clicks in *. cbn [repeat fold_left].
      unfold CryptoListPage.on_click at 2, CryptoListPage.next_disabled.
      destruct (Z.eqb_spec start (CryptoListPage.totalPages total));
        rewrite IH by lia; lia. }
  assert (Hprev : forall m start,
             1 <= start ->
             CryptoListPage.run_clicks total start
               (repeat CryptoListPage.Previous m)
             = Z.max (start - Z.of_nat m) 1).
  { induction m as [|m IH]; intros start Hstart.
    - simpl. lia.
    - unfold CryptoListPage.run_clicks in *. cbn [repeat fold_left].
      unfold CryptoListPage.on_click at 2, CryptoListPage.previous_disabled.
      destruct (Z.eqb_spec start 1); rewrite IH by lia; lia. }
  split; [apply Hnext; lia|apply Hprev; lia].
Qed.

(** Twenty-five coins: five clicks on Next stop at page 3. *)
Lemma pagination_clamps_witness :
  CryptoListPage.run_clicks 25 1 (repeat CryptoListPage.Next 5)
  = Z.min (1 + 5) (CryptoListPage.totalPages 25).
Proof.
  apply (proj1 (pagination_clamps 25 1 5 ltac:(lia)
                  ltac:(unfold CryptoListPage.page_in_range; vm_compute;
                        split; discriminate))).
Defined.
